(** * NodeToCode MCP bridge: a shallow embedding of
      [Content/Python/mcp_bridge/nodetocode_bridge.py]

    The bridge reads JSON-RPC lines on stdin, forwards each one over HTTP to
    the editor plugin, follows a deferred call on an event stream, and prints
    one compact JSON line per answer.  Python [str] values are modelled as
    lists of Unicode code points, the [json] module by an executable scanner
    and encoder, the limits of the interpreter by what [json.loads] raises
    on a text at each place that calls it, and the network by the replies it
    gives.  [print] is taken to succeed: stdout is open and takes every text
    the bridge writes. *)

From Stdlib Require Import List NArith ZArith Bool Lia String Ascii.
From Stdlib Require DecimalZ DecimalN DecimalPos DecimalFacts.
Import ListNotations.

Local Open Scope N_scope.

(* ================================================================= *)
(** ** Python strings *)

(** A Python [str]: a sequence of code points. *)
Definition pystr := list N.

(** An ASCII literal as a [pystr]. *)
Definition py (s : string) : pystr :=
  List.map N_of_ascii (list_ascii_of_string s).

(** The same with every apostrophe of the literal read as a double quote, for
    writing JSON texts. *)
Definition pyq (s : string) : pystr :=
  List.map (fun c => if c =? 39 then 34 else c) (py s).

Fixpoint str_eqb (a b : pystr) : bool :=
  match a, b with
  | [], [] => true
  | x :: a', y :: b' => N.eqb x y && str_eqb a' b'
  | _, _ => false
  end.

(** [s.startswith(prefix)] *)
Fixpoint startswith (prefix s : pystr) : bool :=
  match prefix, s with
  | [], _ => true
  | p :: prefix', c :: s' => N.eqb p c && startswith prefix' s'
  | _ :: _, [] => false
  end.

(** [ch.isspace()]: the characters [str.strip()] removes. *)
Definition isspace (c : N) : bool :=
  ((9 <=? c) && (c <=? 13)) || ((28 <=? c) && (c <=? 32))
  || (c =? 133) || (c =? 160) || (c =? 5760)
  || ((8192 <=? c) && (c <=? 8202))
  || (c =? 8232) || (c =? 8233) || (c =? 8239) || (c =? 8287) || (c =? 12288).

Fixpoint lstrip (s : pystr) : pystr :=
  match s with
  | c :: s' => if isspace c then lstrip s' else s
  | [] => []
  end.

Definition rstrip (s : pystr) : pystr := rev (lstrip (rev s)).

(** [s.strip()] *)
Definition strip (s : pystr) : pystr := rstrip (lstrip s).

(** [s.split(sep)] for a one-character separator: never empty, the pieces
    hold no separator. *)
Fixpoint split_char (sep : N) (s : pystr) : list pystr :=
  match s with
  | [] => [[]]
  | c :: s' =>
      if N.eqb c sep then [] :: split_char sep s'
      else match split_char sep s' with
           | piece :: pieces => (c :: piece) :: pieces
           | [] => [[c]]
           end
  end.

(** [s.replace(old, new)] for a one-character [old]. *)
Definition replace_char (old : N) (new : pystr) (s : pystr) : pystr :=
  flat_map (fun c => if N.eqb c old then new else [c]) s.

Definition LF : N := 10.
Definition CR : N := 13.

(** [buffer.split('\n\n', 1)] when ['\n\n' in buffer]: the text before the
    first blank line and the text after it; [None] when there is none. *)
Fixpoint split_blank_line (buffer : pystr) : option (pystr * pystr) :=
  match buffer with
  | [] => None
  | c :: rest =>
      if startswith [LF; LF] buffer then Some ([], skipn 1 rest)
      else match split_blank_line rest with
           | Some (before, after) => Some (c :: before, after)
           | None => None
           end
  end.

(** A text that [print] puts on one line. *)
Definition single_line (text : pystr) : Prop := Forall (fun c => c <> LF) text.

(* ================================================================= *)
(** ** SSE event parser *)

Definition EVENT_PREFIX : pystr := Eval cbv in py "event:".
Definition DATA_PREFIX : pystr := Eval cbv in py "data:".
Definition MESSAGE : pystr := Eval cbv in py "message".

(** [line[6:].strip()] and [line[5:].strip()] *)
Definition event_field (line : pystr) : pystr := strip (skipn 6 line).
Definition data_field (line : pystr) : pystr := strip (skipn 5 line).

(** One turn of the loop of [parse_sse_event]. *)
Definition parse_sse_line (acc : pystr * pystr) (line : pystr) : pystr * pystr :=
  let '(event_type, data) := acc in
  if startswith EVENT_PREFIX line then (event_field line, data)
  else if startswith DATA_PREFIX line then (event_type, data_field line)
  else (event_type, data).

(** [parse_sse_event(event_str)] *)
Definition parse_sse_event (event_str : pystr) : pystr * pystr :=
  fold_left parse_sse_line (split_char LF event_str) (MESSAGE, []).

(* ================================================================= *)
(** ** The [json] module *)

(** The scanner and the encoder of CPython's [json], with the default
    options the bridge uses ([strict], [ensure_ascii], [allow_nan]).  The
    scanner here is the grammar; the limits of the interpreter (recursion
    depth, digits of an integer) come with [json_loads] below. *)

(** Characters the scanner and the encoder name. *)
Abbreviation QUOTE := 34 (only parsing).
Abbreviation BACKSLASH := 92 (only parsing).
Abbreviation LBRACE := 123 (only parsing).
Abbreviation RBRACE := 125 (only parsing).
Abbreviation LBRACKET := 91 (only parsing).
Abbreviation RBRACKET := 93 (only parsing).
Abbreviation COMMA := 44 (only parsing).
Abbreviation COLON := 58 (only parsing).
Abbreviation MINUS := 45 (only parsing).
Abbreviation PLUS := 43 (only parsing).
Abbreviation DOT := 46 (only parsing).
Abbreviation SPACE := 32 (only parsing).
Abbreviation LOWER_U := 117 (only parsing).

Definition NULL : pystr := Eval cbv in py "null".
Definition TRUE : pystr := Eval cbv in py "true".
Definition FALSE : pystr := Eval cbv in py "false".
Definition NAN : pystr := Eval cbv in py "NaN".
Definition INFINITY : pystr := Eval cbv in py "Infinity".
Definition NEG_INFINITY : pystr := Eval cbv in py "-Infinity".

(** What a scanning function gives: a value and the unread text, a
    [JSONDecodeError], or a recursion budget that ran out. *)
Inductive scan (A : Type) : Type :=
| Scanned (a : A) (rest : pystr)
| Invalid
| OutOfFuel.
Arguments Scanned {A} a rest.
Arguments Invalid {A}.
Arguments OutOfFuel {A}.

Definition scan_map {A B} (f : A -> B) (r : scan A) : scan B :=
  match r with
  | Scanned a rest => Scanned (f a) rest
  | Invalid => Invalid
  | OutOfFuel => OutOfFuel
  end.

(** The characters of [WHITESPACE]: space, tab, line feed, carriage return. *)
Definition is_ws (c : N) : bool :=
  (c =? SPACE) || (c =? 9) || (c =? 10) || (c =? 13).

Fixpoint skip_ws (s : pystr) : pystr :=
  match s with
  | c :: s' => if is_ws c then skip_ws s' else s
  | [] => []
  end.

Definition is_digit (c : N) : bool := (48 <=? c) && (c <=? 57).

(** The longest run of digits at the head of [s], and what follows. *)
Fixpoint take_digits (s : pystr) : pystr * pystr :=
  match s with
  | c :: s' =>
      if is_digit c then let (ds, rest) := take_digits s' in (c :: ds, rest)
      else ([], s)
  | [] => ([], [])
  end.

(** [NUMBER_RE], group 1: an optional minus sign, then either a single 0
    or a digit from 1 to 9 followed by any run of digits. *)
Definition match_integer (s : pystr) : option (pystr * pystr) :=
  let (sign, s1) :=
    match s with
    | c :: s' => if c =? MINUS then ([c], s') else ([], s)
    | [] => ([], s)
    end in
  match s1 with
  | c :: s2 =>
      if c =? 48 then Some (sign ++ [c], s2)
      else if is_digit c then
        let (ds, s3) := take_digits s2 in Some (sign ++ c :: ds, s3)
      else None
  | [] => None
  end.

(** [NUMBER_RE], group 2 (optional): a dot and one or more digits; empty
    when the group does not match. *)
Definition match_frac (s : pystr) : pystr * pystr :=
  match s with
  | c :: s1 =>
      if c =? DOT then
        match take_digits s1 with
        | ([], _) => ([], s)
        | (ds, s2) => (c :: ds, s2)
        end
      else ([], s)
  | [] => ([], s)
  end.

(** [NUMBER_RE], group 3 (optional): e or E, an optional sign, one or more
    digits. *)
Definition match_exp (s : pystr) : pystr * pystr :=
  match s with
  | e :: s1 =>
      if (e =? 101) || (e =? 69) then
        let (sign, s2) :=
          match s1 with
          | c :: s' => if (c =? MINUS) || (c =? PLUS) then ([c], s') else ([], s1)
          | [] => ([], s1)
          end in
        match take_digits s2 with
        | ([], _) => ([], s)
        | (ds, s3) => (e :: sign ++ ds, s3)
        end
      else ([], s)
  | [] => ([], s)
  end.

(** [NUMBER_RE.match]: the three groups and the unread text. *)
Definition match_number (s : pystr) : option (pystr * pystr * pystr * pystr) :=
  match match_integer s with
  | Some (integer, s1) =>
      let (frac, s2) := match_frac s1 in
      let (exp, s3) := match_exp s2 in
      Some (integer, frac, exp, s3)
  | None => None
  end.

Definition digit_of (c : N) : Decimal.uint -> Decimal.uint :=
  match c - 48 with
  | 0 => Decimal.D0 | 1 => Decimal.D1 | 2 => Decimal.D2 | 3 => Decimal.D3
  | 4 => Decimal.D4 | 5 => Decimal.D5 | 6 => Decimal.D6 | 7 => Decimal.D7
  | 8 => Decimal.D8 | _ => Decimal.D9
  end.

Fixpoint digits_uint (s : pystr) : Decimal.uint :=
  match s with
  | [] => Decimal.Nil
  | c :: s' => digit_of c (digits_uint s')
  end.

Fixpoint uint_digits (u : Decimal.uint) : pystr :=
  match u with
  | Decimal.Nil => []
  | Decimal.D0 u' => 48 :: uint_digits u'
  | Decimal.D1 u' => 49 :: uint_digits u'
  | Decimal.D2 u' => 50 :: uint_digits u'
  | Decimal.D3 u' => 51 :: uint_digits u'
  | Decimal.D4 u' => 52 :: uint_digits u'
  | Decimal.D5 u' => 53 :: uint_digits u'
  | Decimal.D6 u' => 54 :: uint_digits u'
  | Decimal.D7 u' => 55 :: uint_digits u'
  | Decimal.D8 u' => 56 :: uint_digits u'
  | Decimal.D9 u' => 57 :: uint_digits u'
  end.

(** [int(lexeme)] on a lexeme of group 1. *)
Definition parse_int (lexeme : pystr) : Z :=
  match lexeme with
  | c :: ds =>
      if c =? MINUS then Z.of_int (Decimal.Neg (digits_uint ds))
      else Z.of_int (Decimal.Pos (digits_uint lexeme))
  | [] => 0%Z
  end.

(** [int.__repr__] *)
Definition int_repr (z : Z) : pystr :=
  match Z.to_int z with
  | Decimal.Pos u => uint_digits u
  | Decimal.Neg u => MINUS :: uint_digits u
  end.

Definition hex_value (c : N) : option N :=
  if (48 <=? c) && (c <=? 57) then Some (c - 48)
  else if (97 <=? c) && (c <=? 102) then Some (c - 87)
  else if (65 <=? c) && (c <=? 70) then Some (c - 55)
  else None.

(** [_decode_uXXXX]: exactly four hexadecimal digits, read in base 16. *)
Definition decode_uXXXX (s : pystr) : option (N * pystr) :=
  match s with
  | h1 :: h2 :: h3 :: h4 :: rest =>
      match hex_value h1, hex_value h2, hex_value h3, hex_value h4 with
      | Some a, Some b, Some c, Some d => Some (4096 * a + 256 * b + 16 * c + d, rest)
      | _, _, _, _ => None
      end
  | _ => None
  end.

(** The [BACKSLASH] table of the decoder. *)
Definition backslash (esc : N) : option N :=
  if esc =? QUOTE then Some QUOTE
  else if esc =? BACKSLASH then Some BACKSLASH
  else if esc =? 47 then Some 47
  else if esc =? 98 then Some 8
  else if esc =? 102 then Some 12
  else if esc =? 110 then Some 10
  else if esc =? 114 then Some 13
  else if esc =? 116 then Some 9
  else None.

Definition is_high_surrogate (c : N) : bool := (0xd800 <=? c) && (c <=? 0xdbff).
Definition is_low_surrogate (c : N) : bool := (0xdc00 <=? c) && (c <=? 0xdfff).

Definition join_surrogates (uni uni2 : N) : N :=
  0x10000 + N.lor (N.shiftl (uni - 0xd800) 10) (uni2 - 0xdc00).

Definition scan_cons (c : N) (r : scan pystr) : scan pystr :=
  scan_map (cons c) r.

(** [py_scanstring] in strict mode, from the character after the opening
    quote.  Every turn reads at least one character of [s]. *)
Fixpoint scanstring (s : pystr) : scan pystr :=
  match s with
  | [] => Invalid
  | c :: s1 =>
      if c =? QUOTE then Scanned [] s1
      else if c =? BACKSLASH then
        match s1 with
        | [] => Invalid
        | esc :: s2 =>
            if esc =? LOWER_U then
              match s2 with
              | h1 :: h2 :: h3 :: h4 :: s3 =>
                  match decode_uXXXX [h1; h2; h3; h4] with
                  | None => Invalid
                  | Some (uni, _) =>
                      match s3 with
                      | b :: u :: s4 =>
                          if is_high_surrogate uni && (b =? BACKSLASH) && (u =? LOWER_U) then
                            match s4 with
                            | l1 :: l2 :: l3 :: l4 :: s5 =>
                                match decode_uXXXX [l1; l2; l3; l4] with
                                | None => Invalid
                                | Some (uni2, _) =>
                                    if is_low_surrogate uni2
                                    then scan_cons (join_surrogates uni uni2) (scanstring s5)
                                    else scan_cons uni (scanstring s3)
                                end
                            | _ => Invalid
                            end
                          else scan_cons uni (scanstring s3)
                      | _ => scan_cons uni (scanstring s3)
                      end
                  end
              | _ => Invalid
              end
            else
              match backslash esc with
              | None => Invalid
              | Some char => scan_cons char (scanstring s2)
              end
        end
      else if c <? 32 then Invalid
      else scan_cons c (scanstring s1)
  end.

Definition hex_digit (d : N) : N := if d <? 10 then 48 + d else 87 + d.

(** ['{0:04x}'.format(n)] for [n < 0x10000]. *)
Definition format_04x (n : N) : pystr :=
  [hex_digit (n / 4096); hex_digit (n / 256 mod 16);
   hex_digit (n / 16 mod 16); hex_digit (n mod 16)].

(** The replacement [py_encode_basestring_ascii] makes for one character:
    [ESCAPE_DCT] first, a printable ASCII character as it is, anything else
    as one [\uXXXX] escape or a surrogate pair of them. *)
Definition escape_char (c : N) : pystr :=
  if c =? BACKSLASH then [BACKSLASH; BACKSLASH]
  else if c =? QUOTE then [BACKSLASH; QUOTE]
  else if c =? 8 then [BACKSLASH; 98]
  else if c =? 12 then [BACKSLASH; 102]
  else if c =? 10 then [BACKSLASH; 110]
  else if c =? 13 then [BACKSLASH; 114]
  else if c =? 9 then [BACKSLASH; 116]
  else if (SPACE <=? c) && (c <=? 126) then [c]
  else if c <? 0x10000 then BACKSLASH :: LOWER_U :: format_04x c
  else
    let n := c - 0x10000 in
    let s1 := N.lor 0xd800 (N.land (N.shiftr n 10) 0x3ff) in
    let s2 := N.lor 0xdc00 (N.land n 0x3ff) in
    (BACKSLASH :: LOWER_U :: format_04x s1) ++ (BACKSLASH :: LOWER_U :: format_04x s2).

Definition encode_basestring_ascii (s : pystr) : pystr :=
  QUOTE :: flat_map escape_char s ++ [QUOTE].

(** [sep.join(parts)] *)
Fixpoint join (sep : pystr) (parts : list pystr) : pystr :=
  match parts with
  | [] => []
  | [p] => p
  | p :: ps => p ++ sep ++ join sep ps
  end.

(* ================================================================= *)
(** ** The network and the results of calls *)

(** A call returns a value or lets an exception out; [str_e] is [str(e)]. *)
Inductive py_result (A : Type) : Type :=
| Returned (a : A)
| Raised (str_e : pystr).
Arguments Returned {A} a.
Arguments Raised {A} str_e.

(** [resp.read(...).decode('utf-8')]: the text, or the exception of a failed
    read or of bytes that are not UTF-8. *)
Inductive read_result : Type :=
| ReadText (text : pystr)
| ReadRaises (str_e : pystr).

(** What [urlopen] does with the GET on the event stream: it raises, or it
    gives a response whose successive [read(1024)] calls give [reads]; after
    the last of them the stream is closed and [read] gives the empty
    string. *)
Inductive sse_reply : Type :=
| SseOpenRaises (str_e : pystr)
| SseStream (reads : list read_result).

(** What [urlopen] does with the POST: a response ([status], the
    [Mcp-Session-Id] header when there is one, the body), an [HTTPError]
    ([e.fp] and its body when there is one, and [str(e)]), a [URLError]
    ([e.reason]), or another exception. *)
Inductive post_reply : Type :=
| Response (status : Z) (session_header : option pystr) (body : read_result)
| HTTPError (code : Z) (fp : option read_result) (str_e : pystr)
| URLError (reason : pystr)
| OtherException (str_e : pystr).

(** The function in which [json.loads] is called.  The depth of the calls
    decides how much nesting the interpreter accepts, so the same text may
    be read in one function and end in a [RecursionError] in another. *)
Inductive caller : Type :=
| in_main
| in_write_response
| in_handle_sse_response.

(** How [for line in sys.stdin] ends after the lines it gave: the input is
    over, the wait for a line is interrupted ([KeyboardInterrupt]), or the
    iterator raises, as it does on bytes that are not UTF-8. *)
Inductive stdin_end : Type :=
| EndOfInput
| Interrupted
| StdinRaises (str_e : pystr).

(** The POST that [forward_request] sends. *)
Record request : Type := {
  req_host : pystr;
  req_port : Z;
  req_data : pystr;
  req_session_header : option pystr
}.

(** The server during one call of [forward_request]. *)
Record upstream : Type := {
  post : request -> post_reply;
  get_sse : pystr -> sse_reply
}.

(* ================================================================= *)
(** ** Discovery *)

Definition probe : Type := pystr * Z.

(** [range(lo, hi)] *)
Definition py_range (lo hi : Z) : list Z :=
  List.map (fun i => (lo + Z.of_nat i)%Z) (seq 0 (Z.to_nat (hi - lo))).

Definition LOCALHOST : pystr := Eval cbv in py "localhost".
Definition LOOPBACK : pystr := Eval cbv in py "127.0.0.1".

Section Discovery.

(** [check_ue5_health(host, port)], which may depend on the probes made
    before it; the probes are logged in the order they are made. *)
Variable check_ue5_health : list probe -> probe -> bool.

(** The first loop of [find_ue5_server]. *)
Fixpoint probe_configured (log : list probe) (hosts_to_try : list pystr) (port : Z)
  : option probe * list probe :=
  match hosts_to_try with
  | [] => (None, log)
  | h :: hosts' =>
      if check_ue5_health log (h, port) then (Some (h, port), log ++ [(h, port)])
      else probe_configured (log ++ [(h, port)]) hosts' port
  end.

(** The inner loop of the port scan, for one host [h]. *)
Fixpoint probe_ports (log : list probe) (host : pystr) (port : Z) (h : pystr)
    (ports : list Z) : option probe * list probe :=
  match ports with
  | [] => (None, log)
  | p :: ports' =>
      if (p =? port)%Z && str_eqb h host
      then probe_ports log host port h ports'
      else if check_ue5_health log (h, p) then (Some (h, p), log ++ [(h, p)])
      else probe_ports (log ++ [(h, p)]) host port h ports'
  end.

(** The port scan. *)
Fixpoint probe_range (log : list probe) (host : pystr) (port : Z)
    (hosts_to_try : list pystr) : option probe * list probe :=
  match hosts_to_try with
  | [] => (None, log)
  | h :: hosts' =>
      match probe_ports log host port h (py_range 27000 27011) with
      | (Some found, log') => (Some found, log')
      | (None, log') => probe_range log' host port hosts'
      end
  end.

(** [find_ue5_server(host, port)], with the probes it made. *)
Definition find_ue5_server (host : pystr) (port : Z) : option probe * list probe :=
  let hosts_to_try := if str_eqb host LOCALHOST then [LOOPBACK; LOCALHOST] else [host] in
  match probe_configured [] hosts_to_try port with
  | (Some found, log) => (Some found, log)
  | (None, log) => probe_range log host port hosts_to_try
  end.

End Discovery.

(** The hosts [find_ue5_server] tries for a configured host. *)
Definition hosts_to_try (host : pystr) : list pystr :=
  if str_eqb host LOCALHOST then [LOOPBACK; LOCALHOST] else [host].

(** The ports the scan probes on the host [h]: the range without the pair
    that is skipped. *)
Definition ports_to_scan (host : pystr) (port : Z) (h : pystr) : list Z :=
  filter (fun p => negb ((p =? port)%Z && str_eqb h host)) (py_range 27000 27011).

(** Every probe the two loops of [find_ue5_server] can make, in the order
    they make them: the configured port on each host, then the ports of the
    scan host by host. *)
Definition probe_schedule (host : pystr) (port : Z) : list probe :=
  List.map (fun h => (h, port)) (hosts_to_try host)
  ++ flat_map (fun h => List.map (pair h) (ports_to_scan host port h)) (hosts_to_try host).

(** Probing the pairs of a list one after the other, up to the first that
    answers. *)
Fixpoint probe_in_order (check_ue5_health : list probe -> probe -> bool)
    (log : list probe) (schedule : list probe) : option probe * list probe :=
  match schedule with
  | [] => (None, log)
  | p :: schedule' =>
      if check_ue5_health log p then (Some p, log ++ [p])
      else probe_in_order check_ue5_health (log ++ [p]) schedule'
  end.

(** Every probe of [log] found no server, each one asked after the probes
    before it. *)
Definition all_failed (check_ue5_health : list probe -> probe -> bool)
    (log : list probe) : Prop :=
  forall before p after, log = before ++ p :: after -> check_ue5_health before p = false.

(* ================================================================= *)
(** ** Decoded texts and what a scan leaves *)

(** The first character of a string is a low surrogate. *)
Definition head_low (s : pystr) : bool :=
  match s with c :: _ => is_low_surrogate c | [] => false end.

(** A string the encoder prints so that the scanner reads it back: code
    points below [0x110000], and no high surrogate right before a low one
    (the scanner would join the two escapes into one character). *)
Fixpoint str_ok (s : pystr) : bool :=
  match s with
  | [] => true
  | c :: s' =>
      (c <? 0x110000)
      && negb (is_high_surrogate c
               && match s' with c' :: _ => is_low_surrogate c' | [] => false end)
      && str_ok s'
  end.

(** A text as [decode('utf-8')] gives it: Unicode scalar values only. *)
Definition is_scalar (c : N) : bool :=
  (c <? 0x110000) && negb ((0xd800 <=? c) && (c <=? 0xdfff)).

Definition text_ok (text : pystr) : Prop := Forall (fun c => is_scalar c = true) text.

(** A text [encode('utf-8')] accepts: it holds no surrogate. *)
Definition encodable (text : pystr) : bool :=
  forallb (fun c => negb (is_high_surrogate c || is_low_surrogate c)) text.

(** What follows a value in a JSON text: nothing, a comma or a closing
    bracket or brace. *)
Definition value_end (rest : pystr) : Prop :=
  match rest with
  | [] => True
  | c :: _ => c = COMMA \/ c = RBRACKET \/ c = RBRACE
  end.

(** A scan of [s] that leaves [r] has read a prefix of [s] that is not
    empty. *)
Definition reads (s r : pystr) : Prop := exists pre, pre <> [] /\ s = pre ++ r.

(** What may follow the digits of a numeral: anything but a digit. *)
Definition not_digit_next (rest : pystr) : Prop :=
  match rest with [] => True | c :: _ => is_digit c = false end.

(** A numeral without a leading zero. *)
Definition leading_nonzero (u : Decimal.uint) : Prop :=
  match u with
  | Decimal.Nil | Decimal.D0 _ => False
  | _ => True
  end.

(** A text that begins a value: its first character is not whitespace and
    closes nothing. *)
Definition starts_value (text : pystr) : Prop :=
  match text with
  | [] => False
  | c :: _ => is_ws c = false /\ c <> RBRACKET /\ c <> RBRACE
  end.

(* ================================================================= *)
(** ** A small [float] for running examples *)

(** Five doubles and the texts Python prints for them.  Any other lexeme is
    read as zero: the examples use none. *)
Inductive sample_float : Type :=
| F_zero | F_one_and_half | F_nan | F_inf | F_neg_inf.

Definition sample_parse_float (lexeme : pystr) : sample_float :=
  if str_eqb lexeme (py "1.5") then F_one_and_half else F_zero.

Definition sample_parse_constant (name : pystr) : sample_float :=
  if str_eqb name NAN then F_nan
  else if str_eqb name INFINITY then F_inf
  else F_neg_inf.

Definition sample_floatstr (f : sample_float) : pystr :=
  match f with
  | F_zero => py "0.0"
  | F_one_and_half => py "1.5"
  | F_nan => NAN
  | F_inf => INFINITY
  | F_neg_inf => NEG_INFINITY
  end.

Definition sample_float_bool (f : sample_float) : bool :=
  match f with F_zero => false | _ => true end.

Definition sample_decode_error_text (text : pystr) : pystr :=
  match text with
  | 123 :: _ => py "Expecting property name enclosed in double quotes: line 1 column 2 (char 1)"
  | _ => py "Expecting value: line 1 column 1 (char 0)"
  end.

(** A sample of the limits of the interpreter: a text with more than 900
    opening brackets ends in a [RecursionError], wherever it is read. *)
Definition sample_loads_raises (where_ : caller) (text : pystr) : option pystr :=
  if (900 <? List.length (filter (N.eqb 91) text))%nat
  then Some (py "maximum recursion depth exceeded while decoding a JSON array from a unicode string")
  else None.

Definition sample_encode_error_text (text : pystr) : pystr :=
  py "'utf-8' codec can't encode character: surrogates not allowed".

(* ================================================================= *)
(** ** Sample traffic *)

Definition ping_line : pystr :=
  pyq "{'jsonrpc':'2.0','id':1,'method':'ping','params':{}}".

Definition pong_body : pystr := pyq "{'jsonrpc':'2.0','id':1,'result':'pong'}".

Definition notification_line : pystr :=
  pyq "{'jsonrpc':'2.0','method':'notifications/initialized'}".

Definition tools_line : pystr := pyq "{'jsonrpc':'2.0','id':7,'method':'tools/list'}".

Definition tools_body_without_id : pystr := pyq "{'jsonrpc':'2.0','result':{'tools':[]}}".

(** A deferral descriptor. *)
Definition sample_descriptor : pystr :=
  pyq "{'status':'accepted','sseUrl':'http://127.0.0.1:27000/mcp/events/7','taskId':'7'}".

(** The text made of the given lines, each one ended by a line feed; an
    apostrophe stands for a double quote, as in [pyq]. *)
Definition pylines (lines : list string) : pystr :=
  flat_map (fun line => pyq line ++ [LF]) lines.

(** An empty line. *)
Definition blank : string := EmptyString.

(** An upstream that gives [reply] to every POST and delivers [reads] on
    every event stream. *)
Definition replying (reply : post_reply) (reads : list read_result) : upstream :=
  {| post := fun _ => reply; get_sse := fun _ => SseStream reads |}.

(** A world whose upstream never changes. *)
Definition always (up : upstream) : list request -> upstream := fun _ => up.

Section Bridge.

(** Python's [float] is kept abstract: the scanner hands a lexeme with a
    fraction or an exponent to [float()], the encoder prints with
    [float.__repr__] (and [NaN], [Infinity], [-Infinity]). *)
Variable pyfloat : Type.
(** [float(lexeme)] *)
Variable parse_float : pystr -> pyfloat.
(** [parse_constant], applied to [NaN], [Infinity] and [-Infinity] *)
Variable parse_constant : pystr -> pyfloat.
(** [floatstr] of the encoder *)
Variable floatstr : pyfloat -> pystr.
(** [bool(x)] of a float *)
Variable float_bool : pyfloat -> bool.
(** [str(e)] of the [JSONDecodeError] that [json.loads] raises on a text *)
Variable decode_error_text : pystr -> pystr.
(** The limits of the interpreter: [str(e)] when [json.loads], called in the
    given function, ends on a text with an exception that is not a
    [JSONDecodeError] (a [RecursionError] on deep nesting, the [ValueError]
    of an integer with too many digits), [None] when it does not *)
Variable loads_raises : caller -> pystr -> option pystr.
(** [str(e)] of the [UnicodeEncodeError] that [encode('utf-8')] raises on a
    text with a surrogate *)
Variable encode_error_text : pystr -> pystr.

(** What [json.loads] builds.  A [dict] keeps its keys in insertion order
    and holds each key once. *)
Unset Elimination Schemes.
Inductive json : Type :=
| JNull
| JBool (b : bool)
| JInt (z : Z)
| JFloat (f : pyfloat)
| JStr (s : pystr)
| JArr (items : list json)
| JObj (d : list (pystr * json)).
Set Elimination Schemes.

Definition pydict := list (pystr * json).

(** [d.get(key)]: [None] when the key is absent. *)
Fixpoint dict_get (key : pystr) (d : pydict) : option json :=
  match d with
  | [] => None
  | (k, v) :: d' => if str_eqb k key then Some v else dict_get key d'
  end.

(** [d[key] = v]: a key already there keeps its place. *)
Fixpoint dict_set (key : pystr) (v : json) (d : pydict) : pydict :=
  match d with
  | [] => [(key, v)]
  | (k, x) :: d' =>
      if str_eqb k key then (k, v) :: d' else (k, x) :: dict_set key v d'
  end.

(** [dict(pairs)] *)
Definition dict_of_pairs (pairs : list (pystr * json)) : pydict :=
  fold_left (fun d kv => dict_set (fst kv) (snd kv) d) pairs [].

(** The number branch of [_scan_once] and the three constants after it. *)
Definition scan_number (s : pystr) : scan json :=
  match match_number s with
  | Some (integer, frac, exp, rest) =>
      match frac, exp with
      | [], [] => Scanned (JInt (parse_int integer)) rest
      | _, _ => Scanned (JFloat (parse_float (integer ++ frac ++ exp))) rest
      end
  | None =>
      if startswith NAN s then Scanned (JFloat (parse_constant NAN)) (skipn 3 s)
      else if startswith INFINITY s
      then Scanned (JFloat (parse_constant INFINITY)) (skipn 8 s)
      else if startswith NEG_INFINITY s
      then Scanned (JFloat (parse_constant NEG_INFINITY)) (skipn 9 s)
      else Invalid
  end.

(** [_scan_once], [JSONArray] and [JSONObject].  [scan_array_items] starts
    at an item and ends after the closing bracket; [scan_object_pairs]
    starts at the opening quote of a key and ends after the closing brace. *)
Fixpoint scan_once (fuel : nat) (s : pystr) {struct fuel} : scan json :=
  match fuel with
  | O => OutOfFuel
  | S fuel' =>
      match s with
      | [] => Invalid
      | nextchar :: s1 =>
          if nextchar =? QUOTE then scan_map JStr (scanstring s1)
          else if nextchar =? LBRACE then
            match skip_ws s1 with
            | c :: s2 =>
                if c =? RBRACE then Scanned (JObj []) s2
                else scan_map (fun pairs => JObj (dict_of_pairs pairs))
                       (scan_object_pairs fuel' (c :: s2))
            | [] => Invalid
            end
          else if nextchar =? LBRACKET then
            match skip_ws s1 with
            | c :: s2 =>
                if c =? RBRACKET then Scanned (JArr []) s2
                else scan_map JArr (scan_array_items fuel' (c :: s2))
            | [] => Invalid
            end
          else if startswith NULL s then Scanned JNull (skipn 4 s)
          else if startswith TRUE s then Scanned (JBool true) (skipn 4 s)
          else if startswith FALSE s then Scanned (JBool false) (skipn 5 s)
          else scan_number s
      end
  end

with scan_array_items (fuel : nat) (s : pystr) {struct fuel} : scan (list json) :=
  match fuel with
  | O => OutOfFuel
  | S fuel' =>
      match scan_once fuel' s with
      | Scanned value s1 =>
          match skip_ws s1 with
          | c :: s2 =>
              if c =? RBRACKET then Scanned [value] s2
              else if c =? COMMA
              then scan_map (cons value) (scan_array_items fuel' (skip_ws s2))
              else Invalid
          | [] => Invalid
          end
      | Invalid => Invalid
      | OutOfFuel => OutOfFuel
      end
  end

with scan_object_pairs (fuel : nat) (s : pystr) {struct fuel}
  : scan (list (pystr * json)) :=
  match fuel with
  | O => OutOfFuel
  | S fuel' =>
      match s with
      | q :: s1 =>
          if q =? QUOTE then
            match scanstring s1 with
            | Scanned key s2 =>
                match skip_ws s2 with
                | c :: s3 =>
                    if c =? COLON then
                      match scan_once fuel' (skip_ws s3) with
                      | Scanned value s4 =>
                          match skip_ws s4 with
                          | c' :: s5 =>
                              if c' =? RBRACE then Scanned [(key, value)] s5
                              else if c' =? COMMA
                              then scan_map (cons (key, value))
                                     (scan_object_pairs fuel' (skip_ws s5))
                              else Invalid
                          | [] => Invalid
                          end
                      | Invalid => Invalid
                      | OutOfFuel => OutOfFuel
                      end
                    else Invalid
                | [] => Invalid
                end
            | Invalid => Invalid
            | OutOfFuel => OutOfFuel
            end
          else Invalid
      | [] => Invalid
      end
  end.

(** [json.loads(s)]: leading whitespace, one value, trailing whitespace and
    nothing more; [None] stands for [JSONDecodeError].  A nesting level costs
    two units of fuel and at least one character. *)
Definition loads (s : pystr) : option json :=
  match scan_once (S (2 * List.length s)) (skip_ws s) with
  | Scanned obj rest =>
      match skip_ws rest with
      | [] => Some obj
      | _ :: _ => None
      end
  | Invalid | OutOfFuel => None
  end.

(** A call of [json.loads] as the bridge sees it: the value, a
    [JSONDecodeError], or another exception when a limit of the interpreter
    is met before the scan ends. *)
Inductive loads_result : Type :=
| LoadsReturned (obj : json)
| LoadsDecodeError (str_e : pystr)
| LoadsRaised (str_e : pystr).

Definition json_loads (where_ : caller) (s : pystr) : loads_result :=
  match loads_raises where_ s with
  | Some e => LoadsRaised e
  | None =>
      match loads s with
      | Some obj => LoadsReturned obj
      | None => LoadsDecodeError (decode_error_text s)
      end
  end.

(** [json.dumps(obj, separators=(item_separator, key_separator))].  The
    bridge calls it on the small objects it builds and on values that
    [json.loads] returned at the same depth of calls, where the limits that
    stop [json.loads] are not met again. *)
Fixpoint dumps_with (item_separator key_separator : pystr) (obj : json) : pystr :=
  match obj with
  | JNull => NULL
  | JBool true => TRUE
  | JBool false => FALSE
  | JInt z => int_repr z
  | JFloat f => floatstr f
  | JStr s => encode_basestring_ascii s
  | JArr items =>
      LBRACKET
        :: join item_separator (List.map (dumps_with item_separator key_separator) items)
        ++ [RBRACKET]
  | JObj d =>
      LBRACE
        :: join item_separator
             (List.map (fun kv => encode_basestring_ascii (fst kv) ++ key_separator
                                  ++ dumps_with item_separator key_separator (snd kv)) d)
        ++ [RBRACE]
  end.

(** A value as [json.loads] builds it from a decoded text: strings that
    are [str_ok], and dicts that hold a key once. *)
Unset Elimination Schemes.
Inductive json_wf : json -> Prop :=
| wf_null : json_wf JNull
| wf_bool b : json_wf (JBool b)
| wf_int z : json_wf (JInt z)
| wf_float f : json_wf (JFloat f)
| wf_str s : str_ok s = true -> json_wf (JStr s)
| wf_arr items : Forall json_wf items -> json_wf (JArr items)
| wf_obj d :
    NoDup (List.map fst d) ->
    Forall (fun kv => str_ok (fst kv) = true /\ json_wf (snd kv)) d ->
    json_wf (JObj d).
Set Elimination Schemes.

(** Scanning the text printed for [obj], followed by [rest], gives [obj]
    and leaves [rest]. *)
Definition reads_back (item_separator key_separator : pystr) (obj : json) : Prop :=
  forall rest fuel,
    value_end rest ->
    (2 * List.length (dumps_with item_separator key_separator obj) < fuel)%nat ->
    scan_once fuel (dumps_with item_separator key_separator obj ++ rest)
    = Scanned obj rest.

(** [json.dumps(obj)] *)
Definition dumps (obj : json) : pystr := dumps_with [COMMA; SPACE] [COLON; SPACE] obj.

(** [json.dumps(obj, separators=(',', ':'))] *)
Definition dumps_compact (obj : json) : pystr := dumps_with [COMMA] [COLON] obj.

(* ================================================================= *)
(** ** SSE stream consumer *)

Definition STATUS : pystr := Eval cbv in py "status".
Definition ACCEPTED : pystr := Eval cbv in py "accepted".
Definition SSE_URL : pystr := Eval cbv in py "sseUrl".
Definition PROGRESS : pystr := Eval cbv in py "progress".
Definition NOTIFICATION : pystr := Eval cbv in py "notification".
Definition RESPONSE : pystr := Eval cbv in py "response".
Definition RESULT : pystr := Eval cbv in py "result".
Definition ID : pystr := Eval cbv in py "id".

(** [bool(x)] of a decoded value. *)
Definition py_bool (x : json) : bool :=
  match x with
  | JNull => false
  | JBool b => b
  | JInt z => negb (z =? 0)%Z
  | JFloat f => float_bool f
  | JStr s => match s with [] => false | _ :: _ => true end
  | JArr items => match items with [] => false | _ :: _ => true end
  | JObj d => match d with [] => false | _ :: _ => true end
  end.

(** [bool(s)] of a string, and of a string or [None]. *)
Definition str_bool (s : pystr) : bool :=
  match s with [] => false | _ :: _ => true end.

Definition opt_bool (s : option pystr) : bool :=
  match s with Some t => str_bool t | None => false end.

(** [type(x).__name__] *)
Definition type_name (x : json) : pystr :=
  match x with
  | JNull => py "NoneType"
  | JBool _ => py "bool"
  | JInt _ => py "int"
  | JFloat _ => py "float"
  | JStr _ => py "str"
  | JArr _ => py "list"
  | JObj _ => py "dict"
  end.

(** [x.get(key)]: only a [dict] has the method; the result [None] is
    [JNull]. *)
Definition py_get (x : json) (key : pystr) : py_result json :=
  match x with
  | JObj d =>
      match dict_get key d with
      | Some v => Returned v
      | None => Returned JNull
      end
  | _ => Raised (py "'" ++ type_name x ++ py "' object has no attribute 'get'")
  end.

Definition is_none (x : json) : bool :=
  match x with JNull => true | _ => false end.

(** [x != text] for a decoded value and a string. *)
Definition differs_from_str (x : json) (text : pystr) : bool :=
  match x with
  | JStr s => negb (str_eqb s text)
  | _ => true
  end.

(** The [while '\n\n' in buffer] loop: what it printed, [final_response] and
    [buffer] when it ends.  A turn shortens [buffer], so [fuel] above its
    length is never used up. *)
Fixpoint sse_events (fuel : nat) (buffer : pystr) (final_response : option pystr)
  : list pystr * option pystr * pystr :=
  match fuel with
  | O => ([], final_response, buffer)
  | S fuel' =>
      match split_blank_line buffer with
      | None => ([], final_response, buffer)
      | Some (event_str, buffer') =>
          let (event_type, event_data) := parse_sse_event event_str in
          if str_eqb event_type PROGRESS || str_eqb event_type NOTIFICATION then
            let '(printed, final', buffer'') := sse_events fuel' buffer' final_response in
            ((if str_bool event_data then [event_data] else []) ++ printed,
             final', buffer'')
          else if str_eqb event_type RESPONSE || str_eqb event_type RESULT then
            ([], Some event_data, buffer')
          else sse_events fuel' buffer' final_response
      end
  end.

(** The [for chunk in iter(..., '')] loop: what it printed, and
    [final_response] when it ends or the exception of a read. *)
Fixpoint sse_chunks (reads : list read_result) (buffer : pystr)
    (final_response : option pystr) : list pystr * py_result (option pystr) :=
  match reads with
  | [] => ([], Returned final_response)
  | ReadRaises e :: _ => ([], Raised e)
  | ReadText chunk :: reads' =>
      if str_bool chunk then
        let buffer1 := buffer ++ chunk in
        let '(printed, final', buffer2) :=
          sse_events (S (List.length buffer1)) buffer1 final_response in
        if opt_bool final' then (printed, Returned final')
        else
          let (printed', r) := sse_chunks reads' buffer2 final' in
          (printed ++ printed', r)
      else ([], Returned final_response)
  end.

(** The body of the [try] of [handle_sse_response]. *)
Definition handle_sse_try (up : upstream) (host response_body : pystr)
    (session_id : option pystr)
  : list pystr * py_result (pystr * option pystr) :=
  match json_loads in_handle_sse_response response_body with
  | LoadsDecodeError e | LoadsRaised e => ([], Raised e)
  | LoadsReturned sse_info =>
      match py_get sse_info STATUS with
      | Raised e => ([], Raised e)
      | Returned status =>
          if differs_from_str status ACCEPTED
          then ([], Returned (response_body, session_id))
          else
            match py_get sse_info SSE_URL with
            | Raised e => ([], Raised e)
            | Returned sse_url =>
                if negb (py_bool sse_url)
                then ([], Returned (response_body, session_id))
                else
                  match sse_url with
                  | JStr url =>
                      match get_sse up url with
                      | SseOpenRaises e => ([], Raised e)
                      | SseStream reads =>
                          match sse_chunks reads [] None with
                          | (printed, Raised e) => (printed, Raised e)
                          | (printed, Returned final_response) =>
                              match final_response with
                              | Some data =>
                                  if str_bool data
                                  then (printed, Returned (data, session_id))
                                  else (printed, Returned (response_body, session_id))
                              | None => (printed, Returned (response_body, session_id))
                              end
                          end
                      end
                  | _ =>
                      (* [Request(sse_url)] raises on a value that is not a
                         string; the text is only logged. *)
                      ([], Raised (type_name sse_url))
                  end
            end
      end
  end.

(** [handle_sse_response(host, response_body, session_id)]: what it printed
    and the pair it returns; [except Exception] gives back the original
    body. *)
Definition handle_sse_response (up : upstream) (host response_body : pystr)
    (session_id : option pystr) : list pystr * (pystr * option pystr) :=
  match handle_sse_try up host response_body session_id with
  | (printed, Returned r) => (printed, r)
  | (printed, Raised _) => (printed, (response_body, session_id))
  end.

(* ================================================================= *)
(** ** Request forwarder *)

(** The error object of [forward_request] and of [write_error]. *)
Definition error_object (request_id : json) (code : Z) (message : pystr) : json :=
  JObj [(py "jsonrpc", JStr (py "2.0"));
        (ID, request_id);
        (py "error", JObj [(py "code", JInt code); (py "message", JStr message)])].

(** The [Mcp-Session-Id] header of the request: set [if session_id]. *)
Definition session_header (session_id : option pystr) : option pystr :=
  if opt_bool session_id then session_id else None.

(** [forward_request(host, port, request_data, session_id)]: the POST made,
    if any, what was printed meanwhile, and the pair returned or the
    exception let out.  [request_data.encode('utf-8')] is evaluated under
    the [try], before the POST: when it raises, nothing is sent. *)
Definition forward_request (up : upstream) (host : pystr) (port : Z)
    (request_data : pystr) (session_id : option pystr)
  : option request * list pystr * py_result (pystr * option pystr) :=
  if negb (encodable request_data) then
    (None, [],
     Returned (dumps (error_object JNull (-32603) (encode_error_text request_data)),
               session_id))
  else
  let req := {| req_host := host; req_port := port; req_data := request_data;
                req_session_header := session_header session_id |} in
  match post up req with
  | Response status header body =>
      match body with
      | ReadText response_body =>
          let new_session_id :=
            match header with Some value => Some value | None => session_id end in
          if (status =? 202)%Z then
            let (printed, r) := handle_sse_response up host response_body new_session_id in
            (Some req, printed, Returned r)
          else (Some req, [], Returned (response_body, new_session_id))
      | ReadRaises e =>
          (Some req, [], Returned (dumps (error_object JNull (-32603) e), session_id))
      end
  | HTTPError code fp str_e =>
      match fp with
      | Some (ReadText error_body) => (Some req, [], Returned (error_body, session_id))
      | Some (ReadRaises e) => (Some req, [], Raised e)
      | None => (Some req, [], Returned (str_e, session_id))
      end
  | URLError reason =>
      (Some req, [],
       Returned (dumps (error_object JNull (-32603) (py "Connection failed: " ++ reason)),
                 session_id))
  | OtherException e =>
      (Some req, [], Returned (dumps (error_object JNull (-32603) e), session_id))
  end.

(* ================================================================= *)
(** ** Protocol framer and main loop *)

(** [write_response(response)]: the line printed, or the exception let out;
    only a [JSONDecodeError] is caught. *)
Definition write_response (response : pystr) : py_result pystr :=
  match json_loads in_write_response response with
  | LoadsReturned obj => Returned (dumps_compact obj)
  | LoadsDecodeError _ =>
      Returned (replace_char CR [] (replace_char LF [SPACE] response))
  | LoadsRaised e => Raised e
  end.

(** [write_error(request_id, code, message)]: the line printed. *)
Definition write_error (request_id : json) (code : Z) (message : pystr) : pystr :=
  dumps_compact (error_object request_id code message).

(** The [try] that gives the response the id of the request; its bare
    [except] keeps the response as it was. *)
Definition backfill_id (request_id : json) (response : pystr) : pystr :=
  match json_loads in_main response with
  | LoadsDecodeError _ | LoadsRaised _ => response
  | LoadsReturned resp_obj =>
      if is_none request_id then response
      else
        match py_get resp_obj ID with
        | Raised _ => response
        | Returned resp_id =>
            if is_none resp_id then
              match resp_obj with
              | JObj d => dumps (JObj (dict_set ID request_id d))
              | _ => response
              end
            else response
        end
  end.

(** One turn of [for line in sys.stdin]. *)
Record turn : Type := {
  turn_sent : option request;      (** the POST made, if any *)
  turn_pushed : list pystr;        (** lines printed by the stream consumer *)
  turn_emitted : list pystr;       (** lines printed by the loop itself *)
  turn_session : option pystr      (** [session_id] after the turn *)
}.

(** What the loop prints for a response: the line of [write_response], or
    the error of [except Exception] when [write_response] raises. *)
Definition answer (response : pystr) : pystr :=
  match write_response response with
  | Returned line => line
  | Raised e => write_error JNull (-32603) e
  end.

Definition process_line (up : upstream) (host : pystr) (port : Z)
    (session_id : option pystr) (raw_line : pystr) : turn :=
  let line := strip raw_line in
  if negb (str_bool line) then
    {| turn_sent := None; turn_pushed := []; turn_emitted := [];
       turn_session := session_id |}
  else
    match json_loads in_main line with
    | LoadsDecodeError e =>
        {| turn_sent := None; turn_pushed := [];
           turn_emitted := [write_error JNull (-32700) (py "Parse error: " ++ e)];
           turn_session := session_id |}
    | LoadsRaised e =>
        {| turn_sent := None; turn_pushed := [];
           turn_emitted := [write_error JNull (-32603) e];
           turn_session := session_id |}
    | LoadsReturned request =>
        match py_get request ID with
        | Raised e =>
            {| turn_sent := None; turn_pushed := [];
               turn_emitted := [write_error JNull (-32603) e];
               turn_session := session_id |}
        | Returned request_id =>
            match forward_request up host port line session_id with
            | (req, printed, Raised e) =>
                {| turn_sent := req; turn_pushed := printed;
                   turn_emitted := [write_error JNull (-32603) e];
                   turn_session := session_id |}
            | (req, printed, Returned (response, new_session_id)) =>
                {| turn_sent := req; turn_pushed := printed;
                   turn_emitted :=
                     if str_bool response
                     then [answer (backfill_id request_id response)]
                     else [];
                   turn_session := new_session_id |}
            end
        end
    end.

(** The state of the loop: the session id, the requests sent so far (the
    latest first) and everything printed on stdout. *)
Record bridge : Type := {
  session : option pystr;
  sent : list request;
  stdout : list pystr
}.

Definition step (world : list request -> upstream) (host : pystr) (port : Z)
    (st : bridge) (raw_line : pystr) : bridge :=
  let t := process_line (world (sent st)) host port (session st) raw_line in
  {| session := turn_session t;
     sent := match turn_sent t with Some req => req :: sent st | None => sent st end;
     stdout := stdout st ++ turn_pushed t ++ turn_emitted t |}.

(** The loop over the lines of stdin, from end to end. *)
Definition serve (world : list request -> upstream) (host : pystr) (port : Z)
    (st : bridge) (lines : list pystr) : bridge :=
  fold_left (step world host port) lines st.

(** The loop starts with no session and nothing sent or printed. *)
Definition initial : bridge := {| session := None; sent := []; stdout := [] |}.

(** The session token a reply supplies to [forward_request]: the
    [Mcp-Session-Id] header of a response whose body could be read. *)
Definition supplied_token (reply : post_reply) : option pystr :=
  match reply with
  | Response _ (Some value) (ReadText _) => Some value
  | _ => None
  end.

(** The token last supplied by the replies to the requests [history] (the
    latest first), each request being answered by the world as it was when
    the request was sent. *)
Fixpoint session_after (world : list request -> upstream) (history : list request)
  : option pystr :=
  match history with
  | [] => None
  | req :: earlier =>
      match supplied_token (post (world earlier) req) with
      | Some value => Some value
      | None => session_after world earlier
      end
  end.

(** The loop keeps [session_id] equal to the token last supplied, and every
    request was sent with the header made from the session id of its
    time. *)
Definition tracks_session (world : list request -> upstream) (st : bridge) : Prop :=
  session st = session_after world (sent st)
  /\ forall later req earlier,
       sent st = later ++ req :: earlier ->
       req_session_header req = session_header (session_after world earlier).

(** [main()]: the exit status and stdout, for the lines that stdin gives and
    the way it ends.  Discovery failing ends the process with status 1
    before any line is read; so does an exception of the iterator, after
    the lines it gave.  An interrupt is modelled where the loop waits for a
    line. *)
Definition main (check_ue5_health : list probe -> probe -> bool)
    (world : list request -> upstream) (host : pystr) (port : Z)
    (lines : list pystr) (ending : stdin_end) : Z * list pystr :=
  match fst (find_ue5_server check_ue5_health host port) with
  | None => (1%Z, [])
  | Some (h, p) =>
      (match ending with StdinRaises _ => 1%Z | EndOfInput | Interrupted => 0%Z end,
       stdout (serve world h p initial lines))
  end.

(** ** The stream as text and as events *)

(** The text the stream consumer gets to see: the chunks read up to the end
    of the stream, an empty chunk or a failed read. *)
Fixpoint stream_text (reads : list read_result) : pystr :=
  match reads with
  | ReadText (c :: chunk) :: reads' => (c :: chunk) ++ stream_text reads'
  | _ => []
  end.

(** [event_str] stands in [text] right before a blank line. *)
Definition block_in (text event_str : pystr) : Prop :=
  exists before after, text = before ++ event_str ++ LF :: LF :: after.

(** The complete event blocks of a buffer, in the order the [while] loop
    splits them off; what follows the last blank line is not a block yet.
    A block shortens the buffer, so [fuel] above its length is never used
    up. *)
Fixpoint blocks_upto (fuel : nat) (buffer : pystr) : list pystr :=
  match fuel with
  | O => []
  | S fuel' =>
      match split_blank_line buffer with
      | None => []
      | Some (event_str, buffer') => event_str :: blocks_upto fuel' buffer'
      end
  end.

Definition event_blocks (buffer : pystr) : list pystr :=
  blocks_upto (S (List.length buffer)) buffer.

(** The two kinds of event the consumer acts on. *)
Definition is_push (event : pystr * pystr) : bool :=
  str_eqb (fst event) PROGRESS || str_eqb (fst event) NOTIFICATION.

Definition is_terminal (event : pystr * pystr) : bool :=
  str_eqb (fst event) RESPONSE || str_eqb (fst event) RESULT.

(** The events that come before the first terminal one. *)
Fixpoint before_terminal (events : list (pystr * pystr)) : list (pystr * pystr) :=
  match events with
  | [] => []
  | event :: events' =>
      if is_terminal event then [] else event :: before_terminal events'
  end.

(** A text without whitespace at either end, as [strip] leaves it. *)
Definition trimmed (s : pystr) : Prop :=
  match s with c :: _ => isspace c = false | [] => True end
  /\ match rev s with c :: _ => isspace c = false | [] => True end.

(** One field of an event in the words of the design: [value] is [default]
    when no line begins with [prefix]; otherwise it is what follows the
    prefix on the last line that begins with it, without the whitespace at
    its two ends. *)
Definition last_field (prefix default : pystr) (lines : list pystr) (value : pystr)
  : Prop :=
  (Forall (fun line => ~ exists rest, line = prefix ++ rest) lines /\ value = default)
  \/ exists before rest after left right,
       lines = before ++ (prefix ++ rest) :: after
       /\ Forall (fun line => ~ exists rest', line = prefix ++ rest') after
       /\ rest = left ++ value ++ right
       /\ Forall (fun c => isspace c = true) left
       /\ Forall (fun c => isspace c = true) right
       /\ trimmed value.

(** ** What the loop forwards *)

(** The lines for which the loop makes a POST: not blank, read by
    [json.loads] as a [dict], and without a surrogate. *)
Definition forwardable (raw_line : pystr) : bool :=
  str_bool (strip raw_line)
  && match json_loads in_main (strip raw_line) with
     | LoadsReturned (JObj _) => true
     | _ => false
     end
  && encodable (strip raw_line).

(** The message of the error object [forward_request] builds in its last two
    handlers, for the replies that end there: a [URLError], another
    exception, and a response whose body could not be read. *)
Definition transport_failure (reply : post_reply) : option pystr :=
  match reply with
  | URLError reason => Some (py "Connection failed: " ++ reason)
  | OtherException e => Some e
  | Response _ _ (ReadRaises e) => Some e
  | _ => None
  end.

(* ================================================================= *)
(** * Properties *)

(** A lemma depends on the parameters its statement names, and on the
    assumptions about [float] only where its proof says so. *)
Set Default Proof Using "Type".

(** ** Strings *)

Lemma str_eqb_eq (a b : pystr) : str_eqb a b = true <-> a = b.
Proof.
  revert b; induction a as [|x a IH]; intros [|y b]; simpl; split;
    try congruence; try reflexivity.
  - intros H. apply andb_true_iff in H as [Hx Hab].
    apply N.eqb_eq in Hx. apply IH in Hab. congruence.
  - intros H. injection H as -> ->.
    rewrite N.eqb_refl. simpl. now apply IH.
Qed.

Lemma str_eqb_refl (a : pystr) : str_eqb a a = true.
Proof. now apply str_eqb_eq. Qed.

Lemma last_cons_default {A} (l : list A) (x d : A) :
  last (x :: l) d = last l x.
Proof.
  revert x d; induction l as [|y l IH]; intros x d; [reflexivity|].
  change (last (x :: y :: l) d) with (last (y :: l) d).
  now rewrite !IH.
Qed.

(** ** SSE event parser *)

Lemma event_line_is_not_data (line : pystr) :
  startswith EVENT_PREFIX line = true -> startswith DATA_PREFIX line = false.
Proof.
  destruct line as [|c line]; [discriminate|].
  unfold EVENT_PREFIX, DATA_PREFIX.
  cbn [startswith]. destruct (N.eqb_spec 101 c) as [<-|]; [reflexivity|].
  discriminate.
Qed.

Lemma parse_sse_lines_last (lines : list pystr) (event_type data : pystr) :
  fold_left parse_sse_line lines (event_type, data)
  = (last (List.map event_field (filter (startswith EVENT_PREFIX) lines)) event_type,
     last (List.map data_field (filter (startswith DATA_PREFIX) lines)) data).
Proof.
  revert event_type data.
  induction lines as [|line lines IH]; intros event_type data; [reflexivity|].
  cbn [fold_left filter]. unfold parse_sse_line at 2.
  destruct (startswith EVENT_PREFIX line) eqn:He.
  - rewrite (event_line_is_not_data _ He). rewrite IH.
    cbn [List.map]. now rewrite last_cons_default.
  - destruct (startswith DATA_PREFIX line) eqn:Hd; rewrite IH.
    + cbn [List.map]. now rewrite last_cons_default.
    + reflexivity.
Qed.

Lemma split_char_not_nil (sep : N) (s : pystr) : split_char sep s <> [].
Proof.
  destruct s as [|c s]; [discriminate|]. cbn [split_char].
  destruct (c =? sep); [discriminate|]. now destruct (split_char sep s).
Qed.

Lemma join_split_char (sep : N) (s : pystr) : join [sep] (split_char sep s) = s.
Proof.
  induction s as [|c s IH]; [reflexivity|]. cbn [split_char].
  pose proof (split_char_not_nil sep s) as Hne.
  destruct (split_char sep s) as [|piece pieces]; [congruence|].
  destruct (N.eqb_spec c sep) as [->|Hc].
  - change (join [sep] ([] :: piece :: pieces)) with (sep :: join [sep] (piece :: pieces)).
    now rewrite IH.
  - rewrite <- IH. now destruct pieces.
Qed.

Lemma split_char_pieces (sep : N) (s : pystr) :
  Forall (Forall (fun c => c <> sep)) (split_char sep s).
Proof.
  induction s as [|c s IH]; cbn [split_char]; [repeat constructor|].
  destruct (N.eqb_spec c sep) as [->|Hc]; [now constructor|].
  destruct (split_char sep s) as [|piece pieces]; [now repeat constructor|].
  inversion IH; subst. constructor; [now constructor | assumption].
Qed.

Lemma Forall_lstrip (P : N -> Prop) (s : pystr) : Forall P s -> Forall P (lstrip s).
Proof.
  induction 1 as [|c s Hc Hs IH]; [constructor|]. cbn [lstrip].
  destruct (isspace c); [exact IH | now constructor].
Qed.

Lemma Forall_strip (P : N -> Prop) (s : pystr) : Forall P s -> Forall P (strip s).
Proof.
  intros H. unfold strip, rstrip.
  apply Forall_rev, Forall_lstrip, Forall_rev, Forall_lstrip, H.
Qed.

Lemma Forall_skipn_kept {A} (P : A -> Prop) (n : nat) (l : list A) :
  Forall P l -> Forall P (skipn n l).
Proof.
  revert l; induction n as [|n IH]; intros l H; [exact H|].
  destruct H; [constructor | now apply IH].
Qed.

Lemma startswith_app (prefix rest : pystr) : startswith prefix (prefix ++ rest) = true.
Proof.
  induction prefix as [|p prefix IH]; [reflexivity|].
  cbn [app startswith]. now rewrite N.eqb_refl.
Qed.

Lemma startswith_skipn (prefix s : pystr) :
  startswith prefix s = true -> s = prefix ++ skipn (List.length prefix) s.
Proof.
  revert s; induction prefix as [|p prefix IH]; intros s H; [reflexivity|].
  destruct s as [|c s]; [discriminate|]. cbn [startswith] in H.
  apply andb_true_iff in H as [Hc Hs]. apply N.eqb_eq in Hc. subst c.
  cbn [List.length skipn app]. f_equal. now apply IH.
Qed.

Lemma startswith_false (prefix s : pystr) :
  startswith prefix s = false -> ~ exists rest, s = prefix ++ rest.
Proof. intros H [rest ->]. now rewrite startswith_app in H. Qed.

Lemma lstrip_split (s : pystr) :
  exists left, s = left ++ lstrip s /\ Forall (fun c => isspace c = true) left.
Proof.
  induction s as [|c s (left & Hs & Hleft)]; [now exists []|]. cbn [lstrip].
  destruct (isspace c) eqn:Hc; [|now exists []].
  exists (c :: left). split; [cbn [app]; now f_equal | now constructor].
Qed.

(** [strip] takes whitespace away at the two ends, and nothing else. *)
Lemma strip_split (s : pystr) :
  exists left right,
    s = left ++ strip s ++ right
    /\ Forall (fun c => isspace c = true) left
    /\ Forall (fun c => isspace c = true) right.
Proof.
  destruct (lstrip_split s) as (left & Hs & Hleft).
  destruct (lstrip_split (rev (lstrip s))) as (right & Hr & Hright).
  exists left, (rev right). repeat split; [|assumption | now apply Forall_rev].
  unfold strip, rstrip. rewrite Hs at 1. f_equal.
  rewrite <- (rev_involutive (lstrip s)), Hr at 1. now rewrite rev_app_distr.
Qed.

Lemma lstrip_head (s : pystr) :
  match lstrip s with c :: _ => isspace c = false | [] => True end.
Proof.
  induction s as [|c s IH]; [exact I|]. cbn [lstrip].
  destruct (isspace c) eqn:Hc; [exact IH | exact Hc].
Qed.

Lemma lstrip_snoc (s : pystr) (c : N) :
  isspace c = false -> lstrip (s ++ [c]) = lstrip s ++ [c].
Proof.
  intros Hc. induction s as [|x s IH]; cbn [app lstrip]; [now rewrite Hc|].
  destruct (isspace x); [exact IH | reflexivity].
Qed.

Lemma strip_trimmed (s : pystr) : trimmed (strip s).
Proof.
  unfold trimmed, strip, rstrip. rewrite rev_involutive. split; [|apply lstrip_head].
  pose proof (lstrip_head s) as Hhead.
  destruct (lstrip s) as [|c t]; [exact I|].
  cbn [rev]. rewrite (lstrip_snoc _ _ Hhead), rev_app_distr. exact Hhead.
Qed.

Lemma last_field_of_lines (prefix default : pystr) (lines : list pystr) :
  last_field prefix default lines
    (last (List.map (fun line => strip (skipn (List.length prefix) line))
             (filter (startswith prefix) lines)) default).
Proof.
  induction lines as [|line lines IH] using rev_ind.
  - left. split; [constructor | reflexivity].
  - rewrite filter_app, map_app. cbn [filter].
    destruct (startswith prefix line) eqn:Hline; cbn [List.map].
    + rewrite last_last. right.
      destruct (strip_split (skipn (List.length prefix) line)) as (left & right & Hs & Hl & Hr).
      exists lines, (skipn (List.length prefix) line), [], left, right.
      repeat split; try assumption; try apply strip_trimmed;
        [now rewrite <- (startswith_skipn _ _ Hline) | constructor].
    + rewrite app_nil_r. apply startswith_false in Hline.
      destruct IH as [[Hnone Hvalue]|(before & rest & after & left & right & H)].
      * left. split; [|assumption]. apply Forall_app. split; [assumption|].
        now constructor.
      * right. destruct H as (Hlines & Hafter & Hrest).
        exists before, rest, (after ++ [line]), left, right.
        split; [rewrite Hlines, <- app_assoc; reflexivity|].
        split; [|exact Hrest]. apply Forall_app. split; [assumption|]. now constructor.
Qed.

(** C6.  [parse_sse_event] is a function of the block alone, defined on
    every block.  Its lines are the pieces of the block between the line
    feeds.  The type it returns is [message] when no line begins with
    [event:], and otherwise what follows [event:] on the last line that
    begins with it, trimmed of the whitespace at its two ends; the data is
    the empty string when no line begins with [data:], and otherwise the
    trimmed remainder of the last line that does.  So a prefix that recurs
    overwrites, and every other line leaves the result as it is. *)
Theorem parse_sse_event_last_wins (event_str : pystr) :
  exists lines,
    lines <> [] /\ Forall single_line lines /\ join [LF] lines = event_str
    /\ last_field (py "event:") (py "message") lines (fst (parse_sse_event event_str))
    /\ last_field (py "data:") [] lines (snd (parse_sse_event event_str)).
Proof.
  exists (split_char LF event_str).
  split; [apply split_char_not_nil|].
  split; [apply split_char_pieces|].
  split; [apply join_split_char|].
  unfold parse_sse_event. rewrite parse_sse_lines_last. cbn [fst snd]. split.
  - exact (last_field_of_lines (py "event:") (py "message") (split_char LF event_str)).
  - exact (last_field_of_lines (py "data:") [] (split_char LF event_str)).
Qed.

(** ** Discovery *)

Lemma probe_configured_extends (check : list probe -> probe -> bool)
    (hosts : list pystr) (port : Z) (log : list probe) :
  exists more, snd (probe_configured check log hosts port) = log ++ more.
Proof.
  revert log; induction hosts as [|h hosts IH]; intros log; cbn [probe_configured].
  - exists []. now rewrite app_nil_r.
  - destruct (check log (h, port)); [now exists [(h, port)]|].
    destruct (IH (log ++ [(h, port)])) as [more ->].
    exists ((h, port) :: more). now rewrite <- app_assoc.
Qed.

Lemma probe_ports_extends (check : list probe -> probe -> bool)
    (host : pystr) (port : Z) (h : pystr) (ports : list Z) (log : list probe) :
  exists more, snd (probe_ports check log host port h ports) = log ++ more.
Proof.
  revert log; induction ports as [|p ports IH]; intros log; cbn [probe_ports].
  - exists []. now rewrite app_nil_r.
  - destruct ((p =? port)%Z && str_eqb h host); [apply IH|].
    destruct (check log (h, p)); [now exists [(h, p)]|].
    destruct (IH (log ++ [(h, p)])) as [more ->].
    exists ((h, p) :: more). now rewrite <- app_assoc.
Qed.

Lemma probe_range_extends (check : list probe -> probe -> bool)
    (host : pystr) (port : Z) (hosts : list pystr) (log : list probe) :
  exists more, snd (probe_range check log host port hosts) = log ++ more.
Proof.
  revert log; induction hosts as [|h hosts IH]; intros log; cbn [probe_range].
  - exists []. now rewrite app_nil_r.
  - destruct (probe_ports_extends check host port h (py_range 27000 27011) log)
      as [more Hmore].
    destruct (probe_ports check log host port h (py_range 27000 27011))
      as [[found|] log']; cbn [snd] in *; subst log'; [now exists more|].
    destruct (IH (log ++ more)) as [more' ->].
    exists (more ++ more'). now rewrite app_assoc.
Qed.

(** The configured pair is probed first, at the loopback address when the
    configured host is [localhost], and it is the answer when it responds. *)
Lemma find_ue5_server_configured_first (check : list probe -> probe -> bool)
    (host : pystr) (port : Z) :
  let first := (if str_eqb host LOCALHOST then LOOPBACK else host, port) in
  (exists more, snd (find_ue5_server check host port) = first :: more)
  /\ (check [] first = true -> find_ue5_server check host port = (Some first, [first])).
Proof.
  cbv zeta. unfold find_ue5_server.
  destruct (str_eqb host LOCALHOST); cbn [probe_configured app].
  - destruct (check [] (LOOPBACK, port)) eqn:E1.
    + split; [now exists [] | reflexivity].
    + split; [|discriminate].
      destruct (check [(LOOPBACK, port)] (LOCALHOST, port)); [now eexists|].
      destruct (probe_range_extends check host port [LOOPBACK; LOCALHOST]
                  [(LOOPBACK, port); (LOCALHOST, port)]) as [more Hmore].
      destruct (probe_range check _ host port _) as [found log'].
      cbn [snd] in *. subst log'. now eexists.
  - destruct (check [] (host, port)) eqn:E1.
    + split; [now exists [] | reflexivity].
    + split; [|discriminate].
      destruct (probe_range_extends check host port [host] [(host, port)]) as [more Hmore].
      destruct (probe_range check _ host port _) as [found log'].
      cbn [snd] in *. subst log'. now eexists.
Qed.

(** ** SSE stream consumer *)

Lemma split_blank_line_shorter (buffer event_str buffer' : pystr) :
  split_blank_line buffer = Some (event_str, buffer') ->
  (List.length buffer' < List.length buffer)%nat.
Proof.
  revert event_str; induction buffer as [|c rest IH]; intros event_str; [discriminate|].
  cbn [split_blank_line]. destruct (startswith [LF; LF] (c :: rest)) eqn:Hs.
  - intros [= <- <-]. destruct rest as [|d rest]; simpl; lia.
  - destruct (split_blank_line rest) as [[before after]|] eqn:Hr; [|discriminate].
    intros [= <- <-]. specialize (IH _ eq_refl). simpl. lia.
Qed.

(** The event loop ends by itself: any budget above the length of the buffer
    gives the same result. *)
Lemma sse_events_enough_fuel (fuel fuel' : nat) (buffer : pystr)
    (final_response : option pystr) :
  (List.length buffer < fuel)%nat -> (List.length buffer < fuel')%nat ->
  sse_events fuel buffer final_response = sse_events fuel' buffer final_response.
Proof.
  revert fuel' buffer final_response.
  induction fuel as [|fuel IH]; intros fuel' buffer final_response Hf Hf'; [lia|].
  destruct fuel' as [|fuel']; [lia|].
  cbn [sse_events].
  destruct (split_blank_line buffer) as [[event_str buffer']|] eqn:Hs; [|reflexivity].
  apply split_blank_line_shorter in Hs.
  destruct (parse_sse_event event_str) as [event_type event_data].
  rewrite (IH fuel' buffer' final_response) by lia.
  reflexivity.
Qed.

Ltac destruct_matches :=
  repeat match goal with
    | |- context [match ?x with _ => _ end] => destruct x eqn:?; cbn [fst snd]
    | |- context [if ?b then _ else _] => destruct b eqn:?; cbn [fst snd]
    end.

(** Every pair the body of [handle_sse_response] returns holds the session
    id it was given. *)
Lemma handle_sse_try_session (up : upstream) (host response_body : pystr)
    (session_id : option pystr) (printed : list pystr) (r : pystr * option pystr) :
  handle_sse_try up host response_body session_id = (printed, Returned r) ->
  snd r = session_id.
Proof.
  unfold handle_sse_try.
  destruct_matches; intros [= <- <-]; reflexivity.
Qed.

(** C10.  The session id in the pair [handle_sse_response] returns is the
    one it was given: on the paths that give the descriptor back, when a
    terminal event ends the stream, and when an exception is caught. *)
Theorem handle_sse_response_keeps_session (up : upstream) (host response_body : pystr)
    (session_id : option pystr) :
  snd (snd (handle_sse_response up host response_body session_id)) = session_id.
Proof.
  unfold handle_sse_response.
  destruct (handle_sse_try up host response_body session_id) as [printed [r|e]] eqn:Htry;
    [|reflexivity].
  cbn [snd]. exact (handle_sse_try_session _ _ _ _ _ _ Htry).
Qed.

(** X23.  A body that is not JSON, or not an object, or whose status is not
    [accepted], or that has no usable [sseUrl], comes back as it is and
    nothing is printed: no stream is opened for it. *)
Lemma handle_sse_response_not_deferred (up : upstream) (host response_body : pystr)
    (session_id : option pystr) :
  match loads response_body with
  | Some (JObj d) =>
      match dict_get STATUS d with
      | Some (JStr status) =>
          str_eqb status ACCEPTED = true ->
          match dict_get SSE_URL d with
          | Some (JStr (_ :: _)) => False
          | _ => True
          end
      | _ => True
      end
  | _ => True
  end ->
  handle_sse_response up host response_body session_id = ([], (response_body, session_id)).
Proof.
  unfold handle_sse_response, handle_sse_try, json_loads.
  destruct (loads_raises in_handle_sse_response response_body); [reflexivity|].
  destruct (loads response_body) as [[ | | | | | |d]|]; try reflexivity.
  cbn [py_get]. destruct (dict_get STATUS d) as [[ | | | |status| | ]|]; try reflexivity.
  cbn [differs_from_str]. destruct (str_eqb status ACCEPTED); [|reflexivity].
  cbn [negb]. intros H. specialize (H eq_refl).
  destruct (dict_get SSE_URL d) as [[ |b|z|f|[|c url]|items|pairs]|];
    cbn [py_bool negb]; try reflexivity; try contradiction.
  - destruct b; reflexivity.
  - destruct (negb (z =? 0)%Z); reflexivity.
  - destruct (float_bool f); reflexivity.
  - destruct items; reflexivity.
  - destruct pairs; reflexivity.
Qed.

(** ** Request forwarder *)

(** A POST is made exactly when the line can be encoded; it carries the
    session id exactly when the id is set and not empty. *)
Lemma forward_request_sends (up : upstream) (host : pystr) (port : Z)
    (request_data : pystr) (session_id : option pystr) :
  fst (fst (forward_request up host port request_data session_id))
  = if encodable request_data
    then Some {| req_host := host; req_port := port; req_data := request_data;
                 req_session_header := session_header session_id |}
    else None.
Proof.
  unfold forward_request. destruct (encodable request_data); cbn [negb]; [|reflexivity].
  destruct_matches; reflexivity.
Qed.

(** The line that cannot be encoded is not sent: the error object comes
    back with the session id passed in. *)
Lemma forward_request_not_encodable (up : upstream) (host : pystr) (port : Z)
    (request_data : pystr) (session_id : option pystr) :
  encodable request_data = false ->
  forward_request up host port request_data session_id
  = (None, [],
     Returned (dumps (error_object JNull (-32603) (encode_error_text request_data)),
               session_id)).
Proof. intros H. unfold forward_request. now rewrite H. Qed.

(** The session id returned is the token the reply supplied, or else the
    one passed in. *)
Lemma forward_request_session (up : upstream) (host : pystr) (port : Z)
    (request_data : pystr) (session_id : option pystr)
    (req : option request) (printed : list pystr) (body : pystr)
    (new_session_id : option pystr) :
  forward_request up host port request_data session_id
  = (req, printed, Returned (body, new_session_id)) ->
  new_session_id = match req with
                   | Some sent_req =>
                       match supplied_token (post up sent_req) with
                       | Some value => Some value
                       | None => session_id
                       end
                   | None => session_id
                   end.
Proof.
  unfold forward_request.
  destruct (encodable request_data); cbn [negb]; [|now intros [= <- _ _ <-]].
  set (sent_req := {| req_host := host |}).
  destruct (post up sent_req) as [status header [text|e]|code [[text|e]|] str_e|reason|e]
    eqn:Hpost.
  - destruct (status =? 202)%Z.
    + assert (Hk : snd (snd (handle_sse_response up host text
                                 (match header with
                                  | Some value => Some value
                                  | None => session_id
                                  end)))
                   = match header with Some value => Some value | None => session_id end).
      { unfold handle_sse_response.
        destruct (handle_sse_try up host text _) as [printed' [r|e]] eqn:Htry;
          [exact (handle_sse_try_session _ _ _ _ _ _ Htry) | reflexivity]. }
      destruct (handle_sse_response up host text _) as [printed' [body' sid']].
      cbn [snd] in Hk. intros [= <- _ _ <-]. rewrite Hpost. cbn [supplied_token].
      subst sid'. now destruct header.
    + intros [= <- _ _ <-]. rewrite Hpost. cbn [supplied_token]. now destruct header.
  - intros [= <- _ _ <-]. rewrite Hpost. cbn [supplied_token]. now destruct header.
  - intros [= <- _ _ <-]. now rewrite Hpost.
  - discriminate.
  - intros [= <- _ _ <-]. now rewrite Hpost.
  - intros [= <- _ _ <-]. now rewrite Hpost.
  - intros [= <- _ _ <-]. now rewrite Hpost.
Qed.

(** On a connection failure and on any exception raised under the [try],
    the body is a synthesized error object with a null id and code -32603,
    and the session id is the one passed in. *)
Lemma forward_request_transport_failure (up : upstream) (host : pystr) (port : Z)
    (request_data : pystr) (session_id : option pystr) :
  encodable request_data = true ->
  let req := {| req_host := host; req_port := port; req_data := request_data;
                req_session_header := session_header session_id |} in
  let result := snd (forward_request up host port request_data session_id) in
  match post up req with
  | URLError reason =>
      result = Returned (dumps (error_object JNull (-32603)
                                  (py "Connection failed: " ++ reason)), session_id)
  | OtherException e | Response _ _ (ReadRaises e) =>
      result = Returned (dumps (error_object JNull (-32603) e), session_id)
  | _ => True
  end.
Proof.
  intros Henc. cbv zeta. unfold forward_request. rewrite Henc. cbn [negb].
  set (req := {| req_host := host |}).
  destruct (post up req) as [status header [text|e]|code fp str_e|reason|e];
    try exact I; reflexivity.
Qed.

(** ** Main loop *)

Lemma serve_cons (world : list request -> upstream) (host : pystr) (port : Z)
    (st : bridge) (raw_line : pystr) (more : list pystr) :
  serve world host port st (raw_line :: more)
  = serve world host port (step world host port st raw_line) more.
Proof. reflexivity. Qed.

Lemma serve_app (world : list request -> upstream) (host : pystr) (port : Z)
    (st : bridge) (lines more : list pystr) :
  serve world host port st (lines ++ more)
  = serve world host port (serve world host port st lines) more.
Proof. apply fold_left_app. Qed.

(** C7, amended.  A line that is not blank and on which [json.loads] raises
    a [JSONDecodeError] is answered by one line, the error object with a
    null id and code -32700; a line on which [json.loads] raises another
    exception, as on nesting the interpreter does not follow, is answered
    by one line with a null id, code -32603 and the text of the exception.
    In both cases nothing is forwarded, the session id stays, and the loop
    goes on with the lines that follow. *)
Theorem parse_error_answered_and_loop_continues
    (world : list request -> upstream) (host : pystr) (port : Z)
    (st : bridge) (raw_line : pystr) (more : list pystr) :
  strip raw_line <> [] ->
  let answered_with line :=
    serve world host port
      {| session := session st; sent := sent st; stdout := stdout st ++ [line] |} more in
  (forall e,
      json_loads in_main (strip raw_line) = LoadsDecodeError e ->
      serve world host port st (raw_line :: more)
      = answered_with (dumps_compact (error_object JNull (-32700) (py "Parse error: " ++ e))))
  /\ (forall e,
        json_loads in_main (strip raw_line) = LoadsRaised e ->
        serve world host port st (raw_line :: more)
        = answered_with (dumps_compact (error_object JNull (-32603) e))).
Proof.
  intros Hblank answered_with. subst answered_with. cbv beta.
  split; intros e Hloads; rewrite serve_cons; f_equal; unfold step, process_line;
    (destruct (strip raw_line) as [|c line] eqn:Hs; [congruence|]);
    cbn [str_bool negb]; rewrite Hloads; reflexivity.
Qed.

(** ** Session stickiness *)

Lemma forward_request_raised (up : upstream) (host : pystr) (port : Z)
    (request_data : pystr) (session_id : option pystr)
    (req : option request) (printed : list pystr) (e : pystr) :
  forward_request up host port request_data session_id = (req, printed, Raised e) ->
  exists sent_req, req = Some sent_req /\ supplied_token (post up sent_req) = None.
Proof.
  unfold forward_request.
  destruct (encodable request_data); cbn [negb]; [|discriminate].
  set (sent_req := {| req_host := host |}).
  destruct (post up sent_req) as [status header [text|e']|code [[text|e']|] str_e|reason|e']
    eqn:Hpost; try discriminate.
  - destruct (status =? 202)%Z; [|discriminate].
    destruct (handle_sse_response up host text _) as [printed' r]. discriminate.
  - intros [= <- _ _]. exists sent_req. now rewrite Hpost.
Qed.

(** What a turn does to the session id and to the requests sent. *)
Lemma process_line_session (up : upstream) (host : pystr) (port : Z)
    (session_id : option pystr) (raw_line : pystr) :
  let t := process_line up host port session_id raw_line in
  match turn_sent t with
  | None => turn_session t = session_id
  | Some req =>
      req_session_header req = session_header session_id
      /\ turn_session t = match supplied_token (post up req) with
                          | Some value => Some value
                          | None => session_id
                          end
  end.
Proof.
  cbv zeta. unfold process_line.
  destruct (negb (str_bool (strip raw_line))); [reflexivity|].
  destruct (json_loads in_main (strip raw_line)) as [request|e|e]; try reflexivity.
  destruct (py_get request ID) as [request_id|e]; [|reflexivity].
  pose proof (forward_request_sends up host port (strip raw_line) session_id) as Hreq.
  destruct (forward_request up host port (strip raw_line) session_id)
    as [[req printed] [[response new_session_id]|e]] eqn:Hf;
    cbn [fst] in Hreq; cbn [turn_sent turn_session].
  - apply forward_request_session in Hf.
    destruct req as [sent_req|]; [|exact Hf]. split; [|exact Hf].
    destruct (encodable (strip raw_line)); [|discriminate]. now injection Hreq as ->.
  - apply forward_request_raised in Hf as (sent_req & -> & Hnone). split.
    + destruct (encodable (strip raw_line)); [|discriminate]. now injection Hreq as ->.
    + now rewrite Hnone.
Qed.

(** A turn keeps the session id or overwrites it with the header of a
    response: it never clears it. *)
Lemma step_session_kept_or_overwritten (world : list request -> upstream)
    (host : pystr) (port : Z) (st : bridge) (raw_line : pystr) :
  session (step world host port st raw_line) = session st
  \/ exists req value,
       supplied_token (post (world (sent st)) req) = Some value
       /\ session (step world host port st raw_line) = Some value.
Proof.
  unfold step. cbn [session].
  pose proof (process_line_session (world (sent st)) host port (session st) raw_line) as H.
  cbv zeta in H.
  destruct (turn_sent (process_line (world (sent st)) host port (session st) raw_line))
    as [req|]; [|now left].
  destruct H as [_ H].
  destruct (supplied_token (post (world (sent st)) req)) as [value|] eqn:Hs.
  - right. now exists req, value.
  - now left.
Qed.

Lemma step_session_stays_set (world : list request -> upstream)
    (host : pystr) (port : Z) (st : bridge) (raw_line : pystr) :
  session st <> None -> session (step world host port st raw_line) <> None.
Proof.
  intros Hset.
  destruct (step_session_kept_or_overwritten world host port st raw_line)
    as [-> | (req & value & _ & ->)]; [assumption | discriminate].
Qed.

Lemma serve_session_stays_set (world : list request -> upstream)
    (host : pystr) (port : Z) (lines : list pystr) (st : bridge) :
  session st <> None -> session (serve world host port st lines) <> None.
Proof.
  revert st; induction lines as [|raw_line lines IH]; intros st Hset; [assumption|].
  rewrite serve_cons. apply IH. now apply step_session_stays_set.
Qed.

Lemma step_tracks_session (world : list request -> upstream)
    (host : pystr) (port : Z) (st : bridge) (raw_line : pystr) :
  tracks_session world st -> tracks_session world (step world host port st raw_line).
Proof.
  intros [Hsess Hsent]. unfold step, tracks_session. cbn [session sent].
  pose proof (process_line_session (world (sent st)) host port (session st) raw_line) as H.
  cbv zeta in H.
  destruct (turn_sent (process_line (world (sent st)) host port (session st) raw_line))
    as [req|].
  - destruct H as [Hhdr Hnew]. split.
    + cbn [session_after]. rewrite Hnew, Hsess. reflexivity.
    + intros [|r later] req' earlier Heq; cbn [app] in Heq; injection Heq as -> Heq.
      * subst earlier. now rewrite Hhdr, Hsess.
      * eapply Hsent; eassumption.
  - split; [now rewrite H | assumption].
Qed.

Lemma serve_tracks_session (world : list request -> upstream)
    (host : pystr) (port : Z) (lines : list pystr) (st : bridge) :
  tracks_session world st -> tracks_session world (serve world host port st lines).
Proof.
  revert st; induction lines as [|raw_line lines IH]; intros st H; [assumption|].
  rewrite serve_cons. apply IH. now apply step_tracks_session.
Qed.

Lemma initial_tracks_session (world : list request -> upstream) :
  tracks_session world initial.
Proof.
  split; [reflexivity|]. intros [|r later] req earlier H; discriminate.
Qed.

Lemma session_after_sticky (world : list request -> upstream)
    (mid : list request) (req_i : request) (earlier : list request) (t : pystr) :
  supplied_token (post (world earlier) req_i) = Some t ->
  (forall mid1 req_k mid2 t',
      mid = mid1 ++ req_k :: mid2 ->
      supplied_token (post (world (mid2 ++ req_i :: earlier)) req_k) = Some t' ->
      t' = t) ->
  session_after world (mid ++ req_i :: earlier) = Some t.
Proof.
  intros Hi. induction mid as [|req_k mid IH]; intros Hmid; cbn [app session_after].
  - now rewrite Hi.
  - destruct (supplied_token (post (world (mid ++ req_i :: earlier)) req_k))
      as [t'|] eqn:Hk.
    + f_equal. apply (Hmid [] req_k mid t' eq_refl Hk).
    + apply IH. intros mid1 req mid2 t' -> Ht'.
      apply (Hmid (req_k :: mid1) req mid2 t' eq_refl Ht').
Qed.

Lemma session_after_stays_set (world : list request -> upstream)
    (later : list request) (history : list request) :
  session_after world history <> None ->
  session_after world (later ++ history) <> None.
Proof.
  intros H. induction later as [|req later IH]; [assumption|].
  cbn [app session_after].
  destruct (supplied_token (post (world (later ++ history)) req)); [discriminate | assumption].
Qed.

(** C4, amended.  Once a response whose body is read supplies a token that
    is not empty (request [req_i]), every request sent later ([req_j])
    carries that token in its [Mcp-Session-Id] header, as long as no
    response in between supplied a header with another value; and from then
    on the session id of the loop is never [None] again, whatever lines
    follow. *)
Theorem session_token_is_sticky
    (world : list request -> upstream) (host : pystr) (port : Z)
    (lines : list pystr)
    (later : list request) (req_j : request) (mid : list request)
    (req_i : request) (earlier : list request) (t : pystr) :
  sent (serve world host port initial lines) = later ++ req_j :: mid ++ req_i :: earlier ->
  supplied_token (post (world earlier) req_i) = Some t ->
  t <> [] ->
  (forall mid1 req_k mid2 t',
      mid = mid1 ++ req_k :: mid2 ->
      supplied_token (post (world (mid2 ++ req_i :: earlier)) req_k) = Some t' ->
      t' = t) ->
  req_session_header req_j = Some t
  /\ forall more, session (serve world host port initial (lines ++ more)) <> None.
Proof.
  intros Hsent Hi Hne Hmid.
  destruct (serve_tracks_session world host port lines initial
              (initial_tracks_session world)) as [Hsess Hhdr].
  split.
  - rewrite (Hhdr later req_j (mid ++ req_i :: earlier) Hsent).
    rewrite (session_after_sticky world mid req_i earlier t Hi Hmid).
    destruct t; [congruence | reflexivity].
  - intros more. rewrite serve_app. apply serve_session_stays_set.
    rewrite Hsess, Hsent.
    change (later ++ req_j :: mid ++ req_i :: earlier)
      with (later ++ (req_j :: mid) ++ req_i :: earlier).
    rewrite app_assoc. apply session_after_stays_set.
    cbn [session_after]. now rewrite Hi.
Qed.

(** ** Decoded values *)

(** Induction on a decoded value, with the property on the items of a list
    and on the values of a dict. *)
Lemma json_nested_ind (P : json -> Prop) :
  P JNull ->
  (forall b, P (JBool b)) ->
  (forall z, P (JInt z)) ->
  (forall f, P (JFloat f)) ->
  (forall s, P (JStr s)) ->
  (forall items, Forall P items -> P (JArr items)) ->
  (forall d, Forall (fun kv => P (snd kv)) d -> P (JObj d)) ->
  forall x, P x.
Proof.
  intros Hnull Hbool Hint Hfloat Hstr Harr Hobj.
  fix self 1. intros [ |b|z|f|s|items|d].
  - exact Hnull.
  - apply Hbool.
  - apply Hint.
  - apply Hfloat.
  - apply Hstr.
  - apply Harr. induction items as [|x items IH]; constructor; [apply self | exact IH].
  - apply Hobj. induction d as [|[k x] d IH]; constructor; [apply self | exact IH].
Qed.

(** ** One line per print *)

Lemma single_line_app (a b : pystr) :
  single_line a -> single_line b -> single_line (a ++ b).
Proof. intros Ha Hb. apply Forall_app. now split. Qed.

Lemma single_line_flat_map {A} (f : A -> pystr) (l : list A) :
  (forall x, single_line (f x)) -> single_line (flat_map f l).
Proof.
  intros Hf. induction l as [|x l IH]; [constructor|].
  cbn [flat_map]. now apply single_line_app.
Qed.

Lemma single_line_join (sep : pystr) (parts : list pystr) :
  single_line sep -> Forall single_line parts -> single_line (join sep parts).
Proof.
  intros Hsep Hparts. induction Hparts as [|p ps Hp Hps IH]; [constructor|].
  destruct ps as [|q ps]; [exact Hp|].
  change (join sep (p :: q :: ps)) with (p ++ sep ++ join sep (q :: ps)).
  auto using single_line_app.
Qed.

Lemma hex_digit_not_lf (d : N) : hex_digit d <> LF.
Proof. unfold hex_digit, LF. destruct (d <? 10); lia. Qed.

Lemma single_line_format_04x (n : N) : single_line (format_04x n).
Proof. unfold format_04x. repeat constructor; apply hex_digit_not_lf. Qed.

Lemma single_line_escape_char (c : N) : single_line (escape_char c).
Proof.
  assert (Hpair : forall a b, a <> LF -> b <> LF -> single_line [a; b])
    by (intros; now repeat constructor).
  unfold escape_char.
  destruct (c =? BACKSLASH); [apply Hpair; unfold LF; lia|].
  destruct (c =? QUOTE); [apply Hpair; unfold LF; lia|].
  destruct (c =? 8); [apply Hpair; unfold LF; lia|].
  destruct (c =? 12); [apply Hpair; unfold LF; lia|].
  destruct (c =? 10); [apply Hpair; unfold LF; lia|].
  destruct (c =? 13); [apply Hpair; unfold LF; lia|].
  destruct (c =? 9); [apply Hpair; unfold LF; lia|].
  destruct ((SPACE <=? c) && (c <=? 126)) eqn:Hprintable.
  { apply andb_true_iff in Hprintable as [Hlow _]. apply N.leb_le in Hlow.
    repeat constructor. unfold LF. lia. }
  destruct (c <? 0x10000); cbv zeta.
  - apply (single_line_app [BACKSLASH; LOWER_U]);
      [apply Hpair; unfold LF; lia | apply single_line_format_04x].
  - apply single_line_app;
      (apply (single_line_app [BACKSLASH; LOWER_U]);
       [apply Hpair; unfold LF; lia | apply single_line_format_04x]).
Qed.

Lemma single_line_encode (s : pystr) : single_line (encode_basestring_ascii s).
Proof.
  unfold encode_basestring_ascii. constructor; [unfold LF; lia|].
  apply single_line_app.
  - apply single_line_flat_map, single_line_escape_char.
  - repeat constructor. unfold LF; lia.
Qed.

Lemma single_line_uint_digits (u : Decimal.uint) : single_line (uint_digits u).
Proof. induction u; cbn [uint_digits]; constructor; auto; unfold LF; lia. Qed.

Lemma single_line_int_repr (z : Z) : single_line (int_repr z).
Proof.
  unfold int_repr. destruct (Z.to_int z).
  - apply single_line_uint_digits.
  - constructor; [unfold LF; lia | apply single_line_uint_digits].
Qed.

(** [float.__repr__] prints no line feed. *)
Hypothesis floatstr_single_line : forall f, single_line (floatstr f).

Lemma single_line_dumps_with (item_separator key_separator : pystr) (obj : json) :
  single_line item_separator -> single_line key_separator ->
  single_line (dumps_with item_separator key_separator obj).
Proof using Type floatstr_single_line.
  intros Hi Hk. induction obj as [ |b|z|f|s|items IH|d IH] using json_nested_ind;
    cbn [dumps_with].
  - repeat constructor; unfold LF; lia.
  - destruct b; repeat constructor; unfold LF; lia.
  - apply single_line_int_repr.
  - apply floatstr_single_line.
  - apply single_line_encode.
  - constructor; [unfold LF; lia|]. apply single_line_app.
    + apply single_line_join; [assumption|]. now apply Forall_map.
    + repeat constructor. unfold LF; lia.
  - constructor; [unfold LF; lia|]. apply single_line_app.
    + apply single_line_join; [assumption|]. apply Forall_map.
      eapply Forall_impl; [|exact IH]. intros [k x] Hx. cbn [fst snd] in *.
      auto using single_line_app, single_line_encode.
    + repeat constructor. unfold LF; lia.
Qed.

Lemma single_line_dumps_compact (obj : json) : single_line (dumps_compact obj).
Proof using Type floatstr_single_line.
  apply single_line_dumps_with; repeat constructor; unfold LF; lia.
Qed.

Lemma single_line_replace_lf (new text : pystr) :
  single_line new -> single_line (replace_char LF new text).
Proof.
  intros Hnew. unfold replace_char. induction text as [|c text IH]; [constructor|].
  cbn [flat_map]. apply single_line_app; [|exact IH].
  destruct (N.eqb_spec c LF); [assumption | now repeat constructor].
Qed.

Lemma single_line_replace_other (old : N) (text : pystr) :
  single_line text -> single_line (replace_char old [] text).
Proof.
  intros H. unfold replace_char. induction H as [|c text Hc Ht IH]; [constructor|].
  cbn [flat_map]. apply single_line_app; [|exact IH].
  destruct (c =? old); now repeat constructor.
Qed.

Lemma single_line_write_response (response line : pystr) :
  write_response response = Returned line -> single_line line.
Proof using Type floatstr_single_line.
  unfold write_response.
  destruct (json_loads in_write_response response) as [obj|e|e]; [| |discriminate];
    intros [= <-].
  - apply single_line_dumps_compact.
  - apply single_line_replace_other, single_line_replace_lf.
    repeat constructor. unfold LF; lia.
Qed.

Lemma single_line_write_error (request_id : json) (code : Z) (message : pystr) :
  single_line (write_error request_id code message).
Proof using Type floatstr_single_line. apply single_line_dumps_compact. Qed.

Lemma single_line_answer (response : pystr) : single_line (answer response).
Proof using Type floatstr_single_line.
  unfold answer. destruct (write_response response) as [line|e] eqn:Hw.
  - eapply single_line_write_response; eassumption.
  - apply single_line_write_error.
Qed.

(** C1, amended.  A line that is not blank and that [json.loads] accepts is
    answered by the loop with exactly one line of output, except when the
    forwarder returns an empty body: then nothing is printed for it.  The
    lines the stream consumer pushed meanwhile are counted apart. *)
Theorem valid_line_answered_once_unless_body_empty
    (up : upstream) (host : pystr) (port : Z) (session_id : option pystr)
    (raw_line : pystr) (request_obj : json) :
  strip raw_line <> [] ->
  json_loads in_main (strip raw_line) = LoadsReturned request_obj ->
  let t := process_line up host port session_id raw_line in
  let empty_body :=
    exists request_id new_session_id,
      py_get request_obj ID = Returned request_id
      /\ snd (forward_request up host port (strip raw_line) session_id)
         = Returned ([], new_session_id) in
  (empty_body -> turn_emitted t = [])
  /\ (~ empty_body -> exists line, turn_emitted t = [line] /\ single_line line).
Proof using Type floatstr_single_line.
  intros Hblank Hloads. cbv zeta. unfold process_line.
  destruct (strip raw_line) as [|c line] eqn:Hs; [congruence|].
  cbn [str_bool negb]. rewrite Hloads.
  destruct (py_get request_obj ID) as [request_id|e].
  - destruct (forward_request up host port (c :: line) session_id)
      as [[req printed] [[response new_session_id]|e]]; cbn [snd turn_emitted].
    + destruct response as [|r response]; cbn [str_bool].
      * split; [reflexivity|]. intros Hn. exfalso. apply Hn.
        now exists request_id, new_session_id.
      * split.
        -- intros (request_id' & sid' & _ & [=]).
        -- intros _. eexists. split; [reflexivity | apply single_line_answer].
    + split.
      * intros (request_id' & sid' & _ & [=]).
      * intros _. eexists. split; [reflexivity | apply single_line_write_error].
  - cbn [turn_emitted]. split.
    + intros (request_id' & sid' & [=] & _).
    + intros _. eexists. split; [reflexivity | apply single_line_write_error].
Qed.

(** ** Escapes *)

Ltac n_cases :=
  repeat match goal with
    | H : context [N.eqb ?a ?b] |- _ => destruct (N.eqb_spec a b)
    | H : context [N.leb ?a ?b] |- _ => destruct (N.leb_spec a b)
    | H : context [N.ltb ?a ?b] |- _ => destruct (N.ltb_spec a b)
    | |- context [N.eqb ?a ?b] => destruct (N.eqb_spec a b)
    | |- context [N.leb ?a ?b] => destruct (N.leb_spec a b)
    | |- context [N.ltb ?a ?b] => destruct (N.ltb_spec a b)
    end.

Lemma hex_value_digit (d : N) : d < 16 -> hex_value (hex_digit d) = Some d.
Proof.
  intros Hd. unfold hex_value, hex_digit.
  n_cases; cbn [andb]; try lia; f_equal; lia.
Qed.

Lemma decode_format_04x (n : N) (rest : pystr) :
  n < 0x10000 -> decode_uXXXX (format_04x n ++ rest) = Some (n, rest).
Proof.
  intros Hn. unfold format_04x. cbn [app decode_uXXXX].
  assert (H3 : n / 4096 < 16) by (apply N.Div0.div_lt_upper_bound; lia).
  assert (H2 : n / 256 mod 16 < 16) by (apply N.mod_lt; lia).
  assert (H1 : n / 16 mod 16 < 16) by (apply N.mod_lt; lia).
  assert (H0 : n mod 16 < 16) by (apply N.mod_lt; lia).
  rewrite !hex_value_digit by assumption.
  do 2 f_equal.
  assert (D1 : n / 256 = n / 16 / 16) by (now rewrite N.Div0.div_div).
  assert (D2 : n / 4096 = n / 256 / 16) by (now rewrite N.Div0.div_div).
  pose proof (N.div_mod n 16 ltac:(lia)) as E0.
  pose proof (N.div_mod (n / 16) 16 ltac:(lia)) as E1.
  pose proof (N.div_mod (n / 256) 16 ltac:(lia)) as E2.
  rewrite <- D1 in E1. rewrite <- D2 in E2. lia.
Qed.

Lemma lor_shiftl_10 (a x : N) : x < 1024 -> N.lor (N.shiftl a 10) x = a * 1024 + x.
Proof.
  intros Hx.
  rewrite <- N.lxor_lor, <- N.add_nocarry_lxor, N.shiftl_mul_pow2; try reflexivity.
  - apply N.bits_inj_0. intros i. rewrite N.land_spec.
    destruct (N.lt_ge_cases i 10) as [Hi|Hi].
    + now rewrite N.shiftl_spec_low.
    + replace (N.testbit x i) with false; [apply andb_false_r|].
      symmetry. destruct (N.eq_dec x 0) as [->|Hx0]; [apply N.bits_0|].
      apply N.bits_above_log2. apply N.log2_lt_pow2; [lia|].
      apply N.lt_le_trans with (2 ^ 10); [exact Hx|].
      apply N.pow_le_mono_r; lia.
  - apply N.bits_inj_0. intros i. rewrite N.land_spec.
    destruct (N.lt_ge_cases i 10) as [Hi|Hi].
    + now rewrite N.shiftl_spec_low.
    + replace (N.testbit x i) with false; [apply andb_false_r|].
      symmetry. destruct (N.eq_dec x 0) as [->|Hx0]; [apply N.bits_0|].
      apply N.bits_above_log2. apply N.log2_lt_pow2; [lia|].
      apply N.lt_le_trans with (2 ^ 10); [exact Hx|].
      apply N.pow_le_mono_r; lia.
Qed.

(** The two halves the encoder makes of a code point above [0xffff]. *)
Lemma surrogate_halves (c : N) :
  0x10000 <= c -> c < 0x110000 ->
  let n := c - 0x10000 in
  N.lor 0xd800 (N.land (N.shiftr n 10) 0x3ff) = 0xd800 + n / 1024
  /\ N.lor 0xdc00 (N.land n 0x3ff) = 0xdc00 + n mod 1024
  /\ n / 1024 < 1024.
Proof.
  intros Hlo Hhi n.
  assert (Hn : n < 0x100000) by (unfold n; lia).
  assert (Hq : n / 1024 < 1024) by (apply N.Div0.div_lt_upper_bound; lia).
  change 0x3ff with (N.ones 10). rewrite !N.land_ones, N.shiftr_div_pow2.
  change (2 ^ 10) with 1024.
  rewrite (N.mod_small (n / 1024) 1024) by exact Hq.
  change 0xd800 with (N.shiftl 54 10) at 1. change 0xdc00 with (N.shiftl 55 10) at 1.
  rewrite !lor_shiftl_10; [| apply N.mod_lt; lia | exact Hq].
  repeat split; lia.
Qed.

Lemma join_surrogate_halves (c : N) :
  0x10000 <= c -> c < 0x110000 ->
  let n := c - 0x10000 in
  join_surrogates (0xd800 + n / 1024) (0xdc00 + n mod 1024) = c.
Proof.
  intros Hlo Hhi n. unfold join_surrogates.
  pose proof (N.div_mod n 1024 ltac:(lia)) as Hdm.
  pose proof (N.mod_lt n 1024 ltac:(lia)) as Hr.
  assert (Hn : n = c - 0x10000) by reflexivity. clearbody n.
  generalize dependent (n / 1024). generalize dependent (n mod 1024).
  intros r Hr q Hdm.
  replace (0xd800 + q - 0xd800) with q by lia.
  replace (0xdc00 + r - 0xdc00) with r by lia.
  rewrite lor_shiftl_10 by exact Hr. lia.
Qed.

(** ** Scanning a string the encoder printed *)

Lemma scanstring_quote (rest : pystr) : scanstring (QUOTE :: rest) = Scanned [] rest.
Proof. reflexivity. Qed.

Lemma scanstring_plain (c : N) (t : pystr) :
  c <> QUOTE -> c <> BACKSLASH -> 32 <= c ->
  scanstring (c :: t) = scan_cons c (scanstring t).
Proof.
  intros Hq Hb Hc. cbn [scanstring].
  destruct (N.eqb_spec c QUOTE); [contradiction|].
  destruct (N.eqb_spec c BACKSLASH); [contradiction|].
  destruct (N.ltb_spec c 32); [lia | reflexivity].
Qed.

Lemma scanstring_backslash (esc : N) (t : pystr) :
  esc <> LOWER_U ->
  scanstring (BACKSLASH :: esc :: t)
  = match backslash esc with
    | None => Invalid
    | Some char => scan_cons char (scanstring t)
    end.
Proof.
  intros Hu. cbn [scanstring]. change (BACKSLASH =? QUOTE) with false.
  change (BACKSLASH =? BACKSLASH) with true. cbv iota.
  destruct (N.eqb_spec esc LOWER_U); [contradiction | reflexivity].
Qed.

Lemma scanstring_unicode (h1 h2 h3 h4 : N) (s3 : pystr) :
  scanstring (BACKSLASH :: LOWER_U :: h1 :: h2 :: h3 :: h4 :: s3)
  = match decode_uXXXX [h1; h2; h3; h4] with
    | None => Invalid
    | Some (uni, _) =>
        match s3 with
        | b :: u :: s4 =>
            if is_high_surrogate uni && (b =? BACKSLASH) && (u =? LOWER_U) then
              match s4 with
              | l1 :: l2 :: l3 :: l4 :: s5 =>
                  match decode_uXXXX [l1; l2; l3; l4] with
                  | None => Invalid
                  | Some (uni2, _) =>
                      if is_low_surrogate uni2
                      then scan_cons (join_surrogates uni uni2) (scanstring s5)
                      else scan_cons uni (scanstring s3)
                  end
              | _ => Invalid
              end
            else scan_cons uni (scanstring s3)
        | _ => scan_cons uni (scanstring s3)
        end
    end.
Proof. destruct s3 as [|b [|u s4]]; reflexivity. Qed.

Lemma decode_format_04x_exact (n : N) :
  n < 0x10000 ->
  exists h1 h2 h3 h4,
    format_04x n = [h1; h2; h3; h4] /\ decode_uXXXX [h1; h2; h3; h4] = Some (n, []).
Proof.
  intros Hn. do 4 eexists. split; [reflexivity|].
  apply (decode_format_04x n [] Hn).
Qed.

(** How the text after an escaped character goes on, before a closing
    quote: not with a [\u] escape, or with the escape of [x], which is a low
    surrogate only when the next character of the string is one. *)
Lemma escaped_tail (s rest : pystr) :
  str_ok s = true ->
  let tail := flat_map escape_char s ++ QUOTE :: rest in
  tail = [QUOTE]
  \/ (exists b u t, tail = b :: u :: t /\ (b =? BACKSLASH) && (u =? LOWER_U) = false)
  \/ (exists x t,
        tail = BACKSLASH :: LOWER_U :: format_04x x ++ t
        /\ x < 0x10000
        /\ is_low_surrogate x
           = match s with c :: _ => is_low_surrogate c | [] => false end).
Proof.
  intros Hok tail. subst tail. destruct s as [|c s].
  - cbn [flat_map app]. destruct rest as [|u t]; [now left|].
    right; left. now exists QUOTE, u, t.
  - cbn [flat_map]. rewrite <- app_assoc.
    set (t := flat_map escape_char s ++ QUOTE :: rest).
    assert (Ht : exists u t', t = u :: t').
    { subst t. destruct (flat_map escape_char s); cbn [app]; eauto. }
    destruct Ht as (u & t' & Ht).
    cbn [str_ok] in Hok. apply andb_true_iff in Hok as [Hok _].
    apply andb_true_iff in Hok as [Hc _]. apply N.ltb_lt in Hc.
    unfold escape_char.
    destruct (N.eqb_spec c BACKSLASH).
    { right; left. do 3 eexists. split; reflexivity. }
    destruct (N.eqb_spec c QUOTE).
    { right; left. do 3 eexists. split; reflexivity. }
    destruct (N.eqb_spec c 8).
    { right; left. do 3 eexists. split; reflexivity. }
    destruct (N.eqb_spec c 12).
    { right; left. do 3 eexists. split; reflexivity. }
    destruct (N.eqb_spec c 10).
    { right; left. do 3 eexists. split; reflexivity. }
    destruct (N.eqb_spec c 13).
    { right; left. do 3 eexists. split; reflexivity. }
    destruct (N.eqb_spec c 9).
    { right; left. do 3 eexists. split; reflexivity. }
    destruct ((SPACE <=? c) && (c <=? 126)) eqn:Hp.
    { right; left. exists c, u, t'. rewrite Ht. split; [reflexivity|].
      destruct (N.eqb_spec c BACKSLASH); [contradiction | reflexivity]. }
    destruct (N.ltb_spec c 0x10000) as [Hlt|Hge].
    { right; right. exists c, t. repeat split; assumption. }
    right; right.
    destruct (surrogate_halves c Hge Hc) as (E1 & E2 & Hq). cbv zeta. rewrite E1, E2.
    eexists. eexists. split; [cbn [app]; reflexivity|].
    assert (Hnl : is_low_surrogate c = false).
    { unfold is_low_surrogate. destruct (N.leb_spec c 0xdfff); [lia|]. apply andb_false_r. }
    rewrite Hnl. split.
    + lia.
    + unfold is_low_surrogate.
      destruct (N.leb_spec 0xdc00 (0xd800 + (c - 0x10000) / 1024)); [lia | reflexivity].
Qed.

Lemma str_ok_tail (c : N) (s : pystr) : str_ok (c :: s) = true -> str_ok s = true.
Proof. cbn [str_ok]. intros H. now apply andb_true_iff in H as [_ H]. Qed.

Lemma str_ok_head (c : N) (s : pystr) :
  str_ok (c :: s) = true ->
  c < 0x110000
  /\ (is_high_surrogate c = true ->
      match s with c' :: _ => is_low_surrogate c' | [] => false end = false).
Proof.
  cbn [str_ok]. intros H. apply andb_true_iff in H as [H _].
  apply andb_true_iff in H as [Hc Hs]. apply N.ltb_lt in Hc. split; [exact Hc|].
  intros Hh. rewrite Hh in Hs. cbn [andb] in Hs. now apply negb_true_iff in Hs.
Qed.

(** The scanner reads back what the encoder printed for a string. *)
Lemma scanstring_encoded (s rest : pystr) :
  str_ok s = true ->
  scanstring (flat_map escape_char s ++ QUOTE :: rest) = Scanned s rest.
Proof.
  induction s as [|c s IH]; intros Hok; [reflexivity|].
  pose proof (str_ok_tail _ _ Hok) as Hok'.
  destruct (str_ok_head _ _ Hok) as [Hc Hpair].
  specialize (IH Hok').
  pose proof (escaped_tail s rest Hok') as Htail. cbv zeta in Htail.
  cbn [flat_map]. rewrite <- app_assoc.
  set (tail := flat_map escape_char s ++ QUOTE :: rest) in *.
  unfold escape_char.
  destruct (N.eqb_spec c BACKSLASH) as [->|].
  { cbn [app]. rewrite scanstring_backslash by discriminate. cbn [backslash N.eqb Pos.eqb].
    now rewrite IH. }
  destruct (N.eqb_spec c QUOTE) as [->|].
  { cbn [app]. rewrite scanstring_backslash by discriminate. cbn [backslash N.eqb Pos.eqb].
    now rewrite IH. }
  destruct (N.eqb_spec c 8) as [->|].
  { cbn [app]. rewrite scanstring_backslash by discriminate. cbn [backslash N.eqb Pos.eqb].
    now rewrite IH. }
  destruct (N.eqb_spec c 12) as [->|].
  { cbn [app]. rewrite scanstring_backslash by discriminate. cbn [backslash N.eqb Pos.eqb].
    now rewrite IH. }
  destruct (N.eqb_spec c 10) as [->|].
  { cbn [app]. rewrite scanstring_backslash by discriminate. cbn [backslash N.eqb Pos.eqb].
    now rewrite IH. }
  destruct (N.eqb_spec c 13) as [->|].
  { cbn [app]. rewrite scanstring_backslash by discriminate. cbn [backslash N.eqb Pos.eqb].
    now rewrite IH. }
  destruct (N.eqb_spec c 9) as [->|].
  { cbn [app]. rewrite scanstring_backslash by discriminate. cbn [backslash N.eqb Pos.eqb].
    now rewrite IH. }
  destruct ((SPACE <=? c) && (c <=? 126)) eqn:Hp.
  { apply andb_true_iff in Hp as [Hlo _]. apply N.leb_le in Hlo.
    cbn [app]. rewrite scanstring_plain by assumption. now rewrite IH. }
  destruct (N.ltb_spec c 0x10000) as [Hlt|Hge].
  - (* one escape *)
    destruct (decode_format_04x_exact c Hlt) as (h1 & h2 & h3 & h4 & Hf & Hd).
    rewrite Hf. cbn [app]. rewrite scanstring_unicode, Hd.
    destruct Htail as [Ht | [(b & u & t & Ht & Hbu) | (x & t & Ht & Hx & Hlow)]];
      rewrite Ht.
    + rewrite <- Ht, IH. reflexivity.
    + rewrite <- andb_assoc, Hbu, andb_false_r. rewrite <- Ht, IH. reflexivity.
    + destruct (decode_format_04x_exact x Hx) as (l1 & l2 & l3 & l4 & Hfx & Hdx).
      rewrite Hfx. cbn [app].
      change (BACKSLASH =? BACKSLASH) with true. change (LOWER_U =? LOWER_U) with true.
      rewrite !andb_true_r. destruct (is_high_surrogate c) eqn:Hh.
      * rewrite Hdx. rewrite Hlow, (Hpair eq_refl).
        rewrite Hfx in Ht. cbn [app] in Ht. rewrite <- Ht, IH. reflexivity.
      * rewrite Hfx in Ht. cbn [app] in Ht. rewrite <- Ht, IH. reflexivity.
  - (* a surrogate pair *)
    destruct (surrogate_halves c Hge Hc) as (E1 & E2 & Hq). cbv zeta. rewrite E1, E2.
    pose proof (join_surrogate_halves c Hge Hc) as Hj. cbv zeta in Hj.
    pose proof (N.mod_lt (c - 0x10000) 1024 ltac:(lia)) as Hr.
    set (q := (c - 0x10000) / 1024) in *. set (r := (c - 0x10000) mod 1024) in *.
    clearbody q r.
    assert (H1 : 0xd800 + q < 0x10000) by lia.
    assert (H2 : 0xdc00 + r < 0x10000) by lia.
    destruct (decode_format_04x_exact _ H1) as (h1 & h2 & h3 & h4 & Hf & Hd).
    destruct (decode_format_04x_exact _ H2) as (l1 & l2 & l3 & l4 & Hfl & Hdl).
    rewrite Hf, Hfl. cbn [app]. rewrite scanstring_unicode, Hd.
    change (BACKSLASH =? BACKSLASH) with true. change (LOWER_U =? LOWER_U) with true.
    rewrite !andb_true_r.
    assert (Hh : is_high_surrogate (0xd800 + q) = true).
    { unfold is_high_surrogate. apply andb_true_iff. split; apply N.leb_le; lia. }
    assert (Hl : is_low_surrogate (0xdc00 + r) = true).
    { unfold is_low_surrogate. apply andb_true_iff. split; apply N.leb_le; lia. }
    rewrite Hh, Hdl, Hl. rewrite IH. cbn [scan_cons scan_map].
    now rewrite Hj.
Qed.

(** ** Scanning an integer the encoder printed *)

Lemma digits_uint_digits (u : Decimal.uint) : digits_uint (uint_digits u) = u.
Proof. induction u; cbn [uint_digits digits_uint]; unfold digit_of; cbn; congruence. Qed.

Lemma take_digits_uint (u : Decimal.uint) (rest : pystr) :
  not_digit_next rest -> take_digits (uint_digits u ++ rest) = (uint_digits u, rest).
Proof.
  intros Hrest. induction u; cbn [uint_digits app take_digits];
    try (change (is_digit _) with true; cbv iota; now rewrite IHu).
  destruct rest as [|c rest]; [reflexivity|]. cbn [take_digits].
  cbn [not_digit_next] in Hrest. now rewrite Hrest.
Qed.

Lemma unorm_fixed_point (u : Decimal.uint) :
  Decimal.unorm u = u -> u = Decimal.D0 Decimal.Nil \/ leading_nonzero u.
Proof.
  destruct u as [|u| | | | | | | | | ]; intros H; try (right; exact I).
  - discriminate.
  - destruct u as [|u'| | | | | | | | | ]; [now left | | | | | | | | | | ];
      exfalso; rewrite DecimalFacts.unorm_D0 in H;
      match type of H with
      | Decimal.unorm ?v = _ =>
          pose proof (DecimalFacts.nb_digits_unorm v ltac:(discriminate)) as Hn
      end;
      rewrite H in Hn; cbn [Decimal.nb_digits] in Hn; lia.
Qed.

Lemma pos_to_uint_leading_nonzero (p : positive) : leading_nonzero (Pos.to_uint p).
Proof.
  pose proof (DecimalPos.Unsigned.to_of (Pos.to_uint p)) as H.
  rewrite DecimalPos.Unsigned.of_to in H. cbn [N.to_uint] in H.
  symmetry in H. destruct (unorm_fixed_point _ H) as [H0|]; [|assumption].
  now apply DecimalPos.Unsigned.to_uint_nonzero in H0.
Qed.

Lemma uint_digits_leading_nonzero (u : Decimal.uint) :
  leading_nonzero u ->
  exists c ds, uint_digits u = c :: ds /\ is_digit c = true /\ c <> 48 /\ c <> MINUS.
Proof.
  destruct u; intros H; try contradiction; cbn [uint_digits];
    do 2 eexists; (split; [reflexivity|]); repeat split; discriminate.
Qed.

Lemma match_integer_nonzero (u : Decimal.uint) (rest : pystr) :
  leading_nonzero u -> not_digit_next rest ->
  match_integer (uint_digits u ++ rest) = Some (uint_digits u, rest).
Proof.
  intros Hu Hrest.
  pose proof (take_digits_uint u rest Hrest) as Ht.
  destruct (uint_digits_leading_nonzero u Hu) as (c & ds & Hd & Hc & H0 & Hm).
  rewrite Hd in *. cbn [app] in *. unfold match_integer.
  destruct (N.eqb_spec c MINUS); [contradiction|].
  destruct (N.eqb_spec c 48); [contradiction|].
  rewrite Hc. cbn [take_digits] in Ht. rewrite Hc in Ht.
  destruct (take_digits (ds ++ rest)) as [ds' rest'].
  injection Ht as -> ->. reflexivity.
Qed.

Lemma match_integer_negative (u : Decimal.uint) (rest : pystr) :
  leading_nonzero u -> not_digit_next rest ->
  match_integer (MINUS :: uint_digits u ++ rest) = Some (MINUS :: uint_digits u, rest).
Proof.
  intros Hu Hrest.
  pose proof (take_digits_uint u rest Hrest) as Ht.
  destruct (uint_digits_leading_nonzero u Hu) as (c & ds & Hd & Hc & H0 & Hm).
  rewrite Hd in *. cbn [app] in *. unfold match_integer.
  change (MINUS =? MINUS) with true. cbv iota.
  destruct (N.eqb_spec c 48); [contradiction|].
  rewrite Hc. cbn [take_digits] in Ht. rewrite Hc in Ht.
  destruct (take_digits (ds ++ rest)) as [ds' rest'].
  injection Ht as -> ->. reflexivity.
Qed.

Lemma match_integer_repr (z : Z) (rest : pystr) :
  not_digit_next rest ->
  match_integer (int_repr z ++ rest) = Some (int_repr z, rest).
Proof.
  intros Hrest. unfold int_repr. destruct z as [|p|p]; cbn [Z.to_int].
  - reflexivity.
  - apply match_integer_nonzero; [apply pos_to_uint_leading_nonzero | assumption].
  - apply match_integer_negative; [apply pos_to_uint_leading_nonzero | assumption].
Qed.

Lemma parse_int_repr (z : Z) : parse_int (int_repr z) = z.
Proof.
  rewrite <- (DecimalZ.of_to z) at 2. unfold int_repr.
  destruct (Z.to_int z) as [u|u] eqn:Hz.
  - assert (Hu : u = Decimal.D0 Decimal.Nil \/ leading_nonzero u).
    { destruct z as [|p|p]; cbn [Z.to_int] in Hz; try discriminate;
        injection Hz as <-.
      - now left.
      - right. apply pos_to_uint_leading_nonzero. }
    destruct Hu as [->|Hu]; [reflexivity|].
    destruct (uint_digits_leading_nonzero u Hu) as (c & ds & Hd & Hc & H0 & Hm).
    unfold parse_int. rewrite Hd.
    destruct (N.eqb_spec c MINUS); [contradiction|].
    rewrite <- Hd, digits_uint_digits. reflexivity.
  - unfold parse_int. change (MINUS =? MINUS) with true. cbv iota.
    now rewrite digits_uint_digits.
Qed.

Lemma value_end_not_digit (rest : pystr) : value_end rest -> not_digit_next rest.
Proof.
  destruct rest as [|c rest]; [trivial|]. cbn. intros [->| [->| ->]]; reflexivity.
Qed.

Lemma scan_number_int_repr (z : Z) (rest : pystr) :
  value_end rest -> scan_number (int_repr z ++ rest) = Scanned (JInt z) rest.
Proof.
  intros Hrest. unfold scan_number, match_number.
  rewrite match_integer_repr by now apply value_end_not_digit.
  assert (Hf : match_frac rest = ([], rest)).
  { destruct rest as [|c rest]; [reflexivity|].
    destruct Hrest as [->| [->| ->]]; reflexivity. }
  assert (He : match_exp rest = ([], rest)).
  { destruct rest as [|c rest]; [reflexivity|].
    destruct Hrest as [->| [->| ->]]; reflexivity. }
  rewrite Hf, He. now rewrite parse_int_repr.
Qed.

Lemma int_repr_head (z : Z) :
  exists c t, int_repr z = c :: t /\ (is_digit c = true \/ c = MINUS).
Proof.
  unfold int_repr. destruct z as [|p|p]; cbn [Z.to_int].
  - do 2 eexists. split; [reflexivity|]. now left.
  - destruct (uint_digits_leading_nonzero _ (pos_to_uint_leading_nonzero p))
      as (c & ds & Hd & Hc & _). rewrite Hd. eauto.
  - do 2 eexists. split; [reflexivity|]. now right.
Qed.

(** ** What a scan reads *)

Lemma reads_shorter (s r : pystr) : reads s r -> (List.length r < List.length s)%nat.
Proof.
  intros (pre & Hpre & ->). rewrite length_app.
  destruct pre; [contradiction | simpl; lia].
Qed.

Lemma reads_text_ok (s r : pystr) : reads s r -> text_ok s -> text_ok r.
Proof. intros (pre & _ & ->) H. now apply Forall_app in H. Qed.

Lemma reads_cons (c : N) (s r : pystr) : r = s \/ reads s r -> reads (c :: s) r.
Proof.
  intros [->|(pre & _ & ->)].
  - now exists [c].
  - now exists (c :: pre).
Qed.

Lemma reads_trans (s r t : pystr) : reads s r -> t = r \/ reads r t -> reads s t.
Proof.
  intros (pre & Hpre & ->) [->|(pre' & _ & ->)].
  - now exists pre.
  - exists (pre ++ pre'). split; [destruct pre; [contradiction | discriminate]|].
    now rewrite app_assoc.
Qed.

Lemma skip_ws_suffix (s : pystr) : skip_ws s = s \/ reads s (skip_ws s).
Proof.
  induction s as [|c s IH]; [now left|]. cbn [skip_ws].
  destruct (is_ws c); [|now left]. right. now apply reads_cons.
Qed.

Lemma reads_skip_ws (s r : pystr) : reads s r -> reads s (skip_ws r).
Proof. intros H. eapply reads_trans; [exact H | apply skip_ws_suffix]. Qed.

Lemma reads_after_skip_ws (s r : pystr) : reads (skip_ws s) r -> reads s r.
Proof.
  intros H. destruct (skip_ws_suffix s) as [E|Hs]; [now rewrite E in H|].
  eapply reads_trans; [exact Hs | now right].
Qed.

Lemma take_digits_split (s : pystr) : s = fst (take_digits s) ++ snd (take_digits s).
Proof.
  induction s as [|c s IH]; [reflexivity|]. cbn [take_digits].
  destruct (is_digit c); [|reflexivity].
  destruct (take_digits s) as [ds r]. cbn [fst snd app] in *. now f_equal.
Qed.

Lemma match_integer_reads (s integer r : pystr) :
  match_integer s = Some (integer, r) -> integer <> [] /\ s = integer ++ r.
Proof.
  unfold match_integer.
  assert (H : forall sign s1, s = sign ++ s1 ->
            match s1 with
            | [] => None
            | c :: s2 =>
                if c =? 48 then Some (sign ++ [c], s2)
                else if is_digit c
                     then let (ds, s3) := take_digits s2 in Some (sign ++ c :: ds, s3)
                     else None
            end = Some (integer, r) -> integer <> [] /\ s = integer ++ r).
  { intros sign s1 -> H. destruct s1 as [|c s2]; [discriminate|].
    destruct (c =? 48).
    - injection H as <- <-. split; [now destruct sign|]. now rewrite <- app_assoc.
    - destruct (is_digit c); [|discriminate].
      pose proof (take_digits_split s2) as Hs. destruct (take_digits s2) as [ds s3].
      injection H as <- <-. cbn [fst snd] in Hs. split; [now destruct sign|].
      rewrite <- app_assoc. cbn [app]. now rewrite Hs at 1. }
  destruct s as [|c s']; [discriminate|].
  destruct (c =? MINUS); [apply (H [c] s' eq_refl) | apply (H [] (c :: s') eq_refl)].
Qed.

Lemma match_frac_split (s : pystr) : s = fst (match_frac s) ++ snd (match_frac s).
Proof.
  unfold match_frac. destruct s as [|c s1]; [reflexivity|].
  destruct (c =? DOT); [|reflexivity].
  pose proof (take_digits_split s1) as Hs.
  destruct (take_digits s1) as [[|d ds] s2]; [reflexivity|].
  cbn [fst snd app] in *. now f_equal.
Qed.

Lemma match_exp_split (s : pystr) : s = fst (match_exp s) ++ snd (match_exp s).
Proof.
  unfold match_exp. destruct s as [|e s1]; [reflexivity|].
  destruct ((e =? 101) || (e =? 69)); [|reflexivity].
  assert (H : forall sign s2, s1 = sign ++ s2 ->
            e :: s1 = fst (match take_digits s2 with
                           | ([], _) => ([], e :: s1)
                           | (ds, s3) => (e :: sign ++ ds, s3)
                           end)
                      ++ snd (match take_digits s2 with
                              | ([], _) => ([], e :: s1)
                              | (ds, s3) => (e :: sign ++ ds, s3)
                              end)).
  { intros sign s2 ->. pose proof (take_digits_split s2) as Hs.
    destruct (take_digits s2) as [[|d ds] s3]; [reflexivity|].
    cbn [fst snd app] in *. f_equal. rewrite <- app_assoc. now f_equal. }
  destruct s1 as [|c s']; [apply (H [] [] eq_refl)|].
  destruct ((c =? MINUS) || (c =? PLUS));
    [apply (H [c] s' eq_refl) | apply (H [] (c :: s') eq_refl)].
Qed.

Lemma match_number_reads (s integer frac exp r : pystr) :
  match_number s = Some (integer, frac, exp, r) -> reads s r.
Proof.
  unfold match_number. destruct (match_integer s) as [[i s1]|] eqn:Hi; [|discriminate].
  apply match_integer_reads in Hi as [Hne ->].
  pose proof (match_frac_split s1) as Hf. destruct (match_frac s1) as [f s2].
  pose proof (match_exp_split s2) as He. destruct (match_exp s2) as [e s3].
  intros [= <- <- <- <-]. cbn [fst snd] in *. subst s1 s2.
  exists (i ++ f ++ e). split; [now destruct i|]. now rewrite <- !app_assoc.
Qed.

Lemma scan_number_reads (s : pystr) (v : json) (r : pystr) :
  scan_number s = Scanned v r -> reads s r.
Proof.
  unfold scan_number.
  destruct (match_number s) as [[[[integer frac] exp] rest]|] eqn:Hm.
  - apply match_number_reads in Hm.
    destruct frac, exp; intros [= _ <-]; exact Hm.
  - destruct (startswith NAN s) eqn:H1.
    { intros [= _ <-]. exists NAN. split; [discriminate|]. now apply startswith_skipn. }
    destruct (startswith INFINITY s) eqn:H2.
    { intros [= _ <-]. exists INFINITY. split; [discriminate|]. now apply startswith_skipn. }
    destruct (startswith NEG_INFINITY s) eqn:H3; [|discriminate].
    intros [= _ <-]. exists NEG_INFINITY. split; [discriminate|]. now apply startswith_skipn.
Qed.

Lemma scanstring_unfold (s : pystr) :
  scanstring s
  = match s with
    | [] => Invalid
    | c :: s1 =>
        if c =? QUOTE then Scanned [] s1
        else if c =? BACKSLASH then
          match s1 with
          | [] => Invalid
          | esc :: s2 =>
              if esc =? LOWER_U then
                match s2 with
                | h1 :: h2 :: h3 :: h4 :: s3 =>
                    scanstring (BACKSLASH :: LOWER_U :: h1 :: h2 :: h3 :: h4 :: s3)
                | _ => Invalid
                end
              else
                match backslash esc with
                | None => Invalid
                | Some char => scan_cons char (scanstring s2)
                end
          end
        else if c <? 32 then Invalid
        else scan_cons c (scanstring s1)
    end.
Proof.
  destruct s as [|c [|esc [|h1 [|h2 [|h3 [|h4 s3]]]]]]; try reflexivity;
    cbn [scanstring]; destruct (c =? QUOTE); try reflexivity;
    destruct (N.eqb_spec c BACKSLASH) as [->|]; try reflexivity;
    destruct (N.eqb_spec esc LOWER_U) as [->|]; reflexivity.
Qed.

Lemma scan_cons_scanned (c : N) (x : scan pystr) (out r : pystr) :
  scan_cons c x = Scanned out r ->
  exists out', x = Scanned out' r /\ out = c :: out'.
Proof. destruct x; [|discriminate..]. intros [= <- <-]. eauto. Qed.

Lemma scanstring_reads_bounded (n : nat) (s out r : pystr) :
  (List.length s <= n)%nat -> scanstring s = Scanned out r -> reads s r.
Proof.
  revert s out r. induction n as [|n IH]; intros s out r Hn.
  { destruct s; [discriminate | simpl in Hn; lia]. }
  rewrite scanstring_unfold. destruct s as [|c s1]; [discriminate|].
  cbn [List.length] in Hn.
  destruct (c =? QUOTE). { intros [= _ <-]. now exists [c]. }
  destruct (c =? BACKSLASH).
  - destruct s1 as [|esc s2]; [discriminate|]. cbn [List.length] in Hn.
    destruct (esc =? LOWER_U).
    + destruct s2 as [|h1 [|h2 [|h3 [|h4 s3]]]]; try discriminate.
      cbn [List.length] in Hn.
      rewrite scanstring_unicode.
      destruct (decode_uXXXX [h1; h2; h3; h4]) as [[uni t]|]; [|discriminate].
      assert (Hdirect : forall out' r', scanstring s3 = Scanned out' r' ->
                reads (c :: esc :: h1 :: h2 :: h3 :: h4 :: s3) r').
      { intros out' r' H. apply IH in H; [|lia].
        do 6 (apply reads_cons; right). exact H. }
      assert (Hcons : scan_cons uni (scanstring s3) = Scanned out r ->
                reads (c :: esc :: h1 :: h2 :: h3 :: h4 :: s3) r).
      { intros H. apply scan_cons_scanned in H as (out' & H & _). eauto. }
      destruct s3 as [|b [|u s4]]; try exact Hcons.
      destruct (is_high_surrogate uni && (b =? BACKSLASH) && (u =? LOWER_U));
        [|exact Hcons].
      destruct s4 as [|l1 [|l2 [|l3 [|l4 s5]]]]; try discriminate.
      destruct (decode_uXXXX [l1; l2; l3; l4]) as [[uni2 t2]|]; [|discriminate].
      destruct (is_low_surrogate uni2); [|exact Hcons].
      intros H. apply scan_cons_scanned in H as (out' & H & _).
      apply IH in H; [|cbn [List.length] in Hn |- *; lia].
      do 12 (apply reads_cons; right). exact H.
    + destruct (backslash esc); [|discriminate].
      intros H. apply scan_cons_scanned in H as (out' & H & _).
      apply IH in H; [|lia]. do 2 (apply reads_cons; right). exact H.
  - destruct (c <? 32); [discriminate|].
    intros H. apply scan_cons_scanned in H as (out' & H & _).
    apply IH in H; [|lia]. apply reads_cons. now right.
Qed.

Lemma scanstring_reads (s out r : pystr) : scanstring s = Scanned out r -> reads s r.
Proof. apply (scanstring_reads_bounded (List.length s)). lia. Qed.

Lemma scan_map_scanned {A B} (f : A -> B) (x : scan A) (v : B) (r : pystr) :
  scan_map f x = Scanned v r -> exists a, x = Scanned a r /\ v = f a.
Proof. destruct x; [|discriminate..]. intros [= <- <-]. eauto. Qed.

Lemma skip_ws_cons_reads (s c : _) (s' : pystr) : skip_ws s = c :: s' -> reads s s'.
Proof.
  intros H. destruct (skip_ws_suffix s) as [E|Hr].
  - rewrite <- E, H. now exists [c].
  - eapply reads_trans; [exact Hr|]. right. rewrite H. now exists [c].
Qed.

Lemma skip_ws_cons_reads_to (s c : _) (s' r : pystr) :
  skip_ws s = c :: s' -> r = s' \/ reads s' r -> reads s r.
Proof. intros H Hr. eapply reads_trans; [eapply skip_ws_cons_reads; exact H | exact Hr]. Qed.

(** Each scanning function reads at least one character. *)
Lemma scan_reads (fuel : nat) :
  (forall s v r, scan_once fuel s = Scanned v r -> reads s r)
  /\ (forall s vs r, scan_array_items fuel s = Scanned vs r -> reads s r)
  /\ (forall s ps r, scan_object_pairs fuel s = Scanned ps r -> reads s r).
Proof.
  induction fuel as [|fuel (IHonce & IHitems & IHpairs)];
    [repeat split; intros; discriminate|].
  repeat split.
  - intros s v r. cbn [scan_once]. destruct s as [|nextchar s1]; [discriminate|].
    destruct (nextchar =? QUOTE).
    { intros H. apply scan_map_scanned in H as (out & H & _).
      apply scanstring_reads in H. apply reads_cons. now right. }
    destruct (nextchar =? LBRACE).
    { destruct (skip_ws s1) as [|c s2] eqn:Hws; [discriminate|].
      destruct (c =? RBRACE).
      - intros [= _ <-]. apply reads_cons. right. eapply skip_ws_cons_reads; exact Hws.
      - intros H. apply scan_map_scanned in H as (ps & H & _). apply IHpairs in H.
        apply reads_cons. right. apply reads_after_skip_ws. now rewrite Hws. }
    destruct (nextchar =? LBRACKET).
    { destruct (skip_ws s1) as [|c s2] eqn:Hws; [discriminate|].
      destruct (c =? RBRACKET).
      - intros [= _ <-]. apply reads_cons. right. eapply skip_ws_cons_reads; exact Hws.
      - intros H. apply scan_map_scanned in H as (ps & H & _). apply IHitems in H.
        apply reads_cons. right. apply reads_after_skip_ws. now rewrite Hws. }
    destruct (startswith NULL (nextchar :: s1)) eqn:H1.
    { intros [= _ <-]. exists NULL. split; [discriminate|]. now apply startswith_skipn. }
    destruct (startswith TRUE (nextchar :: s1)) eqn:H2.
    { intros [= _ <-]. exists TRUE. split; [discriminate|]. now apply startswith_skipn. }
    destruct (startswith FALSE (nextchar :: s1)) eqn:H3.
    { intros [= _ <-]. exists FALSE. split; [discriminate|]. now apply startswith_skipn. }
    apply scan_number_reads.
  - intros s vs r. cbn [scan_array_items].
    destruct (scan_once fuel s) as [value s1| |] eqn:Hv; [|discriminate..].
    apply IHonce in Hv.
    destruct (skip_ws s1) as [|c s2] eqn:Hws; [discriminate|].
    destruct (c =? RBRACKET).
    { intros [= _ <-]. eapply reads_trans; [exact Hv|]. right.
      eapply skip_ws_cons_reads; exact Hws. }
    destruct (c =? COMMA); [|discriminate].
    intros H. apply scan_map_scanned in H as (vs' & H & _). apply IHitems in H.
    eapply reads_trans; [exact Hv|]. right.
    eapply skip_ws_cons_reads_to; [exact Hws|]. right. now apply reads_after_skip_ws.
  - intros s ps r. cbn [scan_object_pairs]. destruct s as [|q s1]; [discriminate|].
    destruct (q =? QUOTE); [|discriminate].
    destruct (scanstring s1) as [key s2| |] eqn:Hk; [|discriminate..].
    apply scanstring_reads in Hk.
    destruct (skip_ws s2) as [|c s3] eqn:Hws2; [discriminate|].
    destruct (c =? COLON); [|discriminate].
    destruct (scan_once fuel (skip_ws s3)) as [value s4| |] eqn:Hv; [|discriminate..].
    apply IHonce, reads_after_skip_ws in Hv.
    assert (Hs4 : reads (q :: s1) s4).
    { apply reads_cons. right. eapply reads_trans; [exact Hk|]. right.
      eapply skip_ws_cons_reads_to; [exact Hws2|]. now right. }
    destruct (skip_ws s4) as [|c' s5] eqn:Hws4; [discriminate|].
    destruct (c' =? RBRACE).
    { intros [= _ <-]. eapply reads_trans; [exact Hs4|]. right.
      eapply skip_ws_cons_reads; exact Hws4. }
    destruct (c' =? COMMA); [|discriminate].
    intros H. apply scan_map_scanned in H as (ps' & H & _). apply IHpairs in H.
    eapply reads_trans; [exact Hs4|]. right.
    eapply skip_ws_cons_reads_to; [exact Hws4|]. right. now apply reads_after_skip_ws.
Qed.

Lemma skip_ws_length (s : pystr) : (List.length (skip_ws s) <= List.length s)%nat.
Proof.
  destruct (skip_ws_suffix s) as [->|H]; [lia|]. apply reads_shorter in H. lia.
Qed.

Lemma scan_map_in_budget {A B} (f : A -> B) (x : scan A) :
  x <> OutOfFuel -> scan_map f x <> OutOfFuel.
Proof. destruct x; [discriminate | discriminate | contradiction]. Qed.

(** [scanstring] recurses on the text itself and needs no budget. *)
Lemma scanstring_in_budget (s : pystr) : scanstring s <> OutOfFuel.
Proof.
  assert (H : forall n s, (List.length s <= n)%nat -> scanstring s <> OutOfFuel);
    [|apply (H (List.length s) s); lia].
  clear s. induction n as [|n IH]; intros s Hn.
  { destruct s; [discriminate | simpl in Hn; lia]. }
  rewrite scanstring_unfold. destruct s as [|c s1]; [discriminate|].
  cbn [List.length] in Hn.
  destruct (c =? QUOTE); [discriminate|]. destruct (c =? BACKSLASH).
  - destruct s1 as [|esc s2]; [discriminate|]. cbn [List.length] in Hn.
    destruct (esc =? LOWER_U).
    + destruct s2 as [|h1 [|h2 [|h3 [|h4 s3]]]]; try discriminate.
      cbn [List.length] in Hn. rewrite scanstring_unicode.
      destruct (decode_uXXXX [h1; h2; h3; h4]) as [[uni t]|]; [|discriminate].
      assert (Hcons : scan_cons uni (scanstring s3) <> OutOfFuel).
      { apply scan_map_in_budget, IH. lia. }
      destruct s3 as [|b [|u s4]]; try exact Hcons.
      destruct (is_high_surrogate uni && (b =? BACKSLASH) && (u =? LOWER_U));
        [|exact Hcons].
      destruct s4 as [|l1 [|l2 [|l3 [|l4 s5]]]]; try discriminate.
      destruct (decode_uXXXX [l1; l2; l3; l4]) as [[uni2 t2]|]; [|discriminate].
      destruct (is_low_surrogate uni2); [|exact Hcons].
      apply scan_map_in_budget, IH. cbn [List.length] in Hn. lia.
    + destruct (backslash esc); [|discriminate]. apply scan_map_in_budget, IH. lia.
  - destruct (c <? 32); [discriminate|]. apply scan_map_in_budget, IH. lia.
Qed.

(** The budget [loads] gives is never used up: two units for each character
    are enough. *)
Lemma scan_enough_fuel (fuel : nat) :
  (forall s, (2 * List.length s < fuel)%nat -> scan_once fuel s <> OutOfFuel)
  /\ (forall s, (2 * List.length s + 1 < fuel)%nat -> scan_array_items fuel s <> OutOfFuel)
  /\ (forall s, (2 * List.length s + 1 < fuel)%nat -> scan_object_pairs fuel s <> OutOfFuel).
Proof.
  induction fuel as [|fuel (IHonce & IHitems & IHpairs)];
    [repeat split; intros; lia|].
  repeat split.
  - intros s Hs. cbn [scan_once]. destruct s as [|nextchar s1]; [discriminate|].
    cbn [List.length] in Hs.
    destruct (nextchar =? QUOTE).
    { apply scan_map_in_budget, scanstring_in_budget. }
    destruct (nextchar =? LBRACE).
    { pose proof (skip_ws_length s1) as Hl.
      destruct (skip_ws s1) as [|c s2]; [discriminate|].
      destruct (c =? RBRACE); [discriminate|]. apply scan_map_in_budget, IHpairs. lia. }
    destruct (nextchar =? LBRACKET).
    { pose proof (skip_ws_length s1) as Hl.
      destruct (skip_ws s1) as [|c s2]; [discriminate|].
      destruct (c =? RBRACKET); [discriminate|]. apply scan_map_in_budget, IHitems. lia. }
    destruct (startswith NULL (nextchar :: s1)); [discriminate|].
    destruct (startswith TRUE (nextchar :: s1)); [discriminate|].
    destruct (startswith FALSE (nextchar :: s1)); [discriminate|].
    unfold scan_number.
    destruct (match_number (nextchar :: s1)) as [[[[integer frac] exp] rest]|].
    + destruct frac, exp; discriminate.
    + destruct (startswith NAN (nextchar :: s1)); [discriminate|].
      destruct (startswith INFINITY (nextchar :: s1)); [discriminate|].
      destruct (startswith NEG_INFINITY (nextchar :: s1)); discriminate.
  - intros s Hs. cbn [scan_array_items].
    pose proof (IHonce s ltac:(lia)) as Hv.
    destruct (scan_once fuel s) as [value s1| |] eqn:E; [|discriminate|contradiction].
    apply (proj1 (scan_reads fuel)), reads_shorter in E.
    pose proof (skip_ws_length s1) as Hl.
    destruct (skip_ws s1) as [|c s2]; [discriminate|].
    destruct (c =? RBRACKET); [discriminate|].
    destruct (c =? COMMA); [|discriminate].
    apply scan_map_in_budget, IHitems. pose proof (skip_ws_length s2). cbn [List.length] in Hl. lia.
  - intros s Hs. cbn [scan_object_pairs]. destruct s as [|q s1]; [discriminate|].
    cbn [List.length] in Hs.
    destruct (q =? QUOTE); [|discriminate].
    pose proof (scanstring_in_budget s1) as Hkey.
    destruct (scanstring s1) as [key s2| |] eqn:Hk; [|discriminate|contradiction].
    apply scanstring_reads, reads_shorter in Hk.
    pose proof (skip_ws_length s2) as Hl2.
    destruct (skip_ws s2) as [|c s3]; [discriminate|].
    destruct (c =? COLON); [|discriminate]. cbn [List.length] in Hl2.
    pose proof (skip_ws_length s3) as Hl3.
    pose proof (IHonce (skip_ws s3) ltac:(lia)) as Hv.
    destruct (scan_once fuel (skip_ws s3)) as [value s4| |] eqn:E;
      [|discriminate|contradiction].
    apply (proj1 (scan_reads fuel)), reads_shorter in E.
    pose proof (skip_ws_length s4) as Hl4.
    destruct (skip_ws s4) as [|c' s5]; [discriminate|].
    destruct (c' =? RBRACE); [discriminate|].
    destruct (c' =? COMMA); [|discriminate].
    apply scan_map_in_budget, IHpairs. pose proof (skip_ws_length s5). cbn [List.length] in Hl4. lia.
Qed.

(** ** Reading back what the encoder printed *)

(** [float.__repr__] prints a text that the scanner reads back as the same
    float. *)
Hypothesis floatstr_scans :
  forall f rest, value_end rest -> scan_once 1 (floatstr f ++ rest) = Scanned (JFloat f) rest.

Lemma skip_ws_not_ws (c : N) (s : pystr) : is_ws c = false -> skip_ws (c :: s) = c :: s.
Proof. intros H. cbn [skip_ws]. now rewrite H. Qed.

Lemma skip_ws_app_ws (w s : pystr) :
  Forall (fun c => is_ws c = true) w -> skip_ws (w ++ s) = skip_ws s.
Proof. induction 1 as [|c w Hc Hw IH]; [reflexivity|]. cbn [app skip_ws]. now rewrite Hc. Qed.

Lemma scan_once_starts_value (fuel : nat) (s : pystr) (v : json) (r : pystr) :
  scan_once fuel s = Scanned v r -> starts_value s.
Proof.
  destruct fuel as [|fuel]; [discriminate|]. destruct s as [|c s]; [discriminate|].
  intros H. cbn [starts_value].
  assert (Hbad : forall c', c = c' -> In c' [SPACE; 9; 10; 13; RBRACKET; RBRACE] -> False).
  { intros c' -> Hin. cbn [In] in Hin.
    destruct Hin as [<-|[<-|[<-|[<-|[<-|[<-|[]]]]]]]; discriminate H. }
  assert (Hws : is_ws c = false).
  { destruct (is_ws c) eqn:Hc; [|reflexivity]. exfalso. unfold is_ws in Hc.
    repeat (apply orb_true_iff in Hc as [Hc|Hc]); apply N.eqb_eq in Hc;
      apply (Hbad c eq_refl); rewrite Hc; cbn [In]; auto 10. }
  split; [exact Hws|].
  split; intros Hc; apply (Hbad c eq_refl); rewrite Hc; cbn [In]; auto 10.
Qed.

Lemma starts_value_app (a b : pystr) : starts_value a -> starts_value (a ++ b).
Proof. destruct a; [contradiction | trivial]. Qed.

Lemma floatstr_starts_value (f : pyfloat) : starts_value (floatstr f).
Proof using Type floatstr_scans.
  pose proof (floatstr_scans f [] I) as H. rewrite app_nil_r in H.
  eapply scan_once_starts_value; exact H.
Qed.

(** An atom is scanned the same with any budget. *)
Lemma scan_once_atom (fuel : nat) (c : N) (s : pystr) :
  c <> LBRACE -> c <> LBRACKET ->
  scan_once (S fuel) (c :: s) = scan_once 1 (c :: s).
Proof.
  intros H1 H2. cbn [scan_once].
  destruct (c =? QUOTE); [reflexivity|].
  destruct (N.eqb_spec c LBRACE); [contradiction|].
  destruct (N.eqb_spec c LBRACKET); [contradiction|]. reflexivity.
Qed.

Lemma scan_once_floatstr (fuel : nat) (f : pyfloat) (rest : pystr) :
  value_end rest -> scan_once (S fuel) (floatstr f ++ rest) = Scanned (JFloat f) rest.
Proof using Type floatstr_scans.
  intros Hrest. pose proof (floatstr_scans f rest Hrest) as H.
  destruct (floatstr f ++ rest) as [|c s] eqn:E; [discriminate|].
  destruct (N.eqb_spec c LBRACE) as [->|Hb].
  { cbn in H. destruct (skip_ws s) as [|c' s']; [discriminate|].
    destruct (c' =? RBRACE); discriminate. }
  destruct (N.eqb_spec c LBRACKET) as [->|Hk].
  { cbn in H. destruct (skip_ws s) as [|c' s']; [discriminate|].
    destruct (c' =? RBRACKET); discriminate. }
  now rewrite scan_once_atom.
Qed.

Lemma scan_once_int_repr (fuel : nat) (z : Z) (rest : pystr) :
  value_end rest -> scan_once (S fuel) (int_repr z ++ rest) = Scanned (JInt z) rest.
Proof.
  intros Hrest. rewrite <- (scan_number_int_repr z rest Hrest).
  destruct (int_repr_head z) as (c & t & Hz & Hc). rewrite Hz. cbn [app scan_once].
  assert (E : (c =? QUOTE) = false /\ (c =? LBRACE) = false /\ (c =? LBRACKET) = false
              /\ (110 =? c) = false /\ (116 =? c) = false /\ (102 =? c) = false).
  { destruct Hc as [Hc| ->]; [|repeat split; reflexivity].
    unfold is_digit in Hc. apply andb_true_iff in Hc as [H1 H2].
    apply N.leb_le in H1, H2. repeat split; apply N.eqb_neq; lia. }
  destruct E as (-> & -> & -> & E1 & E2 & E3).
  unfold NULL, TRUE, FALSE. cbn [startswith]. now rewrite E1, E2, E3.
Qed.

Lemma scan_once_encoded_string (fuel : nat) (s rest : pystr) :
  str_ok s = true ->
  scan_once (S fuel) (encode_basestring_ascii s ++ rest) = Scanned (JStr s) rest.
Proof.
  intros Hs. unfold encode_basestring_ascii. cbn [app scan_once].
  change (QUOTE =? QUOTE) with true. cbv iota.
  rewrite <- app_assoc. cbn [app]. now rewrite scanstring_encoded.
Qed.

Lemma dict_set_fresh (key : pystr) (v : json) (d : pydict) :
  ~ In key (List.map fst d) -> dict_set key v d = d ++ [(key, v)].
Proof.
  induction d as [|[k x] d IH]; intros Hk; [reflexivity|].
  cbn [dict_set List.map fst In app] in *.
  destruct (str_eqb k key) eqn:E.
  - apply str_eqb_eq in E. exfalso. apply Hk. now left.
  - rewrite IH by (intros Hin; apply Hk; now right). reflexivity.
Qed.

Lemma dict_of_pairs_nodup (d : pydict) : NoDup (List.map fst d) -> dict_of_pairs d = d.
Proof.
  unfold dict_of_pairs.
  assert (H : forall acc, NoDup (List.map fst (acc ++ d)) ->
            fold_left (fun d kv => dict_set (fst kv) (snd kv) d) d acc = acc ++ d);
    [|apply (H [])].
  induction d as [|[k x] d IH]; intros acc Hnd; cbn [fold_left fst snd].
  - now rewrite app_nil_r.
  - rewrite dict_set_fresh.
    + rewrite IH; rewrite <- app_assoc; [reflexivity | exact Hnd].
    + rewrite map_app in Hnd. cbn [List.map fst] in Hnd.
      apply NoDup_remove_2 in Hnd. intros Hin. apply Hnd, in_or_app. now left.
Qed.

Lemma scan_array_items_last (fuel : nat) (tx : pystr) (x : json) (rest : pystr) :
  scan_once fuel (tx ++ RBRACKET :: rest) = Scanned x (RBRACKET :: rest) ->
  scan_array_items (S fuel) (tx ++ RBRACKET :: rest) = Scanned [x] rest.
Proof. intros H. cbn [scan_array_items]. rewrite H. reflexivity. Qed.

Lemma scan_array_items_more (fuel : nat) (tx : pystr) (x : json) (iw more : pystr)
    (xs : list json) (rest : pystr) :
  scan_once fuel (tx ++ COMMA :: iw ++ more) = Scanned x (COMMA :: iw ++ more) ->
  Forall (fun c => is_ws c = true) iw ->
  starts_value more ->
  scan_array_items fuel more = Scanned xs rest ->
  scan_array_items (S fuel) (tx ++ COMMA :: iw ++ more) = Scanned (x :: xs) rest.
Proof.
  intros Hx Hiw Hmore Hxs. cbn [scan_array_items]. rewrite Hx.
  cbn [skip_ws is_ws N.eqb Pos.eqb orb]. rewrite skip_ws_app_ws by assumption.
  destruct more as [|c more]; [contradiction|]. destruct Hmore as (Hc & _).
  rewrite skip_ws_not_ws by assumption. now rewrite Hxs.
Qed.

Lemma scan_object_pairs_last (fuel : nat) (k kw tv : pystr) (v : json) (rest : pystr) :
  str_ok k = true ->
  Forall (fun c => is_ws c = true) kw ->
  starts_value tv ->
  scan_once fuel (tv ++ RBRACE :: rest) = Scanned v (RBRACE :: rest) ->
  scan_object_pairs (S fuel)
    (encode_basestring_ascii k ++ COLON :: kw ++ tv ++ RBRACE :: rest)
  = Scanned [(k, v)] rest.
Proof.
  intros Hk Hkw Htv Hv. unfold encode_basestring_ascii.
  cbn [app scan_object_pairs]. change (QUOTE =? QUOTE) with true. cbv iota.
  rewrite <- app_assoc. cbn [app]. rewrite scanstring_encoded by assumption.
  cbn [skip_ws is_ws N.eqb Pos.eqb orb]. rewrite skip_ws_app_ws by assumption.
  destruct tv as [|c tv]; [contradiction|]. destruct Htv as (Hc & _).
  cbn [app] in *. rewrite skip_ws_not_ws by assumption. rewrite Hv. reflexivity.
Qed.

Lemma scan_object_pairs_more (fuel : nat) (k kw tv : pystr) (v : json) (iw more : pystr)
    (ps : list (pystr * json)) (rest : pystr) :
  str_ok k = true ->
  Forall (fun c => is_ws c = true) kw ->
  starts_value tv ->
  scan_once fuel (tv ++ COMMA :: iw ++ more) = Scanned v (COMMA :: iw ++ more) ->
  Forall (fun c => is_ws c = true) iw ->
  starts_value more ->
  scan_object_pairs fuel more = Scanned ps rest ->
  scan_object_pairs (S fuel)
    (encode_basestring_ascii k ++ COLON :: kw ++ tv ++ COMMA :: iw ++ more)
  = Scanned ((k, v) :: ps) rest.
Proof.
  intros Hk Hkw Htv Hv Hiw Hmore Hps. unfold encode_basestring_ascii.
  cbn [app scan_object_pairs]. change (QUOTE =? QUOTE) with true. cbv iota.
  rewrite <- app_assoc. cbn [app]. rewrite scanstring_encoded by assumption.
  cbn [skip_ws is_ws N.eqb Pos.eqb orb]. rewrite skip_ws_app_ws by assumption.
  destruct tv as [|c tv]; [contradiction|]. destruct Htv as (Hc & _).
  cbn [app] in *. rewrite skip_ws_not_ws by assumption. rewrite Hv.
  cbn [skip_ws is_ws N.eqb Pos.eqb orb]. rewrite skip_ws_app_ws by assumption.
  destruct more as [|c' more]; [contradiction|]. destruct Hmore as (Hc' & _).
  rewrite skip_ws_not_ws by assumption. now rewrite Hps.
Qed.

Lemma starts_value_join (sep p : pystr) (ps : list pystr) :
  starts_value p -> starts_value (join sep (p :: ps)).
Proof.
  intros H. destruct ps as [|q ps]; [exact H|].
  change (join sep (p :: q :: ps)) with (p ++ sep ++ join sep (q :: ps)).
  now apply starts_value_app.
Qed.

Lemma starts_value_encoded (s : pystr) : starts_value (encode_basestring_ascii s).
Proof. cbn. repeat split; discriminate. Qed.

Lemma dumps_with_starts_value (item_separator key_separator : pystr) (obj : json) :
  starts_value (dumps_with item_separator key_separator obj).
Proof using Type floatstr_scans.
  destruct obj as [ |[|]|z|f|s|items|d]; cbn [dumps_with];
    try (cbn; repeat split; discriminate).
  - destruct (int_repr_head z) as (c & t & -> & Hc). cbn [starts_value].
    destruct Hc as [Hc| ->]; [|repeat split; discriminate].
    unfold is_digit in Hc. apply andb_true_iff in Hc as [H1 H2].
    apply N.leb_le in H1, H2. unfold is_ws.
    repeat split; try lia.
    repeat (apply orb_false_iff; split); apply N.eqb_neq; lia.
  - apply floatstr_starts_value.
Qed.

Lemma join_cons (sep p : pystr) (ps : list pystr) :
  ps <> [] -> join sep (p :: ps) = p ++ sep ++ join sep ps.
Proof. destruct ps; [contradiction | reflexivity]. Qed.

Section Separators.

(** The separators of [json.dumps]: a comma or a colon, then whitespace. *)
Variables iw kw : pystr.
Hypothesis iw_ws : Forall (fun c => is_ws c = true) iw.
Hypothesis kw_ws : Forall (fun c => is_ws c = true) kw.

Local Abbreviation dumps_sep := (dumps_with (COMMA :: iw) (COLON :: kw)).
Local Abbreviation pair_text :=
  (fun kv : pystr * json =>
     encode_basestring_ascii (fst kv) ++ (COLON :: kw) ++ dumps_sep (snd kv)).

Local Abbreviation reads_back_sep := (reads_back (COMMA :: iw) (COLON :: kw)).

Lemma items_read_back (items : list json) :
  items <> [] -> Forall reads_back_sep items ->
  forall rest fuel,
    (2 * List.length (join (COMMA :: iw) (List.map dumps_sep items)) + 1 < fuel)%nat ->
    scan_array_items fuel (join (COMMA :: iw) (List.map dumps_sep items) ++ RBRACKET :: rest)
    = Scanned items rest.
Proof using Type floatstr_scans iw_ws.
  induction items as [|x items IH]; [contradiction|].
  intros _ HF rest fuel Hfuel. inversion HF as [|? ? Hx Hitems]; subst.
  destruct fuel as [|fuel]; [lia|].
  destruct items as [|y items].
  - cbn [List.map join] in *. apply scan_array_items_last.
    apply Hx; [cbn; auto | lia].
  - change (List.map dumps_sep (x :: y :: items))
      with (dumps_sep x :: List.map dumps_sep (y :: items)) in *.
    set (more := List.map dumps_sep (y :: items)) in *.
    assert (Hmore : more <> []) by (subst more; discriminate).
    rewrite (join_cons _ _ more Hmore) in Hfuel.
    rewrite (join_cons _ _ more Hmore).
    rewrite !length_app in Hfuel. cbn [List.length] in Hfuel.
    rewrite <- (app_assoc (dumps_sep x)), <- (app_assoc (COMMA :: iw)). cbn [app].
    apply scan_array_items_more.
    + apply Hx; [cbn; auto | lia].
    + exact iw_ws.
    + apply starts_value_app. subst more. cbn [List.map].
      apply starts_value_join, dumps_with_starts_value.
    + apply IH; [discriminate | assumption | lia].
Qed.

Lemma pairs_read_back (d : pydict) :
  d <> [] ->
  Forall (fun kv => str_ok (fst kv) = true /\ reads_back_sep (snd kv)) d ->
  forall rest fuel,
    (2 * List.length (join (COMMA :: iw) (List.map pair_text d)) + 1 < fuel)%nat ->
    scan_object_pairs fuel (join (COMMA :: iw) (List.map pair_text d) ++ RBRACE :: rest)
    = Scanned d rest.
Proof using Type floatstr_scans iw_ws kw_ws.
  induction d as [|[k x] d IH]; [contradiction|].
  intros _ HF rest fuel Hfuel. inversion HF as [|? ? [Hk Hx] Hd]; subst.
  cbn [fst snd] in *.
  destruct fuel as [|fuel]; [lia|].
  destruct d as [|kv d].
  - cbn [List.map join] in *. cbv beta in *. cbn [fst snd] in *.
    rewrite !length_app in Hfuel.
    rewrite <- (app_assoc (encode_basestring_ascii k)).
    rewrite <- (app_assoc (COLON :: kw)). cbn [app].
    apply scan_object_pairs_last; try assumption.
    + apply dumps_with_starts_value.
    + apply Hx; [cbn; auto | cbn [List.length] in Hfuel; lia].
  - change (List.map pair_text ((k, x) :: kv :: d))
      with ((encode_basestring_ascii k ++ (COLON :: kw) ++ dumps_sep x)
              :: List.map pair_text (kv :: d)) in *.
    set (more := List.map pair_text (kv :: d)) in *.
    assert (Hmore : more <> []) by (subst more; discriminate).
    rewrite (join_cons _ _ more Hmore) in Hfuel.
    rewrite (join_cons _ _ more Hmore).
    rewrite !length_app in Hfuel. cbn [List.length] in Hfuel.
    rewrite <- (app_assoc (encode_basestring_ascii k ++ (COLON :: kw) ++ dumps_sep x)).
    rewrite <- (app_assoc (COMMA :: iw)).
    rewrite <- (app_assoc (encode_basestring_ascii k)).
    rewrite <- (app_assoc (COLON :: kw)). cbn [app].
    apply scan_object_pairs_more; try assumption.
    + apply dumps_with_starts_value.
    + apply Hx; [cbn; auto | lia].
    + apply starts_value_app. subst more. cbn [List.map].
      apply starts_value_join, starts_value_app, starts_value_encoded.
    + apply IH; [discriminate | assumption | lia].
Qed.

(** The scanner reads back every well-formed value the encoder printed. *)
Lemma dumps_reads_back (obj : json) : json_wf obj -> reads_back_sep obj.
Proof using Type floatstr_scans iw_ws kw_ws.
  induction obj as [ |b|z|f|s|items IH|d IH] using json_nested_ind;
    intros Hwf rest fuel Hrest Hfuel; (destruct fuel as [|fuel]; [lia|]).
  - reflexivity.
  - destruct b; reflexivity.
  - now apply scan_once_int_repr.
  - now apply scan_once_floatstr.
  - inversion Hwf; subst. now apply scan_once_encoded_string.
  - inversion Hwf as [ | | | | |? Hitems| ]; subst.
    assert (HF : Forall reads_back_sep items).
    { clear Hfuel Hwf. induction IH as [|x items Hx _ IHitems]; [constructor|].
      inversion Hitems; subst. constructor; auto. }
    cbn [dumps_with] in *. destruct items as [|x items]; [reflexivity|].
    cbn [app scan_once]. change (LBRACKET =? QUOTE) with false.
    change (LBRACKET =? LBRACE) with false. change (LBRACKET =? LBRACKET) with true.
    cbv iota. rewrite <- app_assoc. cbn [app].
    set (text := join (COMMA :: iw) (List.map dumps_sep (x :: items))) in *.
    assert (Hstart : starts_value (text ++ RBRACKET :: rest)).
    { apply starts_value_app. subst text. cbn [List.map].
      apply starts_value_join, dumps_with_starts_value. }
    cbn [List.length] in Hfuel. rewrite length_app in Hfuel.
    pose proof (items_read_back (x :: items) ltac:(discriminate) HF rest fuel
                  ltac:(fold text; lia)) as Hscan.
    fold text in Hscan.
    destruct (text ++ RBRACKET :: rest) as [|c t] eqn:E; [contradiction|].
    destruct Hstart as (Hws & Hc & _). rewrite skip_ws_not_ws by assumption.
    destruct (N.eqb_spec c RBRACKET); [contradiction|]. now rewrite Hscan.
  - inversion Hwf as [ | | | | | |? Hnodup Hd]; subst.
    assert (HF : Forall (fun kv => str_ok (fst kv) = true /\ reads_back_sep (snd kv)) d).
    { clear Hfuel Hnodup Hwf. induction IH as [|kv d Hx _ IHd]; [constructor|].
      inversion Hd as [|? ? [Hk Hv] Hd']; subst. constructor; auto. }
    cbn [dumps_with] in *. destruct d as [|kv d]; [reflexivity|].
    cbn [app scan_once]. change (LBRACE =? QUOTE) with false.
    change (LBRACE =? LBRACE) with true.
    cbv iota. rewrite <- app_assoc. cbn [app].
    pose proof (pairs_read_back (kv :: d) ltac:(discriminate) HF rest fuel) as Hscan.
    cbn [List.length] in Hfuel. rewrite length_app in Hfuel.
    match goal with
    | |- context [skip_ws (?t ++ RBRACE :: rest)] => set (text := t) in *
    end.
    specialize (Hscan ltac:(lia)).
    change (scan_object_pairs fuel (text ++ RBRACE :: rest) = Scanned (kv :: d) rest)
      in Hscan.
    assert (Hstart : starts_value (text ++ RBRACE :: rest)).
    { apply starts_value_app. subst text. cbn [List.map].
      apply starts_value_join, starts_value_app, starts_value_encoded. }
    destruct (text ++ RBRACE :: rest) as [|c t] eqn:E; [contradiction|].
    destruct Hstart as (Hws & _ & Hc). rewrite skip_ws_not_ws by assumption.
    destruct (N.eqb_spec c RBRACE); [contradiction|]. rewrite Hscan.
    cbn [scan_map]. now rewrite dict_of_pairs_nodup.
Qed.

(** [json.loads] gives back a well-formed value from the text [json.dumps]
    printed for it. *)
Lemma loads_dumps_with (obj : json) :
  json_wf obj -> loads (dumps_sep obj) = Some obj.
Proof using Type floatstr_scans iw_ws kw_ws.
  intros Hwf. unfold loads.
  pose proof (dumps_with_starts_value (COMMA :: iw) (COLON :: kw) obj) as Hstart.
  pose proof (dumps_reads_back obj Hwf [] (S (2 * List.length (dumps_sep obj))) I
                ltac:(lia)) as Hscan.
  rewrite app_nil_r in Hscan.
  destruct (dumps_sep obj) as [|c t] eqn:E; [contradiction|].
  destruct Hstart as (Hws & _). rewrite skip_ws_not_ws by assumption.
  rewrite Hscan. reflexivity.
Qed.

End Separators.

Lemma loads_dumps (obj : json) : json_wf obj -> loads (dumps obj) = Some obj.
Proof using Type floatstr_scans.
  apply (loads_dumps_with [SPACE] [SPACE]); repeat constructor.
Qed.

Lemma loads_dumps_compact (obj : json) : json_wf obj -> loads (dumps_compact obj) = Some obj.
Proof using Type floatstr_scans. apply (loads_dumps_with [] []); constructor. Qed.

(** ** What the scanner builds is well formed *)

Lemma hex_value_bound (c d : N) : hex_value c = Some d -> d < 16.
Proof.
  unfold hex_value.
  destruct ((48 <=? c) && (c <=? 57)) eqn:H1.
  { intros [= <-]. apply andb_true_iff in H1 as [A B]. apply N.leb_le in A, B. lia. }
  destruct ((97 <=? c) && (c <=? 102)) eqn:H2.
  { intros [= <-]. apply andb_true_iff in H2 as [A B]. apply N.leb_le in A, B. lia. }
  destruct ((65 <=? c) && (c <=? 70)) eqn:H3; [|discriminate].
  intros [= <-]. apply andb_true_iff in H3 as [A B]. apply N.leb_le in A, B. lia.
Qed.

Lemma decode_uXXXX_bound (h1 h2 h3 h4 uni : N) (t : pystr) :
  decode_uXXXX [h1; h2; h3; h4] = Some (uni, t) -> uni < 0x10000.
Proof.
  unfold decode_uXXXX.
  destruct (hex_value h1) as [a|] eqn:Ha; [|discriminate].
  destruct (hex_value h2) as [b|] eqn:Hb; [|discriminate].
  destruct (hex_value h3) as [c|] eqn:Hc; [|discriminate].
  destruct (hex_value h4) as [d|] eqn:Hd; [|discriminate].
  apply hex_value_bound in Ha, Hb, Hc, Hd.
  intros H. assert (Hu : 4096 * a + 256 * b + 16 * c + d = uni) by congruence.
  lia.
Qed.

Lemma str_ok_cons (c : N) (s : pystr) :
  c < 0x110000 -> is_high_surrogate c && head_low s = false -> str_ok s = true ->
  str_ok (c :: s) = true.
Proof.
  intros Hc Hp Hs. cbn [str_ok]. fold (head_low s). rewrite Hp, Hs.
  apply N.ltb_lt in Hc. now rewrite Hc.
Qed.

Lemma backslash_char (esc char : N) :
  backslash esc = Some char ->
  char < 0x110000 /\ is_high_surrogate char = false /\ is_low_surrogate char = false.
Proof.
  unfold backslash.
  repeat match goal with
    | |- context [if ?b then _ else _] => destruct b
    end; intros [= <-]; repeat split; reflexivity.
Qed.

Lemma scalar_char (c : N) :
  is_scalar c = true ->
  c < 0x110000 /\ is_high_surrogate c = false /\ is_low_surrogate c = false.
Proof.
  unfold is_scalar, is_high_surrogate, is_low_surrogate. intros H.
  apply andb_true_iff in H as [H1 H2]. apply N.ltb_lt in H1.
  apply negb_true_iff, andb_false_iff in H2.
  split; [exact H1|].
  destruct H2 as [H2|H2]; [apply N.leb_gt in H2 | apply N.leb_gt in H2];
    split; apply andb_false_iff;
    try (left; apply N.leb_gt; lia); try (right; apply N.leb_gt; lia).
Qed.

Lemma joined_char (uni uni2 : N) :
  is_high_surrogate uni = true -> is_low_surrogate uni2 = true ->
  let c := join_surrogates uni uni2 in
  c < 0x110000 /\ is_high_surrogate c = false /\ is_low_surrogate c = false.
Proof.
  unfold is_high_surrogate, is_low_surrogate, join_surrogates. intros H1 H2.
  apply andb_true_iff in H1 as [A1 B1]. apply andb_true_iff in H2 as [A2 B2].
  apply N.leb_le in A1, B1, A2, B2.
  rewrite lor_shiftl_10 by lia. cbv zeta.
  repeat split; try lia; apply andb_false_iff; right; apply N.leb_gt; lia.
Qed.

Lemma scanstring_str_ok_bounded (n : nat) (s out r : pystr) :
  (List.length s <= n)%nat -> text_ok s -> scanstring s = Scanned out r ->
  str_ok out = true
  /\ (head_low out = true ->
      exists h1 h2 h3 h4 s3 t,
        s = BACKSLASH :: LOWER_U :: h1 :: h2 :: h3 :: h4 :: s3
        /\ decode_uXXXX [h1; h2; h3; h4] = Some (hd 0 out, t)).
Proof.
  revert s out r. induction n as [|n IH]; intros s out r Hn Htext.
  { destruct s; [discriminate | simpl in Hn; lia]. }
  rewrite scanstring_unfold. destruct s as [|c s1]; [discriminate|].
  cbn [List.length] in Hn. inversion Htext as [|? ? Hc Htext1]; subst.
  destruct (c =? QUOTE). { intros [= <- _]. split; [reflexivity | discriminate]. }
  destruct (N.eqb_spec c BACKSLASH) as [->|Hnb].
  - destruct s1 as [|esc s2]; [discriminate|]. cbn [List.length] in Hn.
    inversion Htext1 as [|? ? Hesc Htext2]; subst.
    destruct (N.eqb_spec esc LOWER_U) as [->|Hnu].
    + destruct s2 as [|h1 [|h2 [|h3 [|h4 s3]]]]; try discriminate.
      cbn [List.length] in Hn.
      assert (Htext3 : text_ok s3).
      { do 4 (apply Forall_inv_tail in Htext2). exact Htext2. }
      rewrite scanstring_unicode.
      destruct (decode_uXXXX [h1; h2; h3; h4]) as [[uni t]|] eqn:Hd; [|discriminate].
      pose proof (decode_uXXXX_bound _ _ _ _ _ _ Hd) as Huni.
      assert (Hhead : forall out', hd 0 (uni :: out') = uni) by reflexivity.
      assert (Hcons :
                (forall l1 l2 l3 l4 s5 uni2 t2,
                    is_high_surrogate uni = true ->
                    s3 = BACKSLASH :: LOWER_U :: l1 :: l2 :: l3 :: l4 :: s5 ->
                    decode_uXXXX [l1; l2; l3; l4] = Some (uni2, t2) ->
                    is_low_surrogate uni2 = false) ->
                scan_cons uni (scanstring s3) = Scanned out r ->
                str_ok out = true
                /\ (head_low out = true ->
                    exists h1' h2' h3' h4' s3' t',
                      BACKSLASH :: LOWER_U :: h1 :: h2 :: h3 :: h4 :: s3
                      = BACKSLASH :: LOWER_U :: h1' :: h2' :: h3' :: h4' :: s3'
                      /\ decode_uXXXX [h1'; h2'; h3'; h4'] = Some (hd 0 out, t'))).
      { intros Hpair H. apply scan_cons_scanned in H as (out3 & H & ->).
        apply IH in H as [Hok Hlow]; [|lia|exact Htext3]. split.
        - apply str_ok_cons; [lia | | exact Hok].
          destruct (is_high_surrogate uni) eqn:Hh; [|reflexivity].
          destruct (head_low out3) eqn:Hl; [|reflexivity].
          destruct (Hlow eq_refl) as (l1 & l2 & l3 & l4 & s5 & t2 & Hs3 & Hd2).
          pose proof (Hpair _ _ _ _ _ _ _ eq_refl Hs3 Hd2) as Hnl.
          destruct out3 as [|c3 out3]; [discriminate|]. cbn [head_low hd] in *.
          congruence.
        - intros _. cbn [hd]. now exists h1, h2, h3, h4, s3, t. }
      destruct s3 as [|b [|u s4]];
        try (apply Hcons; intros; discriminate).
      destruct (is_high_surrogate uni && (b =? BACKSLASH) && (u =? LOWER_U)) eqn:Hcond.
      * apply andb_true_iff in Hcond as [Hcond Hu]. apply andb_true_iff in Hcond as [Hh Hb].
        apply N.eqb_eq in Hb, Hu. subst b u.
        destruct s4 as [|l1 [|l2 [|l3 [|l4 s5]]]]; try discriminate.
        destruct (decode_uXXXX [l1; l2; l3; l4]) as [[uni2 t2]|] eqn:Hd2; [|discriminate].
        destruct (is_low_surrogate uni2) eqn:Hl2.
        -- intros H. apply scan_cons_scanned in H as (out5 & H & ->).
           assert (Htext5 : text_ok s5).
           { do 6 (apply Forall_inv_tail in Htext3). exact Htext3. }
           apply IH in H as [Hok _]; [|cbn [List.length] in Hn; lia|exact Htext5].
           destruct (joined_char uni uni2 Hh Hl2) as (Hj1 & Hj2 & Hj3).
           split.
           ++ apply str_ok_cons; [exact Hj1 | now rewrite Hj2 | exact Hok].
           ++ cbn [head_low]. rewrite Hj3. discriminate.
        -- apply Hcons. intros ? ? ? ? ? ? ? _ [= <- <- <- <- <-] Hd2'.
           rewrite Hd2 in Hd2'. now injection Hd2' as <- _.
      * apply Hcons. intros l1 l2 l3 l4 s5 uni2 t2 Hh [= -> -> ->] _.
        rewrite Hh in Hcond. discriminate.
    + destruct (backslash esc) as [char|] eqn:Hb; [|discriminate].
      destruct (backslash_char _ _ Hb) as (Hc1 & Hc2 & Hc3).
      intros H. apply scan_cons_scanned in H as (out' & H & ->).
      apply IH in H as [Hok _]; [|lia|exact Htext2]. split.
      * apply str_ok_cons; [exact Hc1 | now rewrite Hc2 | exact Hok].
      * cbn [head_low]. rewrite Hc3. discriminate.
  - destruct (c <? 32); [discriminate|].
    destruct (scalar_char c Hc) as (Hc1 & Hc2 & Hc3).
    intros H. apply scan_cons_scanned in H as (out' & H & ->).
    apply IH in H as [Hok _]; [|lia|exact Htext1]. split.
    + apply str_ok_cons; [exact Hc1 | now rewrite Hc2 | exact Hok].
    + cbn [head_low]. rewrite Hc3. discriminate.
Qed.

Lemma scanstring_str_ok (s out r : pystr) :
  text_ok s -> scanstring s = Scanned out r -> str_ok out = true.
Proof.
  intros Htext H.
  now destruct (scanstring_str_ok_bounded (List.length s) s out r (Nat.le_refl _) Htext H).
Qed.

(** A pair of a dict as the scanner builds it. *)
Local Abbreviation pair_wf :=
  (fun kv : pystr * json => str_ok (fst kv) = true /\ json_wf (snd kv)).

Lemma dict_set_keys (key : pystr) (v : json) (d : pydict) :
  List.map fst (dict_set key v d) = List.map fst d
  \/ (~ In key (List.map fst d) /\ List.map fst (dict_set key v d) = List.map fst d ++ [key]).
Proof.
  induction d as [|[k x] d IH]; [right; split; [intros [] | reflexivity]|].
  cbn [dict_set]. destruct (str_eqb k key) eqn:E; [now left|].
  cbn [List.map fst]. destruct IH as [->|[Hnin ->]]; [now left|].
  right. split; [|reflexivity]. intros [->|Hin]; [|contradiction].
  now rewrite str_eqb_refl in E.
Qed.

Lemma dict_set_wf (key : pystr) (v : json) (d : pydict) :
  str_ok key = true -> json_wf v ->
  NoDup (List.map fst d) -> Forall pair_wf d ->
  NoDup (List.map fst (dict_set key v d)) /\ Forall pair_wf (dict_set key v d).
Proof.
  intros Hk Hv Hnd Hd. split.
  - destruct (dict_set_keys key v d) as [->|[Hnin ->]]; [assumption|].
    apply NoDup_app; [assumption | repeat constructor; intros [] | ].
    intros x Hx [<-|[]]. contradiction.
  - induction Hd as [|[k x] d [Hkx Hx] Hd IH]; [repeat constructor; assumption|].
    cbn [dict_set]. destruct (str_eqb k key) eqn:E.
    + constructor; [split; assumption | assumption].
    + constructor; [split; assumption|]. apply IH.
      cbn [List.map fst] in Hnd. now inversion Hnd.
Qed.

Lemma dict_of_pairs_wf (pairs : list (pystr * json)) :
  Forall pair_wf pairs ->
  NoDup (List.map fst (dict_of_pairs pairs)) /\ Forall pair_wf (dict_of_pairs pairs).
Proof.
  unfold dict_of_pairs.
  assert (H : forall acc,
             NoDup (List.map fst acc) /\ Forall pair_wf acc ->
             Forall pair_wf pairs ->
             let d := fold_left (fun d kv => dict_set (fst kv) (snd kv) d) pairs acc in
             NoDup (List.map fst d) /\ Forall pair_wf d).
  { induction pairs as [|[k x] pairs IH]; intros acc Hacc Hp; [exact Hacc|].
    inversion Hp as [|? ? [Hk Hx] Hp']; subst. cbn [fold_left fst snd] in *.
    apply IH; [|assumption]. destruct Hacc. now apply dict_set_wf. }
  intros Hp. apply (H [] (conj (NoDup_nil _) (Forall_nil _)) Hp).
Qed.

Lemma text_ok_skip_ws (s : pystr) : text_ok s -> text_ok (skip_ws s).
Proof.
  intros H. destruct (skip_ws_suffix s) as [->|Hr]; [assumption|].
  eapply reads_text_ok; eassumption.
Qed.

Lemma skip_ws_cons_text_ok (s : pystr) (c : N) (s' : pystr) :
  skip_ws s = c :: s' -> text_ok s -> text_ok s'.
Proof. intros H. apply reads_text_ok. eapply skip_ws_cons_reads; exact H. Qed.

(** From a decoded text the scanner builds well-formed values only. *)
Lemma scan_wf (fuel : nat) :
  (forall s v r, text_ok s -> scan_once fuel s = Scanned v r -> json_wf v)
  /\ (forall s vs r, text_ok s -> scan_array_items fuel s = Scanned vs r ->
      Forall json_wf vs)
  /\ (forall s ps r, text_ok s -> scan_object_pairs fuel s = Scanned ps r ->
      Forall pair_wf ps).
Proof.
  induction fuel as [|fuel (IHonce & IHitems & IHpairs)];
    [repeat split; intros; discriminate|].
  repeat split.
  - intros s v r Htext. cbn [scan_once]. destruct s as [|nextchar s1]; [discriminate|].
    pose proof (Forall_inv_tail Htext) as Htext1.
    destruct (nextchar =? QUOTE).
    { intros H. apply scan_map_scanned in H as (out & H & ->).
      constructor. eapply scanstring_str_ok; eassumption. }
    destruct (nextchar =? LBRACE).
    { pose proof (text_ok_skip_ws s1 Htext1) as Hws.
      destruct (skip_ws s1) as [|c s2]; [discriminate|].
      destruct (c =? RBRACE).
      - intros [= <- _]. constructor; constructor.
      - intros H. apply scan_map_scanned in H as (ps & H & ->).
        apply IHpairs in H; [|exact Hws].
        destruct (dict_of_pairs_wf ps H). now constructor. }
    destruct (nextchar =? LBRACKET).
    { pose proof (text_ok_skip_ws s1 Htext1) as Hws.
      destruct (skip_ws s1) as [|c s2]; [discriminate|].
      destruct (c =? RBRACKET).
      - intros [= <- _]. constructor; constructor.
      - intros H. apply scan_map_scanned in H as (vs & H & ->).
        apply IHitems in H; [|exact Hws]. now constructor. }
    destruct (startswith NULL (nextchar :: s1)). { intros [= <- _]. constructor. }
    destruct (startswith TRUE (nextchar :: s1)). { intros [= <- _]. constructor. }
    destruct (startswith FALSE (nextchar :: s1)). { intros [= <- _]. constructor. }
    unfold scan_number.
    destruct (match_number (nextchar :: s1)) as [[[[integer frac] exp] rest]|].
    + destruct frac, exp; intros [= <- _]; constructor.
    + destruct (startswith NAN (nextchar :: s1)). { intros [= <- _]. constructor. }
      destruct (startswith INFINITY (nextchar :: s1)). { intros [= <- _]. constructor. }
      destruct (startswith NEG_INFINITY (nextchar :: s1)); [|discriminate].
      intros [= <- _]. constructor.
  - intros s vs r Htext. cbn [scan_array_items].
    destruct (scan_once fuel s) as [value s1| |] eqn:Hv; [|discriminate..].
    pose proof (IHonce _ _ _ Htext Hv) as Hvalue.
    apply (proj1 (scan_reads fuel)) in Hv. pose proof (reads_text_ok _ _ Hv Htext) as Htext1.
    destruct (skip_ws s1) as [|c s2] eqn:Hws; [discriminate|].
    destruct (c =? RBRACKET). { intros [= <- _]. now repeat constructor. }
    destruct (c =? COMMA); [|discriminate].
    intros H. apply scan_map_scanned in H as (vs' & H & ->).
    constructor; [exact Hvalue|]. eapply IHitems; [|exact H].
    apply text_ok_skip_ws. eapply skip_ws_cons_text_ok; eassumption.
  - intros s ps r Htext. cbn [scan_object_pairs]. destruct s as [|q s1]; [discriminate|].
    pose proof (Forall_inv_tail Htext) as Htext1.
    destruct (q =? QUOTE); [|discriminate].
    destruct (scanstring s1) as [key s2| |] eqn:Hk; [|discriminate..].
    pose proof (scanstring_str_ok _ _ _ Htext1 Hk) as Hkey.
    apply scanstring_reads in Hk. pose proof (reads_text_ok _ _ Hk Htext1) as Htext2.
    destruct (skip_ws s2) as [|c s3] eqn:Hws2; [discriminate|].
    destruct (c =? COLON); [|discriminate].
    pose proof (skip_ws_cons_text_ok _ _ _ Hws2 Htext2) as Htext3.
    apply text_ok_skip_ws in Htext3.
    destruct (scan_once fuel (skip_ws s3)) as [value s4| |] eqn:Hv; [|discriminate..].
    pose proof (IHonce _ _ _ Htext3 Hv) as Hvalue.
    apply (proj1 (scan_reads fuel)) in Hv. pose proof (reads_text_ok _ _ Hv Htext3) as Htext4.
    destruct (skip_ws s4) as [|c' s5] eqn:Hws4; [discriminate|].
    destruct (c' =? RBRACE). { intros [= <- _]. now repeat constructor. }
    destruct (c' =? COMMA); [|discriminate].
    intros H. apply scan_map_scanned in H as (ps' & H & ->).
    constructor; [now split|]. eapply IHpairs; [|exact H].
    apply text_ok_skip_ws. eapply skip_ws_cons_text_ok; eassumption.
Qed.

Lemma loads_wf (text : pystr) (obj : json) :
  text_ok text -> loads text = Some obj -> json_wf obj.
Proof.
  intros Htext. unfold loads.
  destruct (scan_once (S (2 * List.length text)) (skip_ws text)) as [v r| |] eqn:Hv;
    [|discriminate..].
  destruct (skip_ws r); [|discriminate]. intros [= <-].
  eapply (proj1 (scan_wf _)); [|exact Hv]. now apply text_ok_skip_ws.
Qed.

(** [loads] answers [None] only for a text the scanner rejects: its budget
    is never the reason. *)
Lemma loads_in_budget (text : pystr) :
  scan_once (S (2 * List.length text)) (skip_ws text) <> OutOfFuel.
Proof.
  apply (proj1 (scan_enough_fuel _)). pose proof (skip_ws_length text). lia.
Qed.

(** ** Output canonicalization and id backfill *)

Lemma text_ok_lstrip (s : pystr) : text_ok s -> text_ok (lstrip s).
Proof.
  induction 1 as [|c s Hc Hs IH]; [constructor|]. cbn [lstrip].
  destruct (isspace c); [exact IH | now constructor].
Qed.

Lemma text_ok_strip (s : pystr) : text_ok s -> text_ok (strip s).
Proof.
  intros H. unfold strip, rstrip.
  apply Forall_rev, text_ok_lstrip, Forall_rev, text_ok_lstrip, H.
Qed.

Lemma text_ok_ascii_literal : text_ok ID.
Proof. repeat constructor. Qed.

Lemma replace_char_absent (old : N) (new text : pystr) :
  ~ In old text -> replace_char old new text = text.
Proof.
  unfold replace_char. induction text as [|c text IH]; intros H; [reflexivity|].
  cbn [flat_map]. destruct (N.eqb_spec c old) as [->|].
  - exfalso. apply H. now left.
  - cbn [app]. f_equal. apply IH. intros Hin. apply H. now right.
Qed.

Lemma json_loads_returned (where_ : caller) (text : pystr) (obj : json) :
  json_loads where_ text = LoadsReturned obj <->
  loads_raises where_ text = None /\ loads text = Some obj.
Proof.
  unfold json_loads. destruct (loads_raises where_ text); [split; [|intros [? _]]; discriminate|].
  destruct (loads text); split; try discriminate.
  - now intros [= ->].
  - now intros [_ [= ->]].
  - now intros [_ ?].
Qed.

(** C9, amended.  On a body that [json.loads] reads, the canonicalization
    prints a single line and is idempotent: canonicalizing that line again
    prints the same line, unless the interpreter meets one of its limits on
    the line, and then [write_response] raises and prints nothing.  So a
    body that is itself a line the step produced is emitted unchanged. *)
Theorem write_response_idempotent (response : pystr) (obj : json) :
  text_ok response ->
  json_loads in_write_response response = LoadsReturned obj ->
  exists line,
    write_response response = Returned line
    /\ single_line line
    /\ match loads_raises in_write_response line with
       | None => write_response line = Returned line
       | Some e => write_response line = Raised e
       end.
Proof using Type floatstr_scans floatstr_single_line.
  intros Htext Hloads. exists (dumps_compact obj).
  assert (Hprinted : write_response response = Returned (dumps_compact obj))
    by (unfold write_response; now rewrite Hloads).
  split; [exact Hprinted|].
  split; [eapply single_line_write_response; exact Hprinted|].
  apply json_loads_returned in Hloads as [_ Hloads].
  unfold write_response, json_loads.
  destruct (loads_raises in_write_response (dumps_compact obj)); [reflexivity|].
  rewrite loads_dumps_compact; [reflexivity|]. eapply loads_wf; eassumption.
Qed.

(** C8, amended.  When the request carries an id that is not null and the
    forwarder returns a body that is not empty: if [json.loads] reads the
    body as a JSON object without an [id] key, the line emitted is the
    compact encoding of that object with the id of the request added, and
    it parses back to that object; if [json.loads] raises a
    [JSONDecodeError] on the body, the line emitted is the body with each
    line feed replaced by a space and each carriage return removed, which
    is the body itself when it holds neither.  Both hold as long as
    [json.loads] meets no limit of the interpreter in [write_response];
    when it does, the line emitted is the error object with a null id,
    code -32603 and the text of the exception. *)
Theorem response_id_backfilled_or_body_flattened
    (up : upstream) (host : pystr) (port : Z) (session_id : option pystr)
    (raw_line : pystr) (request_obj : pydict) (request_id : json)
    (req : option request) (printed : list pystr) (response : pystr)
    (new_session_id : option pystr) :
  text_ok raw_line ->
  json_loads in_main (strip raw_line) = LoadsReturned (JObj request_obj) ->
  dict_get ID request_obj = Some request_id ->
  is_none request_id = false ->
  forward_request up host port (strip raw_line) session_id
  = (req, printed, Returned (response, new_session_id)) ->
  response <> [] ->
  text_ok response ->
  let emitted := turn_emitted (process_line up host port session_id raw_line) in
  (forall d,
      json_loads in_main response = LoadsReturned (JObj d) -> dict_get ID d = None ->
      loads_raises in_write_response (dumps (JObj (d ++ [(ID, request_id)]))) = None ->
      emitted = [dumps_compact (JObj (d ++ [(ID, request_id)]))]
      /\ loads (dumps_compact (JObj (d ++ [(ID, request_id)])))
         = Some (JObj (d ++ [(ID, request_id)]))
      /\ dict_get ID (d ++ [(ID, request_id)]) = Some request_id)
  /\ (loads response = None ->
      loads_raises in_write_response response = None ->
      emitted = [replace_char CR [] (replace_char LF [SPACE] response)]
      /\ (~ In LF response -> ~ In CR response -> emitted = [response]))
  /\ (forall e,
        loads_raises in_write_response (backfill_id request_id response) = Some e ->
        emitted = [write_error JNull (-32603) e]).
Proof using Type floatstr_scans.
  intros Htext Hreq Hid Hnone Hfwd Hne Hresp emitted.
  assert (Hemit : emitted = [answer (backfill_id request_id response)]).
  { subst emitted. unfold process_line.
    assert (Hline : strip raw_line <> []).
    { intros E. rewrite E in Hreq. apply json_loads_returned in Hreq as [_ Hreq].
      discriminate. }
    destruct (strip raw_line) as [|c line] eqn:Hs; [congruence|].
    cbn [str_bool negb]. rewrite Hreq. cbn [py_get]. rewrite Hid, Hfwd.
    cbn [turn_emitted]. destruct response; [congruence | reflexivity]. }
  apply json_loads_returned in Hreq as [_ Hreq].
  assert (Hrid : json_wf request_id).
  { pose proof (loads_wf _ _ (text_ok_strip _ Htext) Hreq) as Hwf.
    inversion Hwf as [ | | | | | |? _ Hpairs]; subst.
    clear -Hid Hpairs. induction Hpairs as [|[k x] d [_ Hx] _ IH]; [discriminate|].
    cbn [dict_get] in Hid. destruct (str_eqb k ID); [now injection Hid as <- | auto]. }
  split; [|split].
  - intros d Hloads Hnoid Hlimit.
    assert (Hfresh : ~ In ID (List.map fst d)).
    { clear -Hnoid. induction d as [|[k x] d IH]; [intros []|].
      cbn [dict_get] in Hnoid. destruct (str_eqb k ID) eqn:E; [discriminate|].
      cbn [List.map fst In]. intros [Hk|Hin]; [|now apply IH].
      subst k. now rewrite str_eqb_refl in E. }
    assert (Hwf : json_wf (JObj (d ++ [(ID, request_id)]))).
    { apply json_loads_returned in Hloads as [_ Hloads].
      pose proof (loads_wf _ _ Hresp Hloads) as Hd.
      inversion Hd as [ | | | | | |? Hnd Hpairs]; subst.
      destruct (dict_set_wf ID request_id d eq_refl Hrid Hnd Hpairs) as [Hnd' Hp'].
      rewrite dict_set_fresh in Hnd', Hp' by assumption. now constructor. }
    repeat split.
    + rewrite Hemit. unfold backfill_id. rewrite Hloads, Hnone. cbn [py_get].
      rewrite Hnoid. cbn [is_none]. rewrite dict_set_fresh by assumption.
      unfold answer, write_response, json_loads. rewrite Hlimit.
      now rewrite loads_dumps.
    + now apply loads_dumps_compact.
    + clear -Hfresh. induction d as [|[k x] d IH]; cbn [app dict_get].
      * now rewrite str_eqb_refl.
      * destruct (str_eqb k ID) eqn:E.
        -- apply str_eqb_eq in E. subst k. exfalso. apply Hfresh. now left.
        -- apply IH. intros Hin. apply Hfresh. now right.
  - intros Hloads Hlimit.
    assert (E : emitted = [replace_char CR [] (replace_char LF [SPACE] response)]).
    { rewrite Hemit. unfold backfill_id, json_loads at 1. rewrite Hloads.
      destruct (loads_raises in_main response);
        unfold answer, write_response, json_loads; now rewrite Hlimit, Hloads. }
    split; [exact E|]. intros Hlf Hcr. rewrite E.
    now rewrite (replace_char_absent LF), (replace_char_absent CR).
  - intros e Hlimit. rewrite Hemit. unfold answer, write_response, json_loads.
    now rewrite Hlimit.
Qed.

Lemma text_ok_by_check (text : pystr) : forallb is_scalar text = true -> text_ok text.
Proof. intros H. apply Forall_forall. now apply forallb_forall. Qed.

(** ** Discovery: the order and the extent of the probes *)

Lemma probe_in_order_app (check : list probe -> probe -> bool)
    (s1 s2 : list probe) (log : list probe) :
  probe_in_order check log (s1 ++ s2)
  = match probe_in_order check log s1 with
    | (Some found, log') => (Some found, log')
    | (None, log') => probe_in_order check log' s2
    end.
Proof.
  revert log; induction s1 as [|p s1 IH]; intros log; cbn [app probe_in_order].
  - reflexivity.
  - destruct (check log p); [reflexivity | apply IH].
Qed.

Lemma probe_configured_in_order (check : list probe -> probe -> bool)
    (hosts : list pystr) (port : Z) (log : list probe) :
  probe_configured check log hosts port
  = probe_in_order check log (List.map (fun h => (h, port)) hosts).
Proof.
  revert log; induction hosts as [|h hosts IH]; intros log;
    cbn [probe_configured List.map probe_in_order]; [reflexivity|].
  destruct (check log (h, port)); [reflexivity | apply IH].
Qed.

Lemma probe_ports_in_order (check : list probe -> probe -> bool)
    (host : pystr) (port : Z) (h : pystr) (ports : list Z) (log : list probe) :
  probe_ports check log host port h ports
  = probe_in_order check log
      (List.map (pair h)
         (filter (fun p => negb ((p =? port)%Z && str_eqb h host)) ports)).
Proof.
  revert log; induction ports as [|p ports IH]; intros log;
    cbn [probe_ports filter]; [reflexivity|].
  destruct ((p =? port)%Z && str_eqb h host); cbn [negb List.map probe_in_order];
    [apply IH|].
  destruct (check log (h, p)); [reflexivity | apply IH].
Qed.

Lemma probe_range_in_order (check : list probe -> probe -> bool)
    (host : pystr) (port : Z) (hosts : list pystr) (log : list probe) :
  probe_range check log host port hosts
  = probe_in_order check log
      (flat_map (fun h => List.map (pair h) (ports_to_scan host port h)) hosts).
Proof.
  revert log; induction hosts as [|h hosts IH]; intros log;
    cbn [probe_range flat_map]; [reflexivity|].
  rewrite probe_in_order_app, probe_ports_in_order. unfold ports_to_scan at 1.
  destruct (probe_in_order check log _) as [[found|] log']; [reflexivity | apply IH].
Qed.

(** The two loops of [find_ue5_server] probe the pairs of the schedule one
    after the other and stop at the first that answers. *)
Lemma find_ue5_server_in_order (check : list probe -> probe -> bool)
    (host : pystr) (port : Z) :
  find_ue5_server check host port = probe_in_order check [] (probe_schedule host port).
Proof.
  unfold find_ue5_server, probe_schedule. fold (hosts_to_try host).
  rewrite probe_in_order_app, probe_configured_in_order.
  destruct (probe_in_order check [] _) as [[found|] log]; [reflexivity|].
  apply probe_range_in_order.
Qed.

Lemma all_failed_nil (check : list probe -> probe -> bool) : all_failed check [].
Proof. intros [|q before] p after H; discriminate H. Qed.

Lemma all_failed_snoc (check : list probe -> probe -> bool) (log : list probe) (p : probe) :
  all_failed check log -> check log p = false -> all_failed check (log ++ [p]).
Proof.
  intros Hlog Hp before q after Heq.
  destruct after as [|a after].
  - apply app_inj_tail in Heq as [<- <-]. exact Hp.
  - destruct (@exists_last _ (a :: after)) as (after' & x & Hx); [discriminate|].
    rewrite Hx, app_comm_cons, app_assoc in Heq.
    apply app_inj_tail in Heq as [Heq _]. exact (Hlog _ _ _ Heq).
Qed.

Lemma probe_in_order_outcome (check : list probe -> probe -> bool)
    (schedule : list probe) (log : list probe) :
  all_failed check log ->
  match probe_in_order check log schedule with
  | (Some found, log') =>
      exists before, log' = before ++ [found]
                     /\ all_failed check before /\ check before found = true
  | (None, log') => all_failed check log' /\ log' = log ++ schedule
  end.
Proof.
  revert log; induction schedule as [|p schedule IH]; intros log Hlog;
    cbn [probe_in_order].
  - split; [assumption | now rewrite app_nil_r].
  - destruct (check log p) eqn:Hp.
    + now exists log.
    + specialize (IH (log ++ [p]) (all_failed_snoc check log p Hlog Hp)).
      destruct (probe_in_order check (log ++ [p]) schedule) as [[found|] log'];
        [exact IH|].
      destruct IH as [Hall ->]. split; [assumption | now rewrite <- app_assoc].
Qed.

Lemma probe_in_order_prefix (check : list probe -> probe -> bool)
    (schedule : list probe) (log : list probe) :
  exists more rest,
    snd (probe_in_order check log schedule) = log ++ more /\ schedule = more ++ rest.
Proof.
  revert log; induction schedule as [|p schedule IH]; intros log;
    cbn [probe_in_order].
  - exists [], []. now rewrite app_nil_r.
  - destruct (check log p).
    + now exists [p], schedule.
    + destruct (IH (log ++ [p])) as (more & rest & -> & ->).
      exists (p :: more), rest. now rewrite <- app_assoc.
Qed.

(** X1.  [find_ue5_server] returns the first pair that answers: when it
    returns a pair, that pair is the last probe made, its health check
    succeeded and every probe before it failed; when it returns [None],
    every pair of the schedule was probed and failed. *)
Theorem find_ue5_server_first_healthy (check : list probe -> probe -> bool)
    (host : pystr) (port : Z) :
  match find_ue5_server check host port with
  | (Some found, log) =>
      exists before, log = before ++ [found]
                     /\ all_failed check before /\ check before found = true
  | (None, log) => all_failed check log /\ log = probe_schedule host port
  end.
Proof.
  rewrite find_ue5_server_in_order.
  apply (probe_in_order_outcome check (probe_schedule host port) [] (all_failed_nil check)).
Qed.

(** X2.  The probes are made in a fixed order: the configured port on each
    candidate host, then host by host the ports 27000 to 27010 in ascending
    order.  What was probed is always an initial part of that schedule. *)
Theorem find_ue5_server_host_major_port_minor (check : list probe -> probe -> bool)
    (host : pystr) (port : Z) :
  exists rest, probe_schedule host port = snd (find_ue5_server check host port) ++ rest.
Proof.
  rewrite find_ue5_server_in_order.
  destruct (probe_in_order_prefix check (probe_schedule host port) [])
    as (more & rest & -> & ->).
  now exists rest.
Qed.

Lemma py_range_length (lo hi : Z) : List.length (py_range lo hi) = Z.to_nat (hi - lo).
Proof. unfold py_range. now rewrite length_map, length_seq. Qed.

Lemma py_range_In (lo hi p : Z) : In p (py_range lo hi) -> (lo <= p < hi)%Z.
Proof.
  unfold py_range. intros H. apply in_map_iff in H as (i & <- & Hi).
  apply in_seq in Hi. lia.
Qed.

Lemma py_range_NoDup (lo hi : Z) : NoDup (py_range lo hi).
Proof.
  unfold py_range. apply NoDup_map_NoDup_ForallPairs; [|apply seq_NoDup].
  intros i j _ _ H. lia.
Qed.

Lemma probe_schedule_length (host : pystr) (port : Z) :
  (List.length (probe_schedule host port)
   <= if str_eqb host LOCALHOST then 24 else 12)%nat.
Proof.
  assert (Hscan : forall h, (List.length (List.map (pair h) (ports_to_scan host port h))
                             <= 11)%nat).
  { intros h. rewrite length_map. unfold ports_to_scan.
    etransitivity; [apply filter_length_le|]. now rewrite py_range_length. }
  unfold probe_schedule, hosts_to_try.
  destruct (str_eqb host LOCALHOST); cbn [List.map flat_map];
    rewrite !length_app; cbn [List.length].
  - pose proof (Hscan LOOPBACK). pose proof (Hscan LOCALHOST). lia.
  - pose proof (Hscan host). lia.
Qed.

(** X3.  Discovery makes at most 12 probes, or 24 when the configured host
    is [localhost]. *)
Theorem find_ue5_server_probe_budget (check : list probe -> probe -> bool)
    (host : pystr) (port : Z) :
  (List.length (snd (find_ue5_server check host port))
   <= if str_eqb host LOCALHOST then 24 else 12)%nat.
Proof.
  rewrite find_ue5_server_in_order.
  destruct (probe_in_order_prefix check (probe_schedule host port) [])
    as (more & rest & -> & Hs).
  pose proof (probe_schedule_length host port) as Hlen.
  rewrite Hs, length_app in Hlen. cbn [app].
  destruct (str_eqb host LOCALHOST); lia.
Qed.

(** X4.  Discovery never probes anything but a candidate host (the
    configured one, or the loopback address and [localhost] when
    [localhost] is configured), and on it only the configured port or a
    port from 27000 to 27010. *)
Theorem find_ue5_server_probes_only_candidates (check : list probe -> probe -> bool)
    (host : pystr) (port : Z) :
  Forall (fun '(h, p) =>
            (if str_eqb host LOCALHOST then h = LOOPBACK \/ h = LOCALHOST else h = host)
            /\ (p = port \/ (27000 <= p <= 27010)%Z))
    (snd (find_ue5_server check host port)).
Proof.
  rewrite find_ue5_server_in_order.
  destruct (probe_in_order_prefix check (probe_schedule host port) [])
    as (more & rest & -> & Hs).
  cbn [app]. apply Forall_forall. intros [h p] Hin.
  assert (Hsched : In (h, p) (probe_schedule host port))
    by (rewrite Hs; apply in_or_app; now left).
  assert (Hhost : In h (hosts_to_try host)
                  -> if str_eqb host LOCALHOST then h = LOOPBACK \/ h = LOCALHOST
                     else h = host).
  { unfold hosts_to_try. destruct (str_eqb host LOCALHOST); cbn [In].
    - intros [<-|[<-|[]]]; [now left | now right].
    - now intros [<-|[]]. }
  unfold probe_schedule in Hsched. apply in_app_or in Hsched as [H|H].
  - apply in_map_iff in H as (h' & [= -> ->] & Hh). split; [exact (Hhost Hh) | now left].
  - apply in_flat_map in H as (h' & Hh & H).
    apply in_map_iff in H as (p' & [= -> ->] & Hp). split; [exact (Hhost Hh)|].
    unfold ports_to_scan in Hp. apply filter_In in Hp as [Hp _].
    apply py_range_In in Hp. right. lia.
Qed.

(** X5.  When the configured host is not [localhost], no pair is probed
    twice: the scan skips the configured pair. *)
Theorem find_ue5_server_no_repeat (check : list probe -> probe -> bool)
    (host : pystr) (port : Z) :
  str_eqb host LOCALHOST = false ->
  NoDup (snd (find_ue5_server check host port)).
Proof.
  intros Hhost. rewrite find_ue5_server_in_order.
  destruct (probe_in_order_prefix check (probe_schedule host port) [])
    as (more & rest & -> & Hs).
  cbn [app]. apply (NoDup_app_remove_r more rest). rewrite <- Hs.
  unfold probe_schedule, hosts_to_try. rewrite Hhost.
  cbn [List.map flat_map app]. rewrite app_nil_r. constructor.
  - intros H. apply in_map_iff in H as (p & [= ->] & Hp).
    unfold ports_to_scan in Hp. apply filter_In in Hp as [_ Hp].
    now rewrite Z.eqb_refl, str_eqb_refl in Hp.
  - apply NoDup_map_NoDup_ForallPairs; [now intros p q _ _ [= ->]|].
    unfold ports_to_scan. apply NoDup_filter, py_range_NoDup.
Qed.

(** ** What the stream consumer prints and returns *)

Lemma parse_sse_line_single_line (acc : pystr * pystr) (line : pystr) :
  single_line line -> single_line (fst acc) /\ single_line (snd acc) ->
  single_line (fst (parse_sse_line acc line)) /\ single_line (snd (parse_sse_line acc line)).
Proof.
  intros Hline [Ht Hd]. destruct acc as [event_type data]. unfold parse_sse_line.
  cbn [fst snd] in *.
  destruct (startswith EVENT_PREFIX line); cbn [fst snd].
  - split; [|assumption]. now apply Forall_strip, Forall_skipn_kept.
  - destruct (startswith DATA_PREFIX line); cbn [fst snd]; [|now split].
    split; [assumption|]. now apply Forall_strip, Forall_skipn_kept.
Qed.

(** Neither field of a parsed event holds a line feed. *)
Lemma parse_sse_event_single_line (event_str : pystr) :
  single_line (fst (parse_sse_event event_str))
  /\ single_line (snd (parse_sse_event event_str)).
Proof.
  unfold parse_sse_event.
  assert (Hstart : single_line (fst (MESSAGE, @nil N)) /\ single_line (snd (MESSAGE, @nil N))).
  { split; [|constructor]. repeat (constructor; [discriminate|]). constructor. }
  revert Hstart. generalize (MESSAGE, @nil N).
  pose proof (split_char_pieces LF event_str) as Hlines. revert Hlines.
  generalize (split_char LF event_str) as lines.
  induction lines as [|line lines IH]; intros Hlines acc Hacc; [exact Hacc|].
  inversion Hlines; subst. cbn [fold_left]. apply IH; [assumption|].
  now apply parse_sse_line_single_line.
Qed.

Lemma split_blank_line_spec (buffer event_str buffer' : pystr) :
  split_blank_line buffer = Some (event_str, buffer') ->
  buffer = event_str ++ LF :: LF :: buffer'.
Proof.
  revert event_str; induction buffer as [|c rest IH]; intros event_str; [discriminate|].
  cbn [split_blank_line]. destruct (startswith [LF; LF] (c :: rest)) eqn:Hs.
  - intros [= <- <-]. apply startswith_skipn in Hs. cbn [List.length skipn app] in Hs.
    destruct rest as [|d rest]; [discriminate Hs|]. cbn [skipn app] in *. exact Hs.
  - destruct (split_blank_line rest) as [[before after]|]; [|discriminate].
    intros [= <- <-]. cbn [app]. f_equal. now apply IH.
Qed.

Lemma block_in_app_l (before text event_str : pystr) :
  block_in text event_str -> block_in (before ++ text) event_str.
Proof.
  intros (b & a & ->). exists (before ++ b), a. now rewrite <- app_assoc.
Qed.

Lemma block_in_app_r (text after event_str : pystr) :
  block_in text event_str -> block_in (text ++ after) event_str.
Proof.
  intros (b & a & ->). exists b, (a ++ after).
  rewrite <- app_assoc. f_equal. now rewrite <- app_assoc.
Qed.

(** A line the consumer prints: not empty, one line, and the data of a
    [progress] or [notification] event that stands in the text read. *)
Local Abbreviation pushed_from text :=
  (fun line : pystr =>
     line <> [] /\ single_line line
     /\ exists event_str event_type,
          block_in text event_str
          /\ parse_sse_event event_str = (event_type, line)
          /\ (event_type = PROGRESS \/ event_type = NOTIFICATION)).

(** The final response is the one the loop started with, or the data of a
    terminal event that stands in the text read. *)
Local Abbreviation final_from text final_response final' :=
  (final' = final_response
   \/ exists event_str data,
        block_in text event_str
        /\ final' = Some data
        /\ (parse_sse_event event_str = (RESPONSE, data)
            \/ parse_sse_event event_str = (RESULT, data))).

Lemma sse_events_output (fuel : nat) (buffer : pystr) (final_response : option pystr) :
  Forall (pushed_from buffer) (fst (fst (sse_events fuel buffer final_response)))
  /\ final_from buffer final_response (snd (fst (sse_events fuel buffer final_response)))
  /\ exists consumed, buffer = consumed ++ snd (sse_events fuel buffer final_response).
Proof.
  revert buffer; induction fuel as [|fuel IH]; intros buffer; cbn [sse_events].
  - split; [constructor|]. split; [now left | now exists []].
  - destruct (split_blank_line buffer) as [[event_str buffer']|] eqn:Hsplit;
      [|split; [constructor|]; split; [now left | now exists []]].
    apply split_blank_line_spec in Hsplit.
    assert (Hblock : block_in buffer event_str) by (exists [], buffer'; exact Hsplit).
    assert (Hlater : forall e, block_in buffer' e -> block_in buffer e).
    { intros e He. rewrite Hsplit.
      change (event_str ++ LF :: LF :: buffer') with (event_str ++ [LF; LF] ++ buffer').
      rewrite app_assoc. now apply block_in_app_l. }
    assert (Hrest : forall consumed tail,
               buffer' = consumed ++ tail -> exists consumed', buffer = consumed' ++ tail).
    { intros consumed tail ->. exists (event_str ++ LF :: LF :: consumed).
      rewrite Hsplit, <- app_assoc. reflexivity. }
    destruct (parse_sse_event event_str) as [event_type event_data] eqn:Hparse.
    specialize (IH buffer').
    destruct (str_eqb event_type PROGRESS || str_eqb event_type NOTIFICATION) eqn:Hpush.
    + destruct (sse_events fuel buffer' final_response) as [[printed final'] buffer''].
      cbn [fst snd] in *. destruct IH as (Hprinted & Hfinal & consumed & Hconsumed).
      split; [|split].
      * apply Forall_app. split.
        -- destruct event_data as [|c event_data]; cbn [str_bool]; constructor;
             [|constructor]. split; [discriminate|].
           pose proof (parse_sse_event_single_line event_str) as [_ Hdata].
           rewrite Hparse in Hdata. split; [exact Hdata|].
           exists event_str, event_type. split; [exact Hblock|]. split; [exact Hparse|].
           apply orb_true_iff in Hpush as [H|H]; apply str_eqb_eq in H; auto.
        -- eapply Forall_impl; [|exact Hprinted].
           intros line (Hne & Hline & e & t & He & Hp & Ht).
           split; [exact Hne|]. split; [exact Hline|]. exists e, t. auto.
      * destruct Hfinal as [->|(e & data & He & -> & Hp)]; [now left|].
        right. exists e, data. auto.
      * eapply Hrest; exact Hconsumed.
    + destruct (str_eqb event_type RESPONSE || str_eqb event_type RESULT) eqn:Hterminal.
      * cbn [fst snd]. split; [constructor|]. split.
        -- right. exists event_str, event_data. split; [exact Hblock|].
           split; [reflexivity|].
           apply orb_true_iff in Hterminal as [H|H]; apply str_eqb_eq in H;
             subst event_type; [now left | now right].
        -- exists (event_str ++ [LF; LF]). rewrite Hsplit, <- app_assoc. reflexivity.
      * destruct IH as (Hprinted & Hfinal & consumed & Hconsumed). split; [|split].
        -- eapply Forall_impl; [|exact Hprinted].
           intros line (Hne & Hline & e & t & He & Hp & Ht).
           split; [exact Hne|]. split; [exact Hline|]. exists e, t. auto.
        -- destruct Hfinal as [->|(e & data & He & -> & Hp)]; [now left|].
           right. exists e, data. auto.
        -- eapply Hrest; exact Hconsumed.
Qed.

Lemma sse_chunks_output (reads : list read_result) (buffer : pystr)
    (final_response : option pystr) :
  Forall (pushed_from (buffer ++ stream_text reads))
    (fst (sse_chunks reads buffer final_response))
  /\ match snd (sse_chunks reads buffer final_response) with
     | Returned final' => final_from (buffer ++ stream_text reads) final_response final'
     | Raised _ => True
     end.
Proof.
  revert buffer final_response.
  induction reads as [|[[|c chunk]|e] reads IH]; intros buffer final_response;
    cbn [sse_chunks str_bool fst snd].
  - split; [constructor | now left].
  - split; [constructor | now left].
  - cbv zeta. cbn [stream_text]. set (chunk1 := c :: chunk). rewrite app_assoc.
    pose proof (sse_events_output (S (List.length (buffer ++ chunk1))) (buffer ++ chunk1)
                  final_response) as (Hprinted & Hfinal & consumed & Hconsumed).
    destruct (sse_events (S (List.length (buffer ++ chunk1))) (buffer ++ chunk1)
                final_response) as [[printed final'] buffer2].
    cbn [fst snd] in Hprinted, Hfinal, Hconsumed.
    assert (Hfirst : forall e, block_in (buffer ++ chunk1) e
                               -> block_in ((buffer ++ chunk1) ++ stream_text reads) e)
      by (intros e; apply block_in_app_r).
    assert (Hprinted1 : Forall (pushed_from ((buffer ++ chunk1) ++ stream_text reads))
                          printed).
    { eapply Forall_impl; [|exact Hprinted].
      intros line (Hne & Hline & e & t & He & Hp & Ht).
      split; [exact Hne|]. split; [exact Hline|]. exists e, t. auto. }
    assert (Hfinal1 : final_from ((buffer ++ chunk1) ++ stream_text reads)
                        final_response final').
    { destruct Hfinal as [->|(e & data & He & -> & Hp)]; [now left|].
      right. exists e, data. auto. }
    destruct (opt_bool final'); [now split|].
    specialize (IH buffer2 final').
    destruct (sse_chunks reads buffer2 final') as [printed' r].
    cbn [fst snd] in *. destruct IH as [Hprinted' Hr].
    assert (Hlater : forall e, block_in (buffer2 ++ stream_text reads) e
                               -> block_in ((buffer ++ chunk1) ++ stream_text reads) e).
    { intros e He. rewrite Hconsumed, <- app_assoc. now apply block_in_app_l. }
    split.
    + apply Forall_app. split; [exact Hprinted1|].
      eapply Forall_impl; [|exact Hprinted'].
      intros line (Hne & Hline & e & t & He & Hp & Ht).
      split; [exact Hne|]. split; [exact Hline|]. exists e, t. auto.
    + destruct r as [final''|]; [|exact I].
      destruct Hr as [->|(e & data & He & -> & Hp)]; [exact Hfinal1|].
      right. exists e, data. auto.
  - split; [constructor | exact I].
Qed.

(** What leaves [handle_sse_response] comes from the events of a stream it
    opened. *)
Lemma handle_sse_response_output (up : upstream) (host response_body : pystr)
    (session_id : option pystr) :
  let outcome := handle_sse_response up host response_body session_id in
  (fst outcome = [] /\ fst (snd outcome) = response_body)
  \/ exists url reads,
       get_sse up url = SseStream reads
       /\ Forall (pushed_from (stream_text reads)) (fst outcome)
       /\ (fst (snd outcome) = response_body
           \/ fst (snd outcome) <> []
              /\ exists event_str,
                   block_in (stream_text reads) event_str
                   /\ (parse_sse_event event_str = (RESPONSE, fst (snd outcome))
                       \/ parse_sse_event event_str = (RESULT, fst (snd outcome)))).
Proof.
  cbv zeta. unfold handle_sse_response, handle_sse_try.
  destruct (json_loads in_handle_sse_response response_body) as [sse_info|e|e];
    [|now left..].
  destruct (py_get sse_info STATUS) as [status|e]; [|now left].
  destruct (differs_from_str status ACCEPTED); [now left|].
  destruct (py_get sse_info SSE_URL) as [sse_url|e]; [|now left].
  destruct (negb (py_bool sse_url)); [now left|].
  destruct sse_url as [ | | | |url| | ]; try (now left).
  destruct (get_sse up url) as [e|reads] eqn:Hget; [now left|].
  right. exists url, reads. split; [exact Hget|].
  pose proof (sse_chunks_output reads [] None) as [Hprinted Hr]. cbn [app] in *.
  destruct (sse_chunks reads [] None) as [printed [final_response|e]];
    cbn [fst snd] in *; [|split; [assumption | now left]].
  destruct final_response as [data|]; [|split; [assumption | now left]].
  destruct data as [|c data]; cbn [str_bool fst snd]; [split; [assumption | now left]|].
  split; [assumption|]. right. split; [discriminate|].
  destruct Hr as [Hr|(event_str & data' & Hblock & [= <-] & Hparse)]; [discriminate|].
  now exists event_str.
Qed.



Lemma split_blank_line_prefix_none (a b : pystr) :
  split_blank_line (a ++ b) = None -> split_blank_line a = None.
Proof.
  induction a as [|c a IH]; [reflexivity|].
  cbn [app split_blank_line].
  destruct (startswith [LF; LF] (c :: a ++ b)) eqn:Hab; [discriminate|].
  assert (Ha : startswith [LF; LF] (c :: a) = false).
  { cbn [startswith] in *. destruct (LF =? c); [|reflexivity].
    destruct a as [|d a]; [reflexivity|]. cbn [app andb] in *.
    destruct (LF =? d); [discriminate Hab | reflexivity]. }
  rewrite Ha. destruct (split_blank_line (a ++ b)) as [[before after]|]; [discriminate|].
  intros _. now rewrite IH.
Qed.

Lemma sse_events_no_blank_line (fuel : nat) (buffer : pystr)
    (final_response : option pystr) :
  split_blank_line buffer = None ->
  sse_events fuel buffer final_response = ([], final_response, buffer).
Proof. intros H. destruct fuel; cbn [sse_events]; [reflexivity | now rewrite H]. Qed.

Lemma sse_chunks_no_blank_line (reads : list read_result) (buffer : pystr) :
  split_blank_line (buffer ++ stream_text reads) = None ->
  fst (sse_chunks reads buffer None) = []
  /\ (snd (sse_chunks reads buffer None) = Returned None
      \/ exists e, snd (sse_chunks reads buffer None) = Raised e).
Proof.
  revert buffer. induction reads as [|[[|c chunk]|e] reads IH]; intros buffer H;
    cbn [sse_chunks str_bool fst snd].
  - now split; [|left].
  - now split; [|left].
  - cbv zeta. cbn [stream_text] in H. rewrite app_assoc in H.
    rewrite (sse_events_no_blank_line _ _ None (split_blank_line_prefix_none _ _ H)).
    cbn [opt_bool]. specialize (IH _ H).
    destruct (sse_chunks reads (buffer ++ c :: chunk) None) as [printed r].
    cbn [fst snd] in *. destruct IH as [-> Hr]. now split.
  - split; [reflexivity|]. right. now exists e.
Qed.

(** X8.  Until the text read from the stream holds a blank line (two line
    feeds in a row) no event is seen: nothing is printed and the body comes
    back as it was given.  A stream that separates its events in another
    way, with carriage returns before the line feeds for instance, is read
    to its end to that effect. *)
Theorem handle_sse_response_needs_blank_line (up : upstream) (host response_body : pystr)
    (session_id : option pystr) :
  (forall url reads,
      get_sse up url = SseStream reads -> split_blank_line (stream_text reads) = None) ->
  handle_sse_response up host response_body session_id
  = ([], (response_body, session_id)).
Proof.
  intros Hstream. unfold handle_sse_response, handle_sse_try.
  destruct (json_loads in_handle_sse_response response_body) as [sse_info|e|e];
    [|reflexivity..].
  destruct (py_get sse_info STATUS) as [status|e]; [|reflexivity].
  destruct (differs_from_str status ACCEPTED); [reflexivity|].
  destruct (py_get sse_info SSE_URL) as [sse_url|e]; [|reflexivity].
  destruct (negb (py_bool sse_url)); [reflexivity|].
  destruct sse_url as [ | | | |url| | ]; try reflexivity.
  destruct (get_sse up url) as [e|reads] eqn:Hget; [reflexivity|].
  destruct (sse_chunks_no_blank_line reads [] (Hstream _ _ Hget)) as [Hprinted Hr].
  destruct (sse_chunks reads [] None) as [printed r]. cbn [fst snd] in *. subst printed.
  destruct Hr as [->|[e ->]]; reflexivity.
Qed.

(** X9.  When the first event of the stream is a [response] or a [result]
    with data, that data is returned at once: nothing is printed, and
    neither the rest of the chunk nor the later chunks are looked at. *)
Theorem handle_sse_response_first_terminal_event (up : upstream)
    (host response_body : pystr) (session_id : option pystr)
    (d : pydict) (url chunk : pystr) (later : list read_result)
    (event_str rest event_type data : pystr) :
  json_loads in_handle_sse_response response_body = LoadsReturned (JObj d) ->
  dict_get STATUS d = Some (JStr ACCEPTED) ->
  dict_get SSE_URL d = Some (JStr url) ->
  url <> [] ->
  get_sse up url = SseStream (ReadText chunk :: later) ->
  split_blank_line chunk = Some (event_str, rest) ->
  parse_sse_event event_str = (event_type, data) ->
  event_type = RESPONSE \/ event_type = RESULT ->
  data <> [] ->
  handle_sse_response up host response_body session_id = ([], (data, session_id)).
Proof.
  intros Hloads Hstatus Hurl Hne Hget Hsplit Hparse Htype Hdata.
  unfold handle_sse_response, handle_sse_try.
  rewrite Hloads. cbn [py_get]. rewrite Hstatus, Hurl.
  cbn [differs_from_str]. rewrite str_eqb_refl. cbn [negb py_bool].
  destruct url as [|u url]; [congruence|]. cbn [negb]. rewrite Hget.
  destruct chunk as [|c chunk]; [discriminate Hsplit|].
  cbn [sse_chunks str_bool app]. cbv zeta. cbn [sse_events].
  rewrite Hsplit, Hparse.
  assert (Hkind : str_eqb event_type PROGRESS || str_eqb event_type NOTIFICATION = false
                  /\ str_eqb event_type RESPONSE || str_eqb event_type RESULT = true)
    by (destruct Htype as [-> | ->]; split; reflexivity).
  destruct Hkind as [-> ->]. cbn [opt_bool].
  destruct data as [|c' data]; [congruence | reflexivity].
Qed.

(** ** What the loop forwards and what it skips *)

Lemma process_line_sent (up : upstream) (host : pystr) (port : Z)
    (session_id : option pystr) (raw_line : pystr) :
  turn_sent (process_line up host port session_id raw_line)
  = if forwardable raw_line
    then Some {| req_host := host; req_port := port; req_data := strip raw_line;
                 req_session_header := session_header session_id |}
    else None.
Proof.
  unfold process_line, forwardable.
  destruct (strip raw_line) as [|c line]; cbn [str_bool negb andb]; [reflexivity|].
  destruct (json_loads in_main (c :: line)) as [request|e|e]; try reflexivity.
  destruct request as [ | | | | | |d]; cbn [py_get]; try reflexivity.
  pose proof (forward_request_sends up host port (c :: line) session_id) as Hreq.
  cbn [andb].
  destruct (dict_get ID d);
    destruct (forward_request up host port (c :: line) session_id)
      as [[req printed] [[response new_session_id]|e]];
    cbn [fst turn_sent] in *; now subst req.
Qed.

Lemma serve_sent (world : list request -> upstream) (host : pystr) (port : Z)
    (lines : list pystr) (st : bridge) :
  List.map (fun req => (req_host req, req_port req, req_data req))
    (rev (sent (serve world host port st lines)))
  = List.map (fun req => (req_host req, req_port req, req_data req)) (rev (sent st))
    ++ List.map (fun raw_line => (host, port, strip raw_line)) (filter forwardable lines).
Proof.
  revert st; induction lines as [|raw_line lines IH]; intros st.
  - cbn [serve fold_left filter List.map]. now rewrite app_nil_r.
  - rewrite serve_cons, IH. unfold step at 1. cbn [sent filter].
    rewrite process_line_sent.
    destruct (forwardable raw_line); [|reflexivity].
    cbn [rev List.map]. rewrite map_app, <- app_assoc. reflexivity.
Qed.

(** X10.  The POSTs the loop makes are those for the lines of stdin that
    are not blank, that [json.loads] reads as an object without meeting a
    limit of the interpreter, and that hold no surrogate: each one stripped
    and otherwise as it came, in the order of the input, all to the
    endpoint the loop was started with.  Nothing else is ever sent: no
    blank line, no line that is not JSON, no JSON value that is not an
    object, no line that cannot be encoded. *)
Theorem serve_forwards_object_lines_in_order (world : list request -> upstream)
    (host : pystr) (port : Z) (lines : list pystr) :
  List.map (fun req => (req_host req, req_port req, req_data req))
    (rev (sent (serve world host port initial lines)))
  = List.map (fun raw_line => (host, port, strip raw_line)) (filter forwardable lines).
Proof. apply (serve_sent world host port lines initial). Qed.

Lemma step_blank_line (world : list request -> upstream) (host : pystr) (port : Z)
    (st : bridge) (raw_line : pystr) :
  str_bool (strip raw_line) = false -> step world host port st raw_line = st.
Proof.
  intros H. unfold step, process_line. rewrite H.
  cbn [negb turn_session turn_sent turn_pushed turn_emitted app].
  destruct st as [session_id requests printed]. cbn [session sent stdout].
  now rewrite app_nil_r.
Qed.

(** X11.  Blank lines change nothing: with them or without them the loop
    ends with the same session id, the same requests sent and the same
    output. *)
Theorem serve_skips_blank_lines (world : list request -> upstream)
    (host : pystr) (port : Z) (st : bridge) (lines : list pystr) :
  serve world host port st lines
  = serve world host port st (filter (fun raw_line => str_bool (strip raw_line)) lines).
Proof.
  revert st; induction lines as [|raw_line lines IH]; intros st; [reflexivity|].
  cbn [filter]. destruct (str_bool (strip raw_line)) eqn:Hblank.
  - rewrite !serve_cons. apply IH.
  - rewrite serve_cons, step_blank_line by assumption. apply IH.
Qed.

(** ** Errors that carry the id of the request *)

Lemma error_object_wf (request_id : json) (code : Z) (message : pystr) :
  json_wf request_id -> str_ok message = true ->
  json_wf (error_object request_id code message).
Proof.
  intros Hid Hmessage. unfold error_object.
  repeat first
    [ assumption
    | constructor
    | cbn [List.map fst In]; intros H;
      repeat (destruct H as [H|H]; [discriminate H|]); exact H ].
Qed.

Lemma dict_get_wf (key : pystr) (d : pydict) (v : json) :
  json_wf (JObj d) -> dict_get key d = Some v -> json_wf v.
Proof.
  intros Hwf. inversion Hwf as [ | | | | | |? _ Hpairs]; subst. clear Hwf.
  induction Hpairs as [|[k x] d [_ Hx] _ IH]; [discriminate|].
  cbn [dict_get]. destruct (str_eqb k key); [now intros [= <-] | exact IH].
Qed.

Lemma text_ok_encodable (text : pystr) : text_ok text -> encodable text = true.
Proof.
  intros H. apply forallb_forall. intros c Hc.
  pose proof (proj1 (Forall_forall _ _) H c Hc) as Hs. cbv beta in Hs.
  unfold is_scalar in Hs. apply andb_true_iff in Hs as [_ Hs].
  unfold is_high_surrogate, is_low_surrogate.
  destruct (N.leb_spec 0xd800 c), (N.leb_spec c 0xdfff), (N.leb_spec c 0xdbff),
    (N.leb_spec 0xdc00 c); cbn in *; try reflexivity; try discriminate; lia.
Qed.

(** The error body of the forwarder leaves the loop with the id of the
    request in the place of its null id. *)
Lemma error_body_gets_request_id (request_id : json) (code : Z) (message : pystr) :
  json_wf request_id -> str_ok message = true ->
  loads_raises in_main (dumps (error_object JNull code message)) = None ->
  loads_raises in_write_response (dumps (error_object request_id code message)) = None ->
  answer (backfill_id request_id (dumps (error_object JNull code message)))
  = write_error request_id code message.
Proof using Type floatstr_scans.
  intros Hid Hmessage Hmain Hwrite. unfold backfill_id, json_loads. rewrite Hmain.
  rewrite loads_dumps by (apply error_object_wf; [constructor | assumption]).
  destruct (is_none request_id) eqn:Hnone.
  - destruct request_id; try discriminate Hnone.
    unfold answer, write_response, json_loads. rewrite Hwrite.
    now rewrite loads_dumps by (apply error_object_wf; [constructor | assumption]).
  - change (py_get (error_object JNull code message) ID) with (@Returned json JNull).
    cbn [is_none error_object].
    change (dict_set ID request_id _)
      with [(py "jsonrpc", JStr (py "2.0")); (ID, request_id);
            (py "error", JObj [(py "code", JInt code); (py "message", JStr message)])].
    fold (error_object request_id code message).
    unfold answer, write_response, json_loads. rewrite Hwrite.
    now rewrite loads_dumps by (now apply error_object_wf).
Qed.

(** X12.  When the POST fails below HTTP (a [URLError], any other
    exception, a body that cannot be read), the line is answered by one
    line: the error object with code -32603, the message of the failure,
    and the id of the request, or null when the request has none.  The
    request counts as sent, nothing else is printed and the session id
    stays.  The error object is read twice on its way out, by the backfill
    and by [write_response]; this holds when [json.loads] meets no limit of
    the interpreter on it, as it could with an id nested as deeply as the
    interpreter follows. *)
Theorem transport_failure_answered_with_request_id
    (up : upstream) (host : pystr) (port : Z) (session_id : option pystr)
    (raw_line : pystr) (request_obj : pydict) (message : pystr) :
  let req := {| req_host := host; req_port := port; req_data := strip raw_line;
                req_session_header := session_header session_id |} in
  let request_id := match dict_get ID request_obj with Some v => v | None => JNull end in
  text_ok raw_line ->
  json_loads in_main (strip raw_line) = LoadsReturned (JObj request_obj) ->
  transport_failure (post up req) = Some message ->
  str_ok message = true ->
  loads_raises in_main (dumps (error_object JNull (-32603) message)) = None ->
  loads_raises in_write_response (dumps (error_object request_id (-32603) message)) = None ->
  process_line up host port session_id raw_line
  = {| turn_sent := Some req; turn_pushed := [];
       turn_emitted := [write_error request_id (-32603) message];
       turn_session := session_id |}.
Proof using Type floatstr_scans.
  intros req request_id Htext Hloads Hfail Hmessage Hmain Hwrite.
  assert (Hscan : loads (strip raw_line) = Some (JObj request_obj))
    by (now apply json_loads_returned in Hloads).
  assert (Hid : json_wf request_id).
  { pose proof (loads_wf _ _ (text_ok_strip _ Htext) Hscan) as Hwf. subst request_id.
    destruct (dict_get ID request_obj) as [v|] eqn:Hget; [|constructor].
    eapply dict_get_wf; eassumption. }
  assert (Hforward : forward_request up host port (strip raw_line) session_id
                     = (Some req, [],
                        Returned (dumps (error_object JNull (-32603) message),
                                  session_id))).
  { unfold forward_request.
    rewrite (text_ok_encodable _ (text_ok_strip _ Htext)). cbn [negb]. fold req.
    destruct (post up req) as [status header [text|e]|code fp str_e|reason|e];
      cbn [transport_failure] in Hfail; try discriminate Hfail;
      now injection Hfail as <-. }
  unfold process_line.
  destruct (strip raw_line) as [|c line] eqn:Hstrip; [discriminate Hscan|].
  cbn [str_bool negb]. rewrite Hloads. cbn [py_get].
  assert (Hget : match dict_get ID request_obj with
                 | Some v => Returned v
                 | None => Returned JNull
                 end = Returned request_id)
    by (subst request_id; now destruct (dict_get ID request_obj)).
  rewrite Hget, Hforward. f_equal.
  unfold dumps at 1, error_object at 1. cbn [dumps_with str_bool].
  f_equal. now apply error_body_gets_request_id.
Qed.

(** ** What the two writers print *)

(** X13.  The line [write_response] prints for a body that [json.loads]
    reads decodes to the value the body decodes to: making the body compact
    loses nothing. *)
Theorem write_response_keeps_value (response : pystr) (obj : json) :
  text_ok response ->
  json_loads in_write_response response = LoadsReturned obj ->
  exists line, write_response response = Returned line /\ loads line = Some obj.
Proof using Type floatstr_scans.
  intros Htext Hloads. exists (dumps_compact obj).
  split; [unfold write_response; now rewrite Hloads|].
  apply json_loads_returned in Hloads as [_ Hloads].
  apply loads_dumps_compact. eapply loads_wf; eassumption.
Qed.

(** X14.  The line [write_error] prints is JSON, and it decodes to the
    error object with the id, the code and the message given. *)
Theorem write_error_reads_back (request_id : json) (code : Z) (message : pystr) :
  json_wf request_id ->
  str_ok message = true ->
  loads (write_error request_id code message)
  = Some (error_object request_id code message).
Proof using Type floatstr_scans.
  intros Hid Hmessage. unfold write_error.
  now apply loads_dumps_compact, error_object_wf.
Qed.

(** X15.  The id backfill rewrites a body only when the request has an id
    that is not null and [json.loads] reads the body as a JSON object whose
    id is missing or null.  An id the upstream supplied is never replaced,
    and a body that is not a JSON object is never touched. *)
Theorem backfill_id_only_fills_missing_id (request_id : json) (response : pystr) :
  backfill_id request_id response <> response ->
  is_none request_id = false
  /\ exists d,
       json_loads in_main response = LoadsReturned (JObj d)
       /\ (dict_get ID d = None \/ dict_get ID d = Some JNull).
Proof.
  unfold backfill_id.
  destruct (json_loads in_main response) as [resp_obj|e|e]; [|congruence..].
  destruct (is_none request_id); [congruence|].
  destruct resp_obj as [ | | | | | |d]; cbn [py_get]; try congruence.
  destruct (dict_get ID d) as [resp_id|] eqn:Hget.
  - destruct resp_id; cbn [is_none]; try congruence.
    intros _. split; [reflexivity|]. exists d. split; [reflexivity | now right].
  - intros _. split; [reflexivity|]. exists d. split; [reflexivity | now left].
Qed.

(** ** Every print is one line *)

Lemma forward_request_pushes (up : upstream) (host : pystr) (port : Z)
    (request_data : pystr) (session_id : option pystr) :
  Forall single_line (snd (fst (forward_request up host port request_data session_id))).
Proof.
  unfold forward_request. destruct (negb (encodable request_data)); [constructor|].
  destruct (post up _) as [status header [text|e]|code [[text|e]|] str_e|reason|e];
    try constructor.
  destruct (status =? 202)%Z; [|constructor].
  pose proof (handle_sse_response_output up host text
                (match header with Some value => Some value | None => session_id end))
    as Hout.
  destruct (handle_sse_response up host text _) as [printed r]. cbn [fst snd] in *.
  destruct Hout as [[-> _]|(url & reads & _ & Hpushed & _)]; [constructor|].
  eapply Forall_impl; [|exact Hpushed]. now intros line (_ & Hline & _).
Qed.

Lemma process_line_single_lines (up : upstream) (host : pystr) (port : Z)
    (session_id : option pystr) (raw_line : pystr) :
  let t := process_line up host port session_id raw_line in
  Forall single_line (turn_pushed t ++ turn_emitted t).
Proof using Type floatstr_single_line.
  cbv zeta. unfold process_line.
  destruct (negb (str_bool (strip raw_line))); [constructor|].
  destruct (json_loads in_main (strip raw_line)) as [request|e|e];
    cbn [turn_pushed turn_emitted app];
    try (constructor; [apply single_line_write_error | constructor]).
  destruct (py_get request ID) as [request_id|e]; cbn [turn_pushed turn_emitted app];
    [|constructor; [apply single_line_write_error | constructor]].
  pose proof (forward_request_pushes up host port (strip raw_line) session_id) as Hpushed.
  destruct (forward_request up host port (strip raw_line) session_id)
    as [[req printed] [[response new_session_id]|e]];
    cbn [fst snd turn_pushed turn_emitted] in *; apply Forall_app; split; try assumption.
  - destruct (str_bool response); constructor;
      [apply single_line_answer | constructor].
  - constructor; [apply single_line_write_error | constructor].
Qed.

Lemma serve_single_lines (world : list request -> upstream) (host : pystr) (port : Z)
    (lines : list pystr) (st : bridge) :
  Forall single_line (stdout st) ->
  Forall single_line (stdout (serve world host port st lines)).
Proof using Type floatstr_single_line.
  revert st; induction lines as [|raw_line lines IH]; intros st Hst; [exact Hst|].
  rewrite serve_cons. apply IH. unfold step. cbn [stdout].
  apply Forall_app. split; [exact Hst | apply process_line_single_lines].
Qed.

(** X16.  Whatever comes in on stdin, however stdin ends and whatever the
    upstream answers, nothing the bridge prints on stdout holds a line
    feed: every push of the stream consumer and every answer of the loop is
    one line of output. *)
Theorem main_prints_single_lines (check : list probe -> probe -> bool)
    (world : list request -> upstream) (host : pystr) (port : Z) (lines : list pystr)
    (ending : stdin_end) :
  Forall single_line (snd (main check world host port lines ending)).
Proof using Type floatstr_single_line.
  unfold main. destruct (fst (find_ue5_server check host port)) as [[h p]|];
    cbn [snd]; [|constructor].
  apply serve_single_lines. constructor.
Qed.

(** ** Start-up *)

(** X17.  When no pair of the schedule answers its health check, [main]
    ends with status 1 before it reads a line: nothing is printed, whatever
    stdin holds. *)
Theorem main_exits_1_without_server (check : list probe -> probe -> bool)
    (world : list request -> upstream) (host : pystr) (port : Z) (lines : list pystr)
    (ending : stdin_end) :
  (forall log p, In p (probe_schedule host port) -> check log p = false) ->
  main check world host port lines ending = (1%Z, []).
Proof.
  intros Hdown. unfold main. rewrite find_ue5_server_in_order.
  pose proof (probe_in_order_outcome check (probe_schedule host port) []
                (all_failed_nil check)) as Hout.
  destruct (probe_in_order_prefix check (probe_schedule host port) [])
    as (more & rest & Hlog & Hs).
  destruct (probe_in_order check [] (probe_schedule host port)) as [[found|] log];
    [|reflexivity].
  exfalso. destruct Hout as (before & -> & _ & Hup). cbn [snd app] in Hlog.
  rewrite (Hdown before found) in Hup; [discriminate|].
  rewrite Hs, <- Hlog. apply in_or_app. left. apply in_or_app. right. now left.
Qed.

(** X18.  When the configured pair answers its health check, [main] serves
    the lines stdin gives against it, a configured [localhost] at the
    loopback address.  It ends with status 0 when stdin is over or the wait
    for a line is interrupted, and with status 1 when reading stdin raises,
    as on bytes that are not UTF-8; what was printed until then stays. *)
Theorem main_serves_configured_pair (check : list probe -> probe -> bool)
    (world : list request -> upstream) (host : pystr) (port : Z) (lines : list pystr)
    (ending : stdin_end) :
  let h := if str_eqb host LOCALHOST then LOOPBACK else host in
  check [] (h, port) = true ->
  main check world host port lines ending
  = (match ending with StdinRaises _ => 1%Z | EndOfInput | Interrupted => 0%Z end,
     stdout (serve world h port initial lines)).
Proof.
  intros h Hup. unfold main.
  destruct (find_ue5_server_configured_first check host port) as [_ Hfirst].
  now rewrite (Hfirst Hup).
Qed.

(** ** When the forwarder raises *)

(** X19.  [forward_request] lets an exception out in one case only: the
    line was sent, the upstream answered with an error status, and the body
    of the error could not be read or decoded.  Every other reply, a line
    that cannot be encoded, and every failure of the stream that follows a
    202 end in a returned pair. *)
Theorem forward_request_raises_only_on_unreadable_error_body
    (up : upstream) (host : pystr) (port : Z) (request_data : pystr)
    (session_id : option pystr) (e : pystr) :
  snd (forward_request up host port request_data session_id) = Raised e
  <-> encodable request_data = true
      /\ exists code str_e,
           post up {| req_host := host; req_port := port; req_data := request_data;
                      req_session_header := session_header session_id |}
           = HTTPError code (Some (ReadRaises e)) str_e.
Proof.
  unfold forward_request.
  destruct (encodable request_data); cbn [negb snd];
    [|split; [discriminate | now intros [? _]]].
  destruct (post up _) as [status header [text|e']|code [[text|e']|] str_e|reason|e'];
    cbn [snd].
  - split; [|intros (_ & code & str_e & [=])].
    destruct (status =? 202)%Z; [|discriminate].
    destruct (handle_sse_response up host text _) as [printed r]. discriminate.
  - split; [discriminate | intros (_ & code' & str_e' & [=])].
  - split; [discriminate | intros (_ & code' & str_e' & [=])].
  - split; [intros [= ->]; split; [reflexivity | now exists code, str_e]|].
    now intros (_ & code' & str_e' & [= _ -> _]).
  - split; [discriminate | intros (_ & code' & str_e' & [=])].
  - split; [discriminate | intros (_ & code' & str_e' & [=])].
  - split; [discriminate | intros (_ & code' & str_e' & [=])].
Qed.

(** ** The fields of an event are trimmed *)

(** X20.  Both fields [parse_sse_event] returns are trimmed: the event
    type and the data never begin or end with whitespace, so a carriage
    return before the line feed of a [data:] line never reaches the
    output. *)
Theorem parse_sse_event_fields_trimmed (event_str : pystr) :
  trimmed (fst (parse_sse_event event_str)) /\ trimmed (snd (parse_sse_event event_str)).
Proof.
  unfold parse_sse_event.
  assert (Hstart : trimmed (fst (MESSAGE, @nil N)) /\ trimmed (snd (MESSAGE, @nil N)))
    by (repeat split).
  revert Hstart. generalize (MESSAGE, @nil N).
  induction (split_char LF event_str) as [|line lines IH]; intros acc Hacc; [exact Hacc|].
  cbn [fold_left]. apply IH. destruct acc as [event_type data], Hacc as [Ht Hd].
  unfold parse_sse_line, event_field, data_field. cbn [fst snd] in *.
  destruct (startswith EVENT_PREFIX line); cbn [fst snd];
    [split; [apply strip_trimmed | exact Hd]|].
  destruct (startswith DATA_PREFIX line); cbn [fst snd];
    [split; [exact Ht | apply strip_trimmed] | now split].
Qed.

(** ** The id backfill in place, and the bodies it leaves alone *)

Lemma dict_set_present (key : pystr) (v old : json) (d : pydict) :
  dict_get key d = Some old ->
  List.map fst (dict_set key v d) = List.map fst d
  /\ dict_get key (dict_set key v d) = Some v.
Proof.
  induction d as [|[k x] d IH]; [discriminate|]. cbn [dict_get dict_set].
  destruct (str_eqb k key) eqn:E.
  - intros _. cbn [List.map fst dict_get]. now rewrite E.
  - intros H. destruct (IH H) as [Hkeys Hget].
    cbn [List.map fst dict_get]. now rewrite E, Hkeys.
Qed.

(** X21.  A body that [json.loads] reads as a JSON object with a null id
    gets the id of the request in the place of the null: the keys stay in
    their order, and the line printed is the compact encoding of the object
    so changed.  The one way out is a limit of the interpreter met when
    [write_response] reads the body again: then it raises that
    exception. *)
Theorem null_id_replaced_in_place (request_id : json) (response : pystr) (d : pydict) :
  json_wf request_id ->
  is_none request_id = false ->
  text_ok response ->
  json_loads in_main response = LoadsReturned (JObj d) ->
  dict_get ID d = Some JNull ->
  write_response (backfill_id request_id response)
  = match loads_raises in_write_response (dumps (JObj (dict_set ID request_id d))) with
    | None => Returned (dumps_compact (JObj (dict_set ID request_id d)))
    | Some e => Raised e
    end
  /\ List.map fst (dict_set ID request_id d) = List.map fst d
  /\ dict_get ID (dict_set ID request_id d) = Some request_id.
Proof using Type floatstr_scans.
  intros Hid Hnone Htext Hloads Hnull.
  split; [|now apply (dict_set_present ID request_id JNull)].
  unfold backfill_id. rewrite Hloads, Hnone. cbn [py_get]. rewrite Hnull. cbn [is_none].
  unfold write_response, json_loads.
  destruct (loads_raises in_write_response _); [reflexivity|].
  rewrite loads_dumps; [reflexivity|].
  apply json_loads_returned in Hloads as [_ Hloads].
  pose proof (loads_wf _ _ Htext Hloads) as Hwf.
  inversion Hwf as [ | | | | | |? Hnd Hpairs]; subst.
  destruct (dict_set_wf ID request_id d eq_refl Hid Hnd Hpairs). now constructor.
Qed.

(** X22.  When the forwarder returns a body that is the compact encoding
    of a JSON object with an id of its own (from a 200, from an HTTP error
    or from a terminal event), the body is printed as it came, character
    for character: neither the backfill nor the canonicalization changes
    it.  The one way out is a limit of the interpreter met when
    [write_response] reads the body, as on an integer with too many
    digits: then the line printed is the error object with a null id, code
    -32603 and the text of the exception. *)
Theorem compact_answer_printed_unchanged
    (up : upstream) (host : pystr) (port : Z) (session_id : option pystr)
    (raw_line : pystr) (request_obj d : pydict) (resp_id : json)
    (new_session_id : option pystr) :
  json_loads in_main (strip raw_line) = LoadsReturned (JObj request_obj) ->
  snd (forward_request up host port (strip raw_line) session_id)
  = Returned (dumps_compact (JObj d), new_session_id) ->
  json_wf (JObj d) ->
  dict_get ID d = Some resp_id ->
  is_none resp_id = false ->
  turn_emitted (process_line up host port session_id raw_line)
  = [match loads_raises in_write_response (dumps_compact (JObj d)) with
     | None => dumps_compact (JObj d)
     | Some e => write_error JNull (-32603) e
     end].
Proof using Type floatstr_scans.
  intros Hloads Hforward Hwf Hget Hnone.
  unfold process_line.
  destruct (strip raw_line) as [|c line] eqn:Hstrip;
    [apply json_loads_returned in Hloads as [_ Hloads]; discriminate Hloads|].
  cbn [str_bool negb]. rewrite Hloads. cbn [py_get].
  assert (Hback : forall request_id,
             backfill_id request_id (dumps_compact (JObj d)) = dumps_compact (JObj d)).
  { intros request_id. unfold backfill_id, json_loads.
    destruct (loads_raises in_main (dumps_compact (JObj d))); [reflexivity|].
    rewrite (loads_dumps_compact _ Hwf).
    destruct (is_none request_id); [reflexivity|].
    cbn [py_get]. rewrite Hget, Hnone. reflexivity. }
  assert (Hwrite : answer (dumps_compact (JObj d))
                   = match loads_raises in_write_response (dumps_compact (JObj d)) with
                     | None => dumps_compact (JObj d)
                     | Some e => write_error JNull (-32603) e
                     end).
  { unfold answer, write_response, json_loads.
    destruct (loads_raises in_write_response (dumps_compact (JObj d))); [reflexivity|].
    now rewrite (loads_dumps_compact _ Hwf). }
  destruct (forward_request up host port (c :: line) session_id)
    as [[req printed] r]. cbn [snd] in Hforward. subst r.
  destruct (dict_get ID request_obj); cbn [turn_emitted];
    rewrite Hback, Hwrite; reflexivity.
Qed.

(** ** Events cut by the reads *)



(** ** A stream that comes in one read *)

(** The blocks do not depend on the budget once it is above the length of
    the buffer. *)
Lemma blocks_upto_enough_fuel (fuel fuel' : nat) (buffer : pystr) :
  (List.length buffer < fuel)%nat -> (List.length buffer < fuel')%nat ->
  blocks_upto fuel buffer = blocks_upto fuel' buffer.
Proof.
  revert fuel' buffer.
  induction fuel as [|fuel IH]; intros fuel' buffer Hf Hf'; [lia|].
  destruct fuel' as [|fuel']; [lia|]. cbn [blocks_upto].
  destruct (split_blank_line buffer) as [[event_str buffer']|] eqn:Hs; [|reflexivity].
  apply split_blank_line_shorter in Hs. f_equal. apply IH; lia.
Qed.

Lemma push_is_not_terminal (event : pystr * pystr) :
  is_push event = true -> is_terminal event = false.
Proof.
  unfold is_push, is_terminal. intros H.
  apply orb_true_iff in H as [H|H]; apply str_eqb_eq in H; rewrite H; reflexivity.
Qed.

Lemma sse_events_as_events (fuel : nat) (buffer : pystr) (final_response : option pystr) :
  let events := List.map parse_sse_event (blocks_upto fuel buffer) in
  fst (sse_events fuel buffer final_response)
  = (filter str_bool (List.map snd (filter is_push (before_terminal events))),
     match find is_terminal events with
     | Some event => Some (snd event)
     | None => final_response
     end).
Proof.
  cbv zeta. revert buffer.
  induction fuel as [|fuel IH]; intros buffer; cbn [sse_events blocks_upto]; [reflexivity|].
  destruct (split_blank_line buffer) as [[event_str buffer']|]; [|reflexivity].
  cbn [List.map before_terminal find].
  destruct (parse_sse_event event_str) as [event_type event_data] eqn:Hparse.
  specialize (IH buffer').
  change (str_eqb event_type PROGRESS || str_eqb event_type NOTIFICATION)
    with (is_push (event_type, event_data)).
  change (str_eqb event_type RESPONSE || str_eqb event_type RESULT)
    with (is_terminal (event_type, event_data)).
  destruct (is_push (event_type, event_data)) eqn:Hpush.
  - rewrite (push_is_not_terminal _ Hpush).
    destruct (sse_events fuel buffer' final_response) as [[printed final'] buffer''].
    cbn [fst] in *. injection IH as -> ->.
    cbn [filter]. rewrite Hpush. cbn [List.map snd filter].
    now destruct (str_bool event_data).
  - destruct (is_terminal (event_type, event_data)); [reflexivity|].
    cbn [filter]. rewrite Hpush. exact IH.
Qed.

(** X25.  For a deferred call whose stream comes in one read: the lines
    printed are the data, when not empty, of the [progress] and
    [notification] events that come before the first [response] or [result]
    event, in their order; the body returned is the data of that first
    terminal event when it is not empty, and the descriptor otherwise.
    Events of other types and whatever follows the terminal event have no
    effect. *)
Theorem handle_sse_response_single_read (up : upstream) (host response_body : pystr)
    (session_id : option pystr) (d : pydict) (url chunk : pystr) :
  json_loads in_handle_sse_response response_body = LoadsReturned (JObj d) ->
  dict_get STATUS d = Some (JStr ACCEPTED) ->
  dict_get SSE_URL d = Some (JStr url) ->
  url <> [] ->
  get_sse up url = SseStream [ReadText chunk] ->
  let events := List.map parse_sse_event (event_blocks chunk) in
  handle_sse_response up host response_body session_id
  = (filter str_bool (List.map snd (filter is_push (before_terminal events))),
     (match find is_terminal events with
      | Some (_, data) => if str_bool data then data else response_body
      | None => response_body
      end,
      session_id)).
Proof.
  intros Hloads Hstatus Hurl Hne Hget. cbv zeta.
  unfold handle_sse_response, handle_sse_try.
  rewrite Hloads. cbn [py_get]. rewrite Hstatus, Hurl.
  cbn [differs_from_str]. rewrite str_eqb_refl. cbn [negb py_bool].
  destruct url as [|u url]; [congruence|]. cbn [negb]. rewrite Hget.
  destruct chunk as [|c chunk]; [reflexivity|].
  cbn [sse_chunks str_bool app]. cbv zeta.
  pose proof (sse_events_as_events (S (List.length (c :: chunk))) (c :: chunk) None) as Hev.
  cbv zeta in Hev. fold (event_blocks (c :: chunk)) in Hev.
  destruct (sse_events (S (List.length (c :: chunk))) (c :: chunk) None)
    as [[printed final'] buffer2].
  cbn [fst] in Hev. injection Hev as -> ->.
  destruct (find is_terminal (List.map parse_sse_event (event_blocks (c :: chunk))))
    as [[event_type [|x data]]|]; cbn [opt_bool str_bool snd];
    rewrite ?app_nil_r; reflexivity.
Qed.

End Bridge.

Arguments JNull {pyfloat}.
Arguments JBool {pyfloat} b.
Arguments JInt {pyfloat} z.
Arguments JFloat {pyfloat} f.
Arguments JStr {pyfloat} s.
Arguments JArr {pyfloat} items.
Arguments JObj {pyfloat} d.
Arguments LoadsReturned {pyfloat} obj.
Arguments LoadsDecodeError {pyfloat} str_e.
Arguments LoadsRaised {pyfloat} str_e.

(* ================================================================= *)
(** * The bridge on concrete inputs *)

(** The bridge with the sample [float] and the sample limits. *)
Local Abbreviation sample_loads :=
  (loads sample_float sample_parse_float sample_parse_constant).
Local Abbreviation sample_json_loads :=
  (json_loads sample_float sample_parse_float sample_parse_constant
     sample_decode_error_text sample_loads_raises).
Local Abbreviation sample_write_response :=
  (write_response sample_float sample_parse_float sample_parse_constant sample_floatstr
     sample_decode_error_text sample_loads_raises).
Local Abbreviation sample_backfill_id :=
  (backfill_id sample_float sample_parse_float sample_parse_constant sample_floatstr
     sample_decode_error_text sample_loads_raises).
Local Abbreviation sample_write_error := (write_error sample_float sample_floatstr).
Local Abbreviation sample_dumps_compact := (dumps_compact sample_float sample_floatstr).
Local Abbreviation sample_handle_sse :=
  (handle_sse_response sample_float sample_parse_float sample_parse_constant
     sample_float_bool sample_decode_error_text sample_loads_raises).
Local Abbreviation sample_forward_request :=
  (forward_request sample_float sample_parse_float sample_parse_constant
     sample_floatstr sample_float_bool sample_decode_error_text
     sample_loads_raises sample_encode_error_text).
Local Abbreviation sample_process_line :=
  (process_line sample_float sample_parse_float sample_parse_constant
     sample_floatstr sample_float_bool sample_decode_error_text
     sample_loads_raises sample_encode_error_text).
Local Abbreviation sample_serve :=
  (serve sample_float sample_parse_float sample_parse_constant
     sample_floatstr sample_float_bool sample_decode_error_text
     sample_loads_raises sample_encode_error_text).
Local Abbreviation sample_main :=
  (main sample_float sample_parse_float sample_parse_constant
     sample_floatstr sample_float_bool sample_decode_error_text
     sample_loads_raises sample_encode_error_text).

(** A general statement at the sample [float] and the sample limits. *)
Local Abbreviation at_sample statement :=
  (statement sample_float sample_parse_float sample_parse_constant
     sample_floatstr sample_float_bool sample_decode_error_text
     sample_loads_raises sample_encode_error_text).
Local Abbreviation at_sample_json statement :=
  (statement sample_float sample_parse_float sample_parse_constant
     sample_floatstr sample_decode_error_text sample_loads_raises).
Local Abbreviation at_sample_sse statement :=
  (statement sample_float sample_parse_float sample_parse_constant
     sample_float_bool sample_decode_error_text sample_loads_raises).

Lemma sample_floatstr_single_line (f : sample_float) : single_line (sample_floatstr f).
Proof. destruct f; repeat (constructor; [discriminate|]); constructor. Qed.

Lemma sample_floatstr_scans (f : sample_float) (rest : pystr) :
  value_end rest ->
  scan_once sample_float sample_parse_float sample_parse_constant 1
    (sample_floatstr f ++ rest)
  = Scanned (JFloat f) rest.
Proof.
  destruct rest as [|c rest]; intros H; [destruct f; reflexivity|].
  cbn [value_end] in H. destruct H as [->|[->| ->]]; destruct f; reflexivity.
Qed.

(** The exchange of section 8 of the design: the ping is answered by the
    pong, on one line, as it came. *)
Example end_to_end_ping :
  stdout (sample_serve (always (replying (Response 200 None (ReadText pong_body)) []))
            LOOPBACK 27000 initial [ping_line])
  = [pong_body].
Proof. vm_compute. reflexivity. Qed.

(** A progress event is printed before the answer of the call it belongs
    to. *)
Example progress_then_response :
  stdout (sample_serve
            (always (replying (Response 202 None (ReadText sample_descriptor))
                       [ReadText (pylines ["event: progress"; "data: {'step':1}"; blank;
                                           "event: response"]%string);
                        ReadText (pylines ["data: {'id':7,'result':true}"; blank]%string)]))
            LOOPBACK 27000 initial [tools_line])
  = [pyq "{'step':1}"; pyq "{'id':7,'result':true}"].
Proof. vm_compute. reflexivity. Qed.

(** ** Discovery *)

(** C2.  With [localhost] configured on port 27000 and no server answering,
    the loopback address on port 27000 is probed in the first loop and again
    in the port scan: the scan skips only the pair equal to the configured
    one, [(localhost, 27000)]. *)
Theorem find_ue5_server_probes_loopback_twice :
  let outcome := find_ue5_server (fun _ _ => false) LOCALHOST 27000 in
  fst outcome = None
  /\ firstn 4 (snd outcome)
     = [(LOOPBACK, 27000%Z); (LOCALHOST, 27000%Z); (LOOPBACK, 27000%Z); (LOOPBACK, 27001%Z)]
  /\ List.length (snd outcome) = 23%nat.
Proof. vm_compute. repeat split. Qed.

(** ** SSE stream consumer *)

(** C3.  A terminal event with empty data does not end the read.  When the
    stream closes after it, the descriptor is returned, not the data of the
    event; when the stream goes on, a later progress event is still printed
    and the data of a later terminal event is returned. *)
Theorem handle_sse_response_empty_terminal_event :
  sample_handle_sse
    (replying (URLError []) [ReadText (pylines ["event: result"; "data:"; blank]%string)])
    LOOPBACK sample_descriptor None
  = ([], (sample_descriptor, None))
  /\ sample_handle_sse
       (replying (URLError [])
          [ReadText (pylines ["event: result"; "data:"; blank]%string);
           ReadText (pylines ["event: progress"; "data: late"; blank;
                              "event: result"; "data: second"; blank]%string)])
       LOOPBACK sample_descriptor None
     = ([py "late"], (py "second", None)).
Proof. split; vm_compute; reflexivity. Qed.

(** ** Request forwarder *)

(** C5.  When the upstream answers with an error status and a body that is
    not UTF-8, the exception of [decode] is raised inside the handler of
    [HTTPError], where the two handlers after it do not apply: it leaves
    [forward_request]. *)
Theorem forward_request_http_error_body_raises :
  let e := py "'utf-8' codec can't decode byte 0xff in position 0: invalid start byte" in
  let up := replying (HTTPError 500 (Some (ReadRaises e))
                        (py "HTTP Error 500: Internal Server Error")) [] in
  snd (sample_forward_request up LOOPBACK 27000 ping_line (Some (py "session-1")))
  = Raised e.
Proof. reflexivity. Qed.

(** ** Main loop *)

(** C1 as stated fails: a notification answered with an empty body gets no
    line of output. *)
Lemma empty_body_emits_no_line :
  let up := replying (Response 202 None (ReadText [])) [] in
  strip notification_line <> []
  /\ sample_loads (strip notification_line) <> None
  /\ sample_loads_raises in_main (strip notification_line) = None
  /\ turn_emitted (sample_process_line up LOOPBACK 27000 None notification_line) = [].
Proof. repeat split; vm_compute; discriminate. Qed.

Lemma valid_line_answered_once_unless_body_empty_witness :
  let up := replying (Response 200 None (ReadText pong_body)) [] in
  strip ping_line <> []
  /\ sample_json_loads in_main (strip ping_line)
     = LoadsReturned (JObj [(py "jsonrpc", JStr (py "2.0")); (ID, JInt 1);
                            (py "method", JStr (py "ping")); (py "params", JObj [])])
  /\ exists line,
       turn_emitted (sample_process_line up LOOPBACK 27000 None ping_line) = [line]
       /\ single_line line.
Proof.
  intros up.
  assert (H1 : strip ping_line <> []) by (vm_compute; discriminate).
  assert (H2 : sample_json_loads in_main (strip ping_line)
               = LoadsReturned (JObj [(py "jsonrpc", JStr (py "2.0")); (ID, JInt 1);
                                      (py "method", JStr (py "ping"));
                                      (py "params", JObj [])]))
    by (vm_compute; reflexivity).
  split; [exact H1|]. split; [exact H2|].
  refine (proj2 (at_sample valid_line_answered_once_unless_body_empty
                   sample_floatstr_single_line up LOOPBACK 27000 None ping_line _
                   H1 H2) _).
  intros (request_id & new_session_id & _ & H). vm_compute in H. discriminate H.
Defined.

(** C7 as stated fails.  A line of two thousand opening brackets is not
    JSON, and [json.loads] ends on it with a [RecursionError], not with a
    [JSONDecodeError]: the answer carries code -32603, and the loop goes
    on.  And when stdin gives bytes that are not UTF-8, reading the line
    raises outside the handlers of the loop: the process ends with
    status 1 and the line gets no answer. *)
Lemma deep_line_answered_with_internal_error :
  let world := always (replying (Response 200 None (ReadText pong_body)) []) in
  let deep_line := repeat 91 2000 in
  sample_loads deep_line = None
  /\ stdout (sample_serve world LOOPBACK 27000 initial [deep_line; ping_line])
     = [pyq "{'jsonrpc':'2.0','id':null,'error':{'code':-32603,'message':'maximum recursion depth exceeded while decoding a JSON array from a unicode string'}}";
        pong_body]
  /\ sample_main (fun _ _ => true) world LOOPBACK 27000 [ping_line]
       (StdinRaises (py "'utf-8' codec can't decode byte 0xff in position 0: invalid start byte"))
     = (1%Z, [pong_body]).
Proof. repeat split; vm_compute; reflexivity. Qed.

Lemma parse_error_answered_and_loop_continues_witness :
  let world := always (replying (Response 200 None (ReadText pong_body)) []) in
  let raw_line := py "{bad json" in
  let e := py "Expecting property name enclosed in double quotes: line 1 column 2 (char 1)" in
  strip raw_line <> []
  /\ sample_json_loads in_main (strip raw_line) = LoadsDecodeError e
  /\ sample_serve world LOOPBACK 27000 initial [raw_line; ping_line]
     = sample_serve world LOOPBACK 27000
         {| session := None; sent := [];
            stdout := [] ++ [sample_dumps_compact
                               (error_object sample_float JNull (-32700)
                                  (py "Parse error: " ++ e))] |}
         [ping_line]
  /\ stdout (sample_serve world LOOPBACK 27000 initial [raw_line; ping_line])
     = [pyq "{'jsonrpc':'2.0','id':null,'error':{'code':-32700,'message':'Parse error: Expecting property name enclosed in double quotes: line 1 column 2 (char 1)'}}";
        pong_body].
Proof.
  intros world raw_line e.
  assert (H1 : strip raw_line <> []) by (vm_compute; discriminate).
  assert (H2 : sample_json_loads in_main (strip raw_line) = LoadsDecodeError e)
    by (vm_compute; reflexivity).
  split; [exact H1|]. split; [exact H2|].
  pose proof (proj1 (at_sample parse_error_answered_and_loop_continues
                       world LOOPBACK 27000 initial raw_line [ping_line] H1) e H2) as H.
  split; [exact H|]. rewrite H. vm_compute. reflexivity.
Defined.

(** ** Session stickiness *)

(** C4 as stated fails: a response that supplies an empty token is followed
    by a request that carries no session header. *)
Lemma empty_session_token_not_carried :
  let world := always (replying (Response 200 (Some []) (ReadText pong_body)) []) in
  let st := sample_serve world LOOPBACK 27000 initial [ping_line; ping_line] in
  exists req_j req_i,
    sent st = [req_j; req_i]
    /\ supplied_token (post (world []) req_i) = Some []
    /\ req_session_header req_j = None
    /\ session st = Some [].
Proof. do 2 eexists. vm_compute. repeat split. Qed.

Lemma session_token_is_sticky_witness :
  let world :=
    always (replying (Response 200 (Some (py "session-1")) (ReadText pong_body)) []) in
  let req_i := {| req_host := LOOPBACK; req_port := 27000; req_data := ping_line;
                  req_session_header := None |} in
  let req_j := {| req_host := LOOPBACK; req_port := 27000; req_data := ping_line;
                  req_session_header := Some (py "session-1") |} in
  sent (sample_serve world LOOPBACK 27000 initial [ping_line; ping_line])
  = [] ++ req_j :: [] ++ req_i :: []
  /\ supplied_token (post (world []) req_i) = Some (py "session-1")
  /\ py "session-1" <> []
  /\ req_session_header req_j = Some (py "session-1")
  /\ forall more,
       session (sample_serve world LOOPBACK 27000 initial ([ping_line; ping_line] ++ more))
       <> None.
Proof.
  intros world req_i req_j.
  assert (H1 : sent (sample_serve world LOOPBACK 27000 initial [ping_line; ping_line])
               = [] ++ req_j :: [] ++ req_i :: []) by (vm_compute; reflexivity).
  assert (H2 : supplied_token (post (world []) req_i) = Some (py "session-1"))
    by reflexivity.
  assert (H3 : py "session-1" <> []) by (vm_compute; discriminate).
  split; [exact H1|]. split; [exact H2|]. split; [exact H3|].
  refine (at_sample session_token_is_sticky
            world LOOPBACK 27000 [ping_line; ping_line] [] req_j [] req_i []
            (py "session-1") H1 H2 H3 _).
  intros [|r mid1] req_k mid2 t' H; discriminate H.
Defined.

(** ** Output canonicalization and id backfill *)

(** C9 as stated fails: a body without any whitespace, on one line, that
    repeats a key or escapes a letter is not emitted as it came. *)
Lemma compact_body_is_rewritten :
  let body := pyq "{'a':1,'a':2}" in
  let escaped := pyq "'A'" in
  sample_loads body <> None
  /\ forallb (fun c => negb (is_ws c)) body = true
  /\ sample_write_response body = Returned (pyq "{'a':2}")
  /\ sample_write_response body <> Returned body
  /\ sample_loads escaped <> None
  /\ forallb (fun c => negb (is_ws c)) escaped = true
  /\ sample_write_response escaped = Returned (pyq "'A'").
Proof. repeat split; vm_compute; solve [reflexivity | discriminate]. Qed.

Lemma write_response_idempotent_witness :
  let response := pyq "{ 'jsonrpc': '2.0', 'id': 1, 'result': [1.5, 'pong'] }" in
  let line := pyq "{'jsonrpc':'2.0','id':1,'result':[1.5,'pong']}" in
  text_ok response
  /\ sample_json_loads in_write_response response
     = LoadsReturned (JObj [(py "jsonrpc", JStr (py "2.0")); (ID, JInt 1);
                            (py "result", JArr [JFloat F_one_and_half; JStr (py "pong")])])
  /\ sample_write_response response = Returned line
  /\ single_line line
  /\ sample_write_response line = Returned line.
Proof.
  intros response line.
  assert (H1 : text_ok response) by (apply text_ok_by_check; vm_compute; reflexivity).
  assert (H2 : sample_json_loads in_write_response response
               = LoadsReturned
                   (JObj [(py "jsonrpc", JStr (py "2.0")); (ID, JInt 1);
                          (py "result", JArr [JFloat F_one_and_half; JStr (py "pong")])]))
    by (vm_compute; reflexivity).
  split; [exact H1|]. split; [exact H2|].
  destruct (at_sample_json write_response_idempotent
              sample_floatstr_single_line sample_floatstr_scans response _ H1 H2)
    as (printed & Hprinted & Hsingle & Hagain).
  assert (Hline : printed = line)
    by (assert (E : sample_write_response response = Returned line)
          by (vm_compute; reflexivity);
        rewrite E in Hprinted; now injection Hprinted).
  subst printed. split; [exact Hprinted|]. split; [exact Hsingle|].
  assert (Hlimit : sample_loads_raises in_write_response line = None)
    by (vm_compute; reflexivity).
  now rewrite Hlimit in Hagain.
Defined.

(** C8 as stated fails: a body that is not JSON and holds a line feed is
    emitted with the line feed replaced; and a body that is a JSON array
    has no id and gets none. *)
Lemma body_flattened_and_array_without_id :
  let body := pylines ["Internal Server Error"; "upstream crashed"]%string in
  let up := replying (HTTPError 500 (Some (ReadText body)) (py "HTTP Error 500")) [] in
  let up_array := replying (Response 200 None (ReadText (py "[1]"))) [] in
  sample_loads body = None
  /\ turn_emitted (sample_process_line up LOOPBACK 27000 None tools_line)
     = [py "Internal Server Error upstream crashed "]
  /\ turn_emitted (sample_process_line up LOOPBACK 27000 None tools_line) <> [body]
  /\ sample_loads (py "[1]") = Some (JArr [JInt 1])
  /\ turn_emitted (sample_process_line up_array LOOPBACK 27000 None tools_line)
     = [py "[1]"].
Proof. repeat split; vm_compute; solve [reflexivity | discriminate]. Qed.

Lemma response_id_backfilled_or_body_flattened_witness :
  let up := replying (Response 200 None (ReadText tools_body_without_id)) [] in
  let request_obj :=
    [(py "jsonrpc", JStr (py "2.0")); (ID, JInt 7); (py "method", JStr (py "tools/list"))] in
  let d := [(py "jsonrpc", JStr (py "2.0")); (py "result", JObj [(py "tools", JArr [])])] in
  let req := {| req_host := LOOPBACK; req_port := 27000; req_data := tools_line;
                req_session_header := None |} in
  text_ok tools_line
  /\ sample_json_loads in_main (strip tools_line) = LoadsReturned (JObj request_obj)
  /\ dict_get sample_float ID request_obj = Some (JInt 7)
  /\ is_none sample_float (JInt 7) = false
  /\ sample_forward_request up LOOPBACK 27000 (strip tools_line) None
     = (Some req, [], Returned (tools_body_without_id, None))
  /\ tools_body_without_id <> []
  /\ text_ok tools_body_without_id
  /\ sample_json_loads in_main tools_body_without_id = LoadsReturned (JObj d)
  /\ dict_get sample_float ID d = None
  /\ sample_loads_raises in_write_response
       (dumps sample_float sample_floatstr (JObj (d ++ [(ID, JInt 7)]))) = None
  /\ turn_emitted (sample_process_line up LOOPBACK 27000 None tools_line)
     = [pyq "{'jsonrpc':'2.0','result':{'tools':[]},'id':7}"].
Proof.
  intros up request_obj d req.
  assert (H1 : text_ok tools_line) by (apply text_ok_by_check; vm_compute; reflexivity).
  assert (H2 : sample_json_loads in_main (strip tools_line) = LoadsReturned (JObj request_obj))
    by (vm_compute; reflexivity).
  assert (H3 : dict_get sample_float ID request_obj = Some (JInt 7)) by reflexivity.
  assert (H4 : is_none sample_float (JInt 7) = false) by reflexivity.
  assert (H5 : sample_forward_request up LOOPBACK 27000 (strip tools_line) None
               = (Some req, [], Returned (tools_body_without_id, None)))
    by (vm_compute; reflexivity).
  assert (H6 : tools_body_without_id <> []) by (vm_compute; discriminate).
  assert (H7 : text_ok tools_body_without_id)
    by (apply text_ok_by_check; vm_compute; reflexivity).
  assert (H8 : sample_json_loads in_main tools_body_without_id = LoadsReturned (JObj d))
    by (vm_compute; reflexivity).
  assert (H9 : dict_get sample_float ID d = None) by reflexivity.
  assert (H10 : sample_loads_raises in_write_response
                  (dumps sample_float sample_floatstr (JObj (d ++ [(ID, JInt 7)]))) = None)
    by (vm_compute; reflexivity).
  repeat (split; [assumption|]).
  destruct (at_sample response_id_backfilled_or_body_flattened
              sample_floatstr_scans up LOOPBACK 27000 None tools_line
              request_obj (JInt 7) (Some req) [] tools_body_without_id None
              H1 H2 H3 H4 H5 H6 H7) as [Hobj _].
  destruct (Hobj d H8 H9 H10) as [Hemitted _].
  rewrite Hemitted. vm_compute. reflexivity.
Defined.

(* ================================================================= *)
(** * Further properties on concrete inputs *)

(** ** Discovery *)

(** With the loopback address configured on a port of the range and no
    server anywhere, the eleven pairs of the range are probed once each. *)
Lemma find_ue5_server_no_repeat_witness :
  str_eqb LOOPBACK LOCALHOST = false
  /\ NoDup (snd (find_ue5_server (fun _ _ => false) LOOPBACK 27005)).
Proof.
  assert (H : str_eqb LOOPBACK LOCALHOST = false) by reflexivity.
  split; [exact H|].
  exact (find_ue5_server_no_repeat (fun _ _ => false) LOOPBACK 27005 H).
Defined.

(** ** SSE stream consumer *)

(** A descriptor that is accepted but names no stream comes back as it
    is. *)
Lemma handle_sse_response_not_deferred_witness :
  let up := replying (URLError []) [ReadText (pylines ["event: result"; "data: 1"; blank]%string)] in
  let response_body := pyq "{'status':'accepted','taskId':'7'}" in
  match sample_loads response_body with
  | Some (JObj d) =>
      match dict_get sample_float STATUS d with
      | Some (JStr status) =>
          str_eqb status ACCEPTED = true ->
          match dict_get sample_float SSE_URL d with
          | Some (JStr (_ :: _)) => False
          | _ => True
          end
      | _ => True
      end
  | _ => True
  end
  /\ sample_handle_sse up LOOPBACK response_body (Some (py "session-1"))
     = ([], (response_body, Some (py "session-1"))).
Proof.
  intros up response_body.
  assert (H : match sample_loads response_body with
              | Some (JObj d) =>
                  match dict_get sample_float STATUS d with
                  | Some (JStr status) =>
                      str_eqb status ACCEPTED = true ->
                      match dict_get sample_float SSE_URL d with
                      | Some (JStr (_ :: _)) => False
                      | _ => True
                      end
                  | _ => True
                  end
              | _ => True
              end) by (vm_compute; intros _; exact I).
  split; [exact H|].
  exact (at_sample_sse handle_sse_response_not_deferred
           up LOOPBACK response_body (Some (py "session-1")) H).
Defined.

(** A stream whose lines end with a carriage return and a line feed holds
    no blank line for the consumer: the terminal event in it is not seen. *)
Lemma handle_sse_response_needs_blank_line_witness :
  let up :=
    replying (URLError [])
      [ReadText (py "event: result" ++ [CR; LF] ++ py "data: 1" ++ [CR; LF; CR; LF])] in
  (forall url reads,
      get_sse up url = SseStream reads -> split_blank_line (stream_text reads) = None)
  /\ sample_handle_sse up LOOPBACK sample_descriptor None = ([], (sample_descriptor, None)).
Proof.
  intros up.
  assert (H : forall url reads,
             get_sse up url = SseStream reads -> split_blank_line (stream_text reads) = None)
    by (intros url reads [= <-]; vm_compute; reflexivity).
  split; [exact H|].
  exact (at_sample_sse handle_sse_response_needs_blank_line
           up LOOPBACK sample_descriptor None H).
Defined.

(** A terminal event at the head of the stream ends the call: the progress
    event behind it is not printed and the failing read is never made. *)
Lemma handle_sse_response_first_terminal_event_witness :
  let chunk := pylines ["event: response"; "data: {'id':7,'result':true}"; blank;
                        "event: progress"; "data: {'step':2}"; blank]%string in
  let later := [ReadRaises (py "Connection reset by peer")] in
  let up := replying (URLError []) (ReadText chunk :: later) in
  let url := py "http://127.0.0.1:27000/mcp/events/7" in
  let d := [(STATUS, JStr ACCEPTED); (SSE_URL, JStr url); (py "taskId", JStr (py "7"))] in
  let event_str := pylines ["event: response"]%string ++ pyq "data: {'id':7,'result':true}" in
  let rest := pylines ["event: progress"; "data: {'step':2}"; blank]%string in
  let data := pyq "{'id':7,'result':true}" in
  sample_json_loads in_handle_sse_response sample_descriptor = LoadsReturned (JObj d)
  /\ dict_get sample_float STATUS d = Some (JStr ACCEPTED)
  /\ dict_get sample_float SSE_URL d = Some (JStr url)
  /\ url <> []
  /\ get_sse up url = SseStream (ReadText chunk :: later)
  /\ split_blank_line chunk = Some (event_str, rest)
  /\ parse_sse_event event_str = (RESPONSE, data)
  /\ data <> []
  /\ sample_handle_sse up LOOPBACK sample_descriptor None = ([], (data, None)).
Proof.
  intros chunk later up url d event_str rest data.
  assert (H1 : sample_json_loads in_handle_sse_response sample_descriptor
               = LoadsReturned (JObj d)) by (vm_compute; reflexivity).
  assert (H2 : dict_get sample_float STATUS d = Some (JStr ACCEPTED)) by reflexivity.
  assert (H3 : dict_get sample_float SSE_URL d = Some (JStr url)) by reflexivity.
  assert (H4 : url <> []) by (vm_compute; discriminate).
  assert (H5 : get_sse up url = SseStream (ReadText chunk :: later)) by reflexivity.
  assert (H6 : split_blank_line chunk = Some (event_str, rest)) by (vm_compute; reflexivity).
  assert (H7 : parse_sse_event event_str = (RESPONSE, data)) by (vm_compute; reflexivity).
  assert (H8 : data <> []) by (vm_compute; discriminate).
  repeat (split; [assumption|]).
  exact (at_sample_sse handle_sse_response_first_terminal_event
           up LOOPBACK sample_descriptor None d url chunk later event_str rest RESPONSE data
           H1 H2 H3 H4 H5 H6 H7 (or_introl eq_refl) H8).
Defined.


(** Two progress events, one of them without data, an event of another
    type, the answer, and a progress event that comes too late. *)
Lemma handle_sse_response_single_read_witness :
  let chunk := pylines ["event: progress"; "data: {'step':1}"; blank;
                        "event: progress"; "data:"; blank;
                        "event: ping"; "data: {'alive':true}"; blank;
                        "event: notification"; "data: {'step':2}"; blank;
                        "event: result"; "data: {'id':7,'result':true}"; blank;
                        "event: progress"; "data: {'step':3}"; blank]%string in
  let up := replying (URLError []) [ReadText chunk] in
  let url := py "http://127.0.0.1:27000/mcp/events/7" in
  let d := [(STATUS, JStr ACCEPTED); (SSE_URL, JStr url); (py "taskId", JStr (py "7"))] in
  sample_json_loads in_handle_sse_response sample_descriptor = LoadsReturned (JObj d)
  /\ dict_get sample_float STATUS d = Some (JStr ACCEPTED)
  /\ dict_get sample_float SSE_URL d = Some (JStr url)
  /\ url <> []
  /\ get_sse up url = SseStream [ReadText chunk]
  /\ sample_handle_sse up LOOPBACK sample_descriptor None
     = ([pyq "{'step':1}"; pyq "{'step':2}"], (pyq "{'id':7,'result':true}", None)).
Proof.
  intros chunk up url d.
  assert (H1 : sample_json_loads in_handle_sse_response sample_descriptor
               = LoadsReturned (JObj d)) by (vm_compute; reflexivity).
  assert (H2 : dict_get sample_float STATUS d = Some (JStr ACCEPTED)) by reflexivity.
  assert (H3 : dict_get sample_float SSE_URL d = Some (JStr url)) by reflexivity.
  assert (H4 : url <> []) by (vm_compute; discriminate).
  assert (H5 : get_sse up url = SseStream [ReadText chunk]) by reflexivity.
  repeat (split; [assumption|]).
  rewrite (at_sample_sse handle_sse_response_single_read
             up LOOPBACK sample_descriptor None d url chunk H1 H2 H3 H4 H5).
  vm_compute. reflexivity.
Defined.

(** ** Main loop *)

(** A refused connection is answered with the id of the ping. *)
Lemma transport_failure_answered_with_request_id_witness :
  let reason := py "[Errno 111] Connection refused" in
  let up := replying (URLError reason) [] in
  let request_obj := [(py "jsonrpc", JStr (py "2.0")); (ID, JInt 1);
                      (py "method", JStr (py "ping")); (py "params", JObj [])] in
  let req := {| req_host := LOOPBACK; req_port := 27000; req_data := strip ping_line;
                req_session_header := session_header (Some (py "session-1")) |} in
  let message := py "Connection failed: " ++ reason in
  text_ok ping_line
  /\ sample_json_loads in_main (strip ping_line) = LoadsReturned (JObj request_obj)
  /\ transport_failure (post up req) = Some message
  /\ str_ok message = true
  /\ sample_loads_raises in_main
       (dumps sample_float sample_floatstr (error_object sample_float JNull (-32603) message))
     = None
  /\ sample_loads_raises in_write_response
       (dumps sample_float sample_floatstr
          (error_object sample_float (JInt 1) (-32603) message))
     = None
  /\ sample_process_line up LOOPBACK 27000 (Some (py "session-1")) ping_line
     = {| turn_sent := Some req; turn_pushed := [];
          turn_emitted :=
            [pyq "{'jsonrpc':'2.0','id':1,'error':{'code':-32603,'message':'Connection failed: [Errno 111] Connection refused'}}"];
          turn_session := Some (py "session-1") |}.
Proof.
  intros reason up request_obj req message.
  assert (H1 : text_ok ping_line) by (apply text_ok_by_check; vm_compute; reflexivity).
  assert (H2 : sample_json_loads in_main (strip ping_line) = LoadsReturned (JObj request_obj))
    by (vm_compute; reflexivity).
  assert (H3 : transport_failure (post up req) = Some message) by reflexivity.
  assert (H4 : str_ok message = true) by (vm_compute; reflexivity).
  assert (H5 : sample_loads_raises in_main
                 (dumps sample_float sample_floatstr
                    (error_object sample_float JNull (-32603) message)) = None)
    by (vm_compute; reflexivity).
  assert (H6 : sample_loads_raises in_write_response
                 (dumps sample_float sample_floatstr
                    (error_object sample_float (JInt 1) (-32603) message)) = None)
    by (vm_compute; reflexivity).
  repeat (split; [assumption|]).
  rewrite (at_sample transport_failure_answered_with_request_id
             sample_floatstr_scans up LOOPBACK 27000 (Some (py "session-1")) ping_line
             request_obj message H1 H2 H3 H4 H5 H6).
  vm_compute. reflexivity.
Defined.

(** ** Output canonicalization and id backfill *)

Lemma write_response_keeps_value_witness :
  let response := pyq "{ 'jsonrpc': '2.0', 'id': 1, 'result': [1.5, 'pong'] }" in
  let obj := JObj [(py "jsonrpc", JStr (py "2.0")); (ID, JInt 1);
                   (py "result", JArr [JFloat F_one_and_half; JStr (py "pong")])] in
  text_ok response
  /\ sample_json_loads in_write_response response = LoadsReturned obj
  /\ exists line,
       sample_write_response response = Returned line /\ sample_loads line = Some obj.
Proof.
  intros response obj.
  assert (H1 : text_ok response) by (apply text_ok_by_check; vm_compute; reflexivity).
  assert (H2 : sample_json_loads in_write_response response = LoadsReturned obj)
    by (vm_compute; reflexivity).
  repeat (split; [assumption|]).
  exact (at_sample_json write_response_keeps_value sample_floatstr_scans response obj H1 H2).
Defined.

Lemma write_error_reads_back_witness :
  let message := py "Parse error: Expecting value: line 1 column 1 (char 0)" in
  json_wf sample_float JNull
  /\ str_ok message = true
  /\ sample_loads (sample_write_error JNull (-32700) message)
     = Some (error_object sample_float JNull (-32700) message).
Proof.
  intros message.
  assert (H1 : json_wf sample_float JNull) by constructor.
  assert (H2 : str_ok message = true) by (vm_compute; reflexivity).
  repeat (split; [assumption|]).
  exact (write_error_reads_back
           sample_float sample_parse_float sample_parse_constant sample_floatstr
           sample_floatstr_scans JNull (-32700)%Z message H1 H2).
Defined.

(** The body without an id is the body the backfill rewrites. *)
Lemma backfill_id_only_fills_missing_id_witness :
  sample_backfill_id (JInt 7) tools_body_without_id <> tools_body_without_id
  /\ is_none sample_float (JInt 7) = false
  /\ exists d,
       sample_json_loads in_main tools_body_without_id = LoadsReturned (JObj d)
       /\ (dict_get sample_float ID d = None \/ dict_get sample_float ID d = Some JNull).
Proof.
  assert (H : sample_backfill_id (JInt 7) tools_body_without_id <> tools_body_without_id)
    by (vm_compute; discriminate).
  split; [exact H|].
  exact (at_sample_json backfill_id_only_fills_missing_id
           (JInt 7) tools_body_without_id H).
Defined.

Lemma null_id_replaced_in_place_witness :
  let response := pyq "{'jsonrpc':'2.0','id':null,'error':{'code':-32000,'message':'busy'}}" in
  let d := [(py "jsonrpc", JStr (py "2.0")); (ID, JNull);
            (py "error", JObj [(py "code", JInt (-32000)); (py "message", JStr (py "busy"))])] in
  json_wf sample_float (JInt 7)
  /\ is_none sample_float (JInt 7) = false
  /\ text_ok response
  /\ sample_json_loads in_main response = LoadsReturned (JObj d)
  /\ dict_get sample_float ID d = Some JNull
  /\ sample_write_response (sample_backfill_id (JInt 7) response)
     = Returned (pyq "{'jsonrpc':'2.0','id':7,'error':{'code':-32000,'message':'busy'}}").
Proof.
  intros response d.
  assert (H1 : json_wf sample_float (JInt 7)) by constructor.
  assert (H2 : is_none sample_float (JInt 7) = false) by reflexivity.
  assert (H3 : text_ok response) by (apply text_ok_by_check; vm_compute; reflexivity).
  assert (H4 : sample_json_loads in_main response = LoadsReturned (JObj d))
    by (vm_compute; reflexivity).
  assert (H5 : dict_get sample_float ID d = Some JNull) by reflexivity.
  repeat (split; [assumption|]).
  rewrite (proj1 (at_sample_json null_id_replaced_in_place
                    sample_floatstr_scans (JInt 7) response d H1 H2 H3 H4 H5)).
  vm_compute. reflexivity.
Defined.

(** The pong of the design comes out as it came in. *)
Lemma compact_answer_printed_unchanged_witness :
  let d := [(py "jsonrpc", JStr (py "2.0")); (ID, JInt 1); (py "result", JStr (py "pong"))] in
  let request_obj := [(py "jsonrpc", JStr (py "2.0")); (ID, JInt 1);
                      (py "method", JStr (py "ping")); (py "params", JObj [])] in
  let up := replying (Response 200 None (ReadText (sample_dumps_compact (JObj d)))) [] in
  sample_json_loads in_main (strip ping_line) = LoadsReturned (JObj request_obj)
  /\ snd (sample_forward_request up LOOPBACK 27000 (strip ping_line) None)
     = Returned (sample_dumps_compact (JObj d), None)
  /\ json_wf sample_float (JObj d)
  /\ dict_get sample_float ID d = Some (JInt 1)
  /\ is_none sample_float (JInt 1) = false
  /\ turn_emitted (sample_process_line up LOOPBACK 27000 None ping_line) = [pong_body].
Proof.
  intros d request_obj up.
  assert (H1 : sample_json_loads in_main (strip ping_line) = LoadsReturned (JObj request_obj))
    by (vm_compute; reflexivity).
  assert (H2 : snd (sample_forward_request up LOOPBACK 27000 (strip ping_line) None)
               = Returned (sample_dumps_compact (JObj d), None))
    by (vm_compute; reflexivity).
  assert (H3 : json_wf sample_float (JObj d)).
  { apply (loads_wf sample_float sample_parse_float sample_parse_constant pong_body);
      [apply text_ok_by_check|]; vm_compute; reflexivity. }
  assert (H4 : dict_get sample_float ID d = Some (JInt 1)) by reflexivity.
  assert (H5 : is_none sample_float (JInt 1) = false) by reflexivity.
  repeat (split; [assumption|]).
  rewrite (at_sample compact_answer_printed_unchanged
             sample_floatstr_scans up LOOPBACK 27000 None ping_line request_obj d
             (JInt 1) None H1 H2 H3 H4 H5).
  vm_compute. reflexivity.
Defined.

(** ** From start-up to the last line *)

(** A blank line, a ping, a line that is not JSON, a line the interpreter
    does not follow and a deferred call whose stream pushes a progress
    event: every line of output is one line. *)
Lemma main_prints_single_lines_witness :
  let up := replying (Response 202 None (ReadText sample_descriptor))
              [ReadText (pylines ["event: progress"; "data: {'step':1}"; blank;
                                  "event: response"; "data: {'id':7,'result':true}";
                                  blank]%string)] in
  let lines := [py "   "; ping_line; py "{bad json"; repeat 91 2000; tools_line] in
  (forall f, single_line (sample_floatstr f))
  /\ Forall single_line
       (snd (sample_main (fun _ _ => true) (always up) LOOPBACK 27000 lines EndOfInput)).
Proof.
  intros up lines. split; [exact sample_floatstr_single_line|].
  exact (at_sample main_prints_single_lines
           sample_floatstr_single_line (fun _ _ => true) (always up) LOOPBACK 27000 lines
           EndOfInput).
Defined.

(** No server on the loopback address: the ping on stdin is never read. *)
Lemma main_exits_1_without_server_witness :
  let check : list probe -> probe -> bool := fun _ _ => false in
  let world := always (replying (Response 200 None (ReadText pong_body)) []) in
  (forall log p, In p (probe_schedule LOOPBACK 27000) -> check log p = false)
  /\ sample_main check world LOOPBACK 27000 [ping_line] EndOfInput = (1%Z, []).
Proof.
  intros check world.
  assert (H : forall log p, In p (probe_schedule LOOPBACK 27000) -> check log p = false)
    by reflexivity.
  split; [exact H|].
  exact (at_sample main_exits_1_without_server
           check world LOOPBACK 27000 [ping_line] EndOfInput H).
Defined.

(** With [localhost] configured and a server that answers on the loopback
    address only, the ping goes to the loopback address; the status is 0
    when stdin ends after it, and 1 when the next read raises. *)
Lemma main_serves_configured_pair_witness :
  let check : list probe -> probe -> bool := fun _ p => str_eqb (fst p) LOOPBACK in
  let world := always (replying (Response 200 None (ReadText pong_body)) []) in
  let e := py "'utf-8' codec can't decode byte 0xff in position 0: invalid start byte" in
  check [] (LOOPBACK, 27000%Z) = true
  /\ sample_main check world LOCALHOST 27000 [ping_line] EndOfInput
     = (0%Z, stdout (sample_serve world LOOPBACK 27000 initial [ping_line]))
  /\ sample_main check world LOCALHOST 27000 [ping_line] (StdinRaises e)
     = (1%Z, stdout (sample_serve world LOOPBACK 27000 initial [ping_line])).
Proof.
  intros check world e.
  assert (H : check [] (LOOPBACK, 27000%Z) = true) by reflexivity.
  split; [exact H|]. split.
  - exact (at_sample main_serves_configured_pair
             check world LOCALHOST 27000 [ping_line] EndOfInput H).
  - exact (at_sample main_serves_configured_pair
             check world LOCALHOST 27000 [ping_line] (StdinRaises e) H).
Defined.
